(** * Table normalisation and chart encoding of the chat front end

    A shallow embedding of
    - [frontend/src/features/chat/components/SqlResultVisualizer.tsx]
      ([normalizeSqlResult], [tryParseJsonArray], [unionObjectKeys],
      [pickChart], [sortRows], [truncate], [formatCell], [renderChart] and
      the component [SqlResultVisualizer]),
    - [frontend/src/features/chat/utils/vegaLiteFormatter.ts]
      ([pickEncodingKeys], [normalizeRow], [sqlTableToVegaLiteSpec]) and
    - [frontend/src/app/chat/page.tsx] ([pickDataForViz], [getRowCount]),
    followed by the properties the specification states about them.

    Conventions of the embedding.
    - A JavaScript string is its sequence of UTF-16 code units ([JsString]);
      [str] injects an ASCII literal.
    - A JavaScript number is [NaN], an infinity, or a finite value carried by
      the rational it denotes (every finite binary64 is a rational; the sign
      of zero is not observed by the code at hand).
    - A value is a JSON value or [undefined]: what the upstream service
      delivers, what [JSON.parse] returns, and what the code builds from
      them.  An object is the ordered list of its own enumerable
      properties, in the order [Object.keys] reports them, and its
      prototype is [Object.prototype].
    - Property access is access to own properties.  JavaScript resolves the
      twelve names of [Object_prototype_names] ([constructor], [toString],
      [__proto__], ...) through the prototype when an object has no such
      property of its own, and primitives and arrays inherit further names
      from their own prototypes; the theorems about the content of rows
      therefore assume that no column bears one of the twelve names
      ([inherited_name]) and that the elements of a record array are
      objects ([plain_records]).
    - A function that can throw returns a [completion].  A conversion
      [String(v)] or [Number(v)] throws a [TypeError] on an object with a
      property of its own named [toString]: a JSON value is never callable.
      Spreading an array into a call throws a [RangeError] when the array
      is longer than the engine accepts ([argument_limit]). *)

From Stdlib Require Import List ZArith NArith QArith String Ascii Bool Lia.
From Stdlib Require Import Permutation Sorted DecimalString DecimalN SpecFloat Lqa.
Import ListNotations.

Set Implicit Arguments.
Local Close Scope Q_scope.
Local Open Scope list_scope.

(* ================================================================== *)
(** ** Strings *)

Definition JsString : Type := list N.

Fixpoint str (s : string) : JsString :=
  match s with
  | EmptyString => []
  | String a rest => N_of_ascii a :: str rest
  end.

Fixpoint String_eqb (a b : JsString) : bool :=
  match a, b with
  | [], [] => true
  | x :: a', y :: b' => N.eqb x y && String_eqb a' b'
  | _, _ => false
  end.

(** [String(n)] for a non-negative integer [n]: its decimal digits. *)
Definition decimal (n : N) : JsString :=
  str (NilEmpty.string_of_uint (N.to_uint n)).

Definition is_digit (c : N) : bool := (48 <=? c)%N && (c <=? 57)%N.

Definition digits_value (ds : list N) : N :=
  fold_left (fun acc d => (10 * acc + (d - 48))%N) ds 0%N.

(** An array index is a canonical numeric string below [2^32 - 1]; such
    property names are enumerated first, in ascending numeric order. *)
Definition array_index (k : JsString) : option N :=
  if forallb is_digit k then
    let n := digits_value k in
    if String_eqb (decimal n) k && (n <? 4294967295)%N then Some n else None
  else None.

(* ================================================================== *)
(** ** Numbers and values *)

Inductive JsNumber : Type :=
| Finite (q : Q)
| PosInf
| NegInf
| NaN.

#[local] Set Warnings "-register-all".
Inductive JsValue : Type :=
| JUndefined
| JNull
| JBool (b : bool)
| JNum (n : JsNumber)
| JStr (s : JsString)
| JArr (items : list JsValue)
| JObj (props : list (JsString * JsValue)).

#[local] Set Warnings "+register-all".

Definition JsObject : Type := list (JsString * JsValue).

Definition num (z : Z) : JsValue := JNum (Finite (inject_Z z)).

(** Abrupt completion: the exceptions the code at hand can meet. *)
Inductive JsError : Type := TypeError | SyntaxError | RangeError.

Inductive completion (A : Type) : Type :=
| Normal (a : A)
| Throw (e : JsError).
Arguments Normal {A} a.
Arguments Throw {A} e.

Definition bind {A B} (c : completion A) (k : A -> completion B) : completion B :=
  match c with
  | Normal a => k a
  | Throw e => Throw e
  end.

Notation "x <- c ;; k" := (bind c (fun x => k))
  (at level 61, c at next level, right associativity).

(* ================================================================== *)
(** ** Objects: own properties in enumeration order *)

Fixpoint obj_get (o : JsObject) (k : JsString) : option JsValue :=
  match o with
  | [] => None
  | (k', v) :: rest => if String_eqb k' k then Some v else obj_get rest k
  end.

Definition obj_has (o : JsObject) (k : JsString) : bool :=
  match obj_get o k with Some _ => true | None => false end.

Fixpoint obj_replace (o : JsObject) (k : JsString) (v : JsValue) : JsObject :=
  match o with
  | [] => []
  | (k', v') :: rest =>
      if String_eqb k' k then (k', v) :: rest else (k', v') :: obj_replace rest k v
  end.

(** Place a new array-index property [k] (numeric value [i]) after the index
    properties not above it and before everything else. *)
Fixpoint obj_insert_index (o : JsObject) (i : N) (k : JsString) (v : JsValue)
  : JsObject :=
  match o with
  | [] => [(k, v)]
  | (k', v') :: rest =>
      match array_index k' with
      | Some j =>
          if (j <? i)%N then (k', v') :: obj_insert_index rest i k v
          else (k, v) :: o
      | None => (k, v) :: o
      end
  end.

(** A property [k] of [o] is added or replaced: what [JSON.parse] and an
    object literal with computed keys do under every name, and what the
    assignment [o[k] = v] does under every name but [__proto__]. *)
Definition obj_set (o : JsObject) (k : JsString) (v : JsValue) : JsObject :=
  if obj_has o k then obj_replace o k v
  else match array_index k with
       | Some i => obj_insert_index o i k v
       | None => o ++ [(k, v)]
       end.

Definition obj_keys (o : JsObject) : list JsString := map fst o.
Definition obj_values (o : JsObject) : list JsValue := map snd o.

(** [o[k]] on an ordinary object, by its own properties: [undefined] when
    [k] is not one of them (nor, in JavaScript, an inherited name). *)
Definition obj_read (o : JsObject) (k : JsString) : JsValue :=
  match obj_get o k with Some v => v | None => JUndefined end.

(** The names every object inherits from [Object.prototype].  An object
    without a property of its own under one of them reads a built-in
    function there (its prototype under [__proto__]), and an assignment to
    [__proto__] sets the prototype instead of adding a property. *)
Definition Object_prototype_names : list JsString :=
  [str "constructor"; str "hasOwnProperty"; str "isPrototypeOf";
   str "propertyIsEnumerable"; str "toLocaleString"; str "toString";
   str "valueOf"; str "__defineGetter__"; str "__defineSetter__";
   str "__lookupGetter__"; str "__lookupSetter__"; str "__proto__"].

Definition inherited_name (k : JsString) : bool :=
  existsb (String_eqb k) Object_prototype_names.

(* ================================================================== *)
(** ** The built-in [JSON.parse]

    A lexer over code units followed by a pushdown recogniser over tokens,
    both by structural recursion on their input.  Whitespace is tab, line
    feed, carriage return and space; a number literal is rounded to the
    nearest binary64 (ties to even). *)

Inductive token : Type :=
| TLBracket | TRBracket | TLBrace | TRBrace | TComma | TColon
| TString (s : JsString)
| TNumber (n : JsNumber)
| TTrue | TFalse | TNull.

Fixpoint span_digits (s : list N) : list N * list N :=
  match s with
  | c :: rest =>
      if is_digit c then let '(ds, tl) := span_digits rest in (c :: ds, tl)
      else ([], s)
  | [] => ([], [])
  end.

Definition Q_of_binary (neg : bool) (m : positive) (e : Z) : Q :=
  let z := if neg then Zneg m else Zpos m in
  Qred match e with
       | Zneg p => Qmake z (Pos.pow 2 p)
       | _ => inject_Z (z * 2 ^ e)
       end.

Definition number_of_spec_float (f : spec_float) : JsNumber :=
  match f with
  | S754_zero _ => Finite 0
  | S754_infinity s => if s then NegInf else PosInf
  | S754_nan => NaN
  | S754_finite s m e => Finite (Q_of_binary s m e)
  end.

(** The binary64 nearest to [(-1)^neg * m * 10^e]. *)
Definition number_of_decimal (neg : bool) (m : N) (e : Z) : JsNumber :=
  match m with
  | N0 => Finite 0
  | Npos p =>
      let numer := Z.to_pos (Zpos p * 10 ^ Z.max e 0) in
      let denom := Z.to_pos (10 ^ Z.max (- e) 0) in
      number_of_spec_float
        (SFdiv 53 1024 (S754_finite neg numer 0) (S754_finite false denom 0))
  end.

(** [-? int frac? exp?] with [int = 0 | [1-9][0-9]*]. *)
Definition number_token (s : list N) : option JsNumber :=
  let '(neg, s1) := match s with
                    | 45%N :: tl => (true, tl)
                    | _ => (false, s)
                    end in
  let '(int_ds, s2) := span_digits s1 in
  let int_ok := match int_ds with
                | [] => false
                | [_] => true
                | d :: _ => negb (N.eqb d 48)
                end in
  let '(frac, s3) := match s2 with
                     | 46%N :: tl =>
                         let '(ds, tl') := span_digits tl in (Some ds, tl')
                     | _ => (None, s2)
                     end in
  let frac_ok := match frac with Some [] => false | _ => true end in
  let frac_ds := match frac with Some ds => ds | None => [] end in
  let after_exp (neg_e : bool) (tl : list N) : option Z :=
    let '(ds, tl') := span_digits tl in
    match ds, tl' with
    | _ :: _, [] =>
        let v := Z.of_N (digits_value ds) in
        Some (if neg_e then (- v)%Z else v)
    | _, _ => None
    end in
  let exp := match s3 with
             | [] => Some 0%Z
             | c :: tl =>
                 if N.eqb c 101 || N.eqb c 69 then
                   match tl with
                   | 43%N :: tl' => after_exp false tl'
                   | 45%N :: tl' => after_exp true tl'
                   | _ => after_exp false tl
                   end
                 else None
             end in
  match exp with
  | Some e =>
      if int_ok && frac_ok then
        Some (number_of_decimal neg (digits_value (int_ds ++ frac_ds))
                (e - Z.of_nat (List.length frac_ds)))
      else None
  | None => None
  end.

Definition word_token (s : list N) : option token :=
  if String_eqb s (str "true") then Some TTrue
  else if String_eqb s (str "false") then Some TFalse
  else if String_eqb s (str "null") then Some TNull
  else None.

Definition is_lower (c : N) : bool := (97 <=? c)%N && (c <=? 122)%N.

Definition is_number_char (c : N) : bool :=
  is_digit c || N.eqb c 45 || N.eqb c 43 || N.eqb c 46 || N.eqb c 101 || N.eqb c 69.

Definition is_json_space (c : N) : bool :=
  N.eqb c 9 || N.eqb c 10 || N.eqb c 13 || N.eqb c 32.

Definition hex_value (c : N) : option N :=
  if is_digit c then Some (c - 48)%N
  else if (97 <=? c)%N && (c <=? 102)%N then Some (c - 87)%N
  else if (65 <=? c)%N && (c <=? 70)%N then Some (c - 55)%N
  else None.

(** The character an escape [\c] denotes ([\u] is handled apart). *)
Definition escape_char (c : N) : option N :=
  match c with
  | 34%N => Some 34%N   (* double quote *)
  | 92%N => Some 92%N   (* backslash *)
  | 47%N => Some 47%N   (* solidus *)
  | 98%N => Some 8%N    (* b: backspace *)
  | 102%N => Some 12%N  (* f: form feed *)
  | 110%N => Some 10%N  (* n: line feed *)
  | 114%N => Some 13%N  (* r: carriage return *)
  | 116%N => Some 9%N   (* t: tab *)
  | _ => None
  end.

Inductive lex_state : Type :=
| LIdle
| LWord (acc : list N)
| LNumber (acc : list N)
| LString (acc : list N)
| LEscape (acc : list N)
| LUnicode (acc : list N) (seen : nat) (value : N).

(** One code unit met between tokens. *)
Definition lex_idle (c : N) (toks : list token) : option (lex_state * list token) :=
  if is_json_space c then Some (LIdle, toks)
  else if N.eqb c 91 then Some (LIdle, TLBracket :: toks)
  else if N.eqb c 93 then Some (LIdle, TRBracket :: toks)
  else if N.eqb c 123 then Some (LIdle, TLBrace :: toks)
  else if N.eqb c 125 then Some (LIdle, TRBrace :: toks)
  else if N.eqb c 44 then Some (LIdle, TComma :: toks)
  else if N.eqb c 58 then Some (LIdle, TColon :: toks)
  else if N.eqb c 34 then Some (LString [], toks)
  else if is_lower c then Some (LWord [c], toks)
  else if is_digit c || N.eqb c 45 then Some (LNumber [c], toks)
  else None.

(** Accumulators and the token list are kept in reverse. *)
Fixpoint lex (st : lex_state) (toks : list token) (s : list N)
  : option (list token) :=
  match s with
  | [] =>
      match st with
      | LIdle => Some (rev toks)
      | LWord w =>
          match word_token (rev w) with
          | Some t => Some (rev (t :: toks))
          | None => None
          end
      | LNumber n =>
          match number_token (rev n) with
          | Some x => Some (rev (TNumber x :: toks))
          | None => None
          end
      | _ => None
      end
  | c :: rest =>
      match st with
      | LIdle =>
          match lex_idle c toks with
          | Some (st', toks') => lex st' toks' rest
          | None => None
          end
      | LWord w =>
          if is_lower c then lex (LWord (c :: w)) toks rest
          else match word_token (rev w) with
               | Some t =>
                   match lex_idle c (t :: toks) with
                   | Some (st', toks') => lex st' toks' rest
                   | None => None
                   end
               | None => None
               end
      | LNumber n =>
          if is_number_char c then lex (LNumber (c :: n)) toks rest
          else match number_token (rev n) with
               | Some x =>
                   match lex_idle c (TNumber x :: toks) with
                   | Some (st', toks') => lex st' toks' rest
                   | None => None
                   end
               | None => None
               end
      | LString acc =>
          if N.eqb c 34 then lex LIdle (TString (rev acc) :: toks) rest
          else if N.eqb c 92 then lex (LEscape acc) toks rest
          else if (c <? 32)%N then None
          else lex (LString (c :: acc)) toks rest
      | LEscape acc =>
          match escape_char c with
          | Some u => lex (LString (u :: acc)) toks rest
          | None => if N.eqb c 117 then lex (LUnicode acc 0 0%N) toks rest else None
          end
      | LUnicode acc seen v =>
          match hex_value c with
          | Some h =>
              let v' := (16 * v + h)%N in
              if Nat.eqb seen 3 then lex (LString (v' :: acc)) toks rest
              else lex (LUnicode acc (S seen) v') toks rest
          | None => None
          end
      end
  end.

(** Containers left open around the value being read. *)
Inductive frame : Type :=
| InArr (items : list JsValue)
| InObj (props : JsObject) (key : JsString).

Inductive parse_state : Type :=
| PValue (stack : list frame)
| PFirstItem (stack : list frame)
| PSepArr (items : list JsValue) (stack : list frame)
| PFirstKey (stack : list frame)
| PKey (props : JsObject) (stack : list frame)
| PColon (props : JsObject) (key : JsString) (stack : list frame)
| PSepObj (props : JsObject) (stack : list frame)
| PDone (v : JsValue).

(** A value is complete: hand it to the innermost open container. *)
Definition deliver (v : JsValue) (stack : list frame) : parse_state :=
  match stack with
  | [] => PDone v
  | InArr items :: st => PSepArr (v :: items) st
  | InObj props key :: st => PSepObj (obj_set props key v) st
  end.

Definition parse_value_start (stack : list frame) (t : token) : option parse_state :=
  match t with
  | TString s => Some (deliver (JStr s) stack)
  | TNumber n => Some (deliver (JNum n) stack)
  | TTrue => Some (deliver (JBool true) stack)
  | TFalse => Some (deliver (JBool false) stack)
  | TNull => Some (deliver JNull stack)
  | TLBracket => Some (PFirstItem stack)
  | TLBrace => Some (PFirstKey stack)
  | _ => None
  end.

Definition parse_step (st : parse_state) (t : token) : option parse_state :=
  match st with
  | PValue stack => parse_value_start stack t
  | PFirstItem stack =>
      match t with
      | TRBracket => Some (deliver (JArr []) stack)
      | _ => parse_value_start (InArr [] :: stack) t
      end
  | PSepArr items stack =>
      match t with
      | TComma => Some (PValue (InArr items :: stack))
      | TRBracket => Some (deliver (JArr (rev items)) stack)
      | _ => None
      end
  | PFirstKey stack =>
      match t with
      | TRBrace => Some (deliver (JObj []) stack)
      | TString k => Some (PColon [] k stack)
      | _ => None
      end
  | PKey props stack =>
      match t with
      | TString k => Some (PColon props k stack)
      | _ => None
      end
  | PColon props k stack =>
      match t with
      | TColon => Some (PValue (InObj props k :: stack))
      | _ => None
      end
  | PSepObj props stack =>
      match t with
      | TComma => Some (PKey props stack)
      | TRBrace => Some (deliver (JObj props) stack)
      | _ => None
      end
  | PDone _ => None
  end.

Fixpoint parse_tokens (st : parse_state) (toks : list token) : option JsValue :=
  match toks with
  | [] => match st with PDone v => Some v | _ => None end
  | t :: rest =>
      match parse_step st t with
      | Some st' => parse_tokens st' rest
      | None => None
      end
  end.

Definition JSON_parse (text : JsString) : completion JsValue :=
  match lex LIdle [] text with
  | Some toks =>
      match parse_tokens (PValue []) toks with
      | Some v => Normal v
      | None => Throw SyntaxError
      end
  | None => Throw SyntaxError
  end.

(** JSON text written with apostrophes standing for the double quotes. *)
Definition json_text (s : string) : JsString :=
  map (fun c => if N.eqb c 39 then 34%N else c) (str s).

(* ================================================================== *)
(** ** Built-ins on arrays, strings and arbitrary values *)

(** [text.indexOf(c)] for a one-unit search string; [None] stands for -1. *)
Fixpoint String_indexOf (text : JsString) (c : N) : option nat :=
  match text with
  | [] => None
  | x :: rest =>
      if N.eqb x c then Some 0
      else match String_indexOf rest c with
           | Some i => Some (S i)
           | None => None
           end
  end.

(** [text.slice(start)] for a start inside the string. *)
Definition String_slice (text : JsString) (start : nat) : JsString :=
  skipn start text.

(** [xs.reduce((acc, x, idx) => f(acc, x, idx), init)]. *)
Fixpoint Array_reduce_from {A B : Type} (f : B -> A -> nat -> B)
  (xs : list A) (idx : nat) (acc : B) : B :=
  match xs with
  | [] => acc
  | x :: rest => Array_reduce_from f rest (S idx) (f acc x idx)
  end.

Definition Array_reduce {A B : Type} (f : B -> A -> nat -> B) (xs : list A)
  (init : B) : B :=
  Array_reduce_from f xs 0 init.

(** [xs.map(f)] for a callback that can throw. *)
Fixpoint Array_map {A B : Type} (f : A -> completion B) (xs : list A)
  : completion (list B) :=
  match xs with
  | [] => Normal []
  | x :: rest =>
      y <- f x ;;
      ys <- Array_map f rest ;;
      Normal (y :: ys)
  end.

(** [xs.join(",")] with the elements rendered by [render]: [null] and
    [undefined] count as empty. *)
Fixpoint Array_join (render : JsValue -> completion JsString) (xs : list JsValue)
  : completion JsString :=
  match xs with
  | [] => Normal []
  | x :: rest =>
      piece <- match x with
               | JUndefined | JNull => Normal []
               | _ => render x
               end ;;
      match rest with
      | [] => Normal piece
      | _ => tail <- Array_join render rest ;; Normal (piece ++ 44%N :: tail)
      end
  end.

(** [!v] is [negb (truthy v)]. *)
Definition truthy (v : JsValue) : bool :=
  match v with
  | JUndefined | JNull => false
  | JBool b => b
  | JNum (Finite q) => negb (Qeq_bool q 0)
  | JNum NaN => false
  | JNum _ => true
  | JStr s => match s with [] => false | _ => true end
  | JArr _ | JObj _ => true
  end.

Definition typeof_string (v : JsValue) : bool :=
  match v with JStr _ => true | _ => false end.

(** The names [0 .. n-1] of the elements of an array or string of length [n]. *)
Definition index_keys (n : nat) : list JsString :=
  map (fun i => decimal (N.of_nat i)) (seq 0 n).

(** [Object.keys(v)]: throws on [null] and [undefined], boxes a primitive. *)
Definition Object_keys (v : JsValue) : completion (list JsString) :=
  match v with
  | JUndefined | JNull => Throw TypeError
  | JBool _ | JNum _ => Normal []
  | JStr s => Normal (index_keys (List.length s))
  | JArr items => Normal (index_keys (List.length items))
  | JObj props => Normal (obj_keys props)
  end.

(** The own property [k] of [v], if any: a property of an object, an element
    or the [length] of an array or string; a primitive has none. *)
Definition own_member (v : JsValue) (k : JsString) : option JsValue :=
  match v with
  | JUndefined | JNull | JBool _ | JNum _ => None
  | JObj props => obj_get props k
  | JArr items =>
      match array_index k with
      | Some i => nth_error items (N.to_nat i)
      | None =>
          if String_eqb k (str "length")
          then Some (num (Z.of_nat (List.length items))) else None
      end
  | JStr s =>
      match array_index k with
      | Some i =>
          match nth_error s (N.to_nat i) with
          | Some c => Some (JStr [c])
          | None => None
          end
      | None =>
          if String_eqb k (str "length")
          then Some (num (Z.of_nat (List.length s))) else None
      end
  end.

(** [v?.[k]] by own properties: [undefined] on [null] and [undefined], and
    wherever [k] is not an own property (nor, in JavaScript, a name that
    [v] inherits). *)
Definition get_member (v : JsValue) (k : JsString) : JsValue :=
  match own_member v k with
  | Some x => x
  | None => JUndefined
  end.

(* ================================================================== *)
(** ** SqlResultVisualizer.tsx: the table normaliser *)

Record NormalizedTable : Type := {
  columns : list JsString;
  rows : list JsObject
}.

(** [isPlainObject(v)]: an object that is neither [null] nor an array.  The
    normaliser below asks it by matching on [JObj], and [Array.isArray] by
    matching on [JArr]. *)
Definition isPlainObject (v : JsValue) : bool :=
  match v with JObj _ => true | _ => false end.

Definition Set_add (set : list JsString) (k : JsString) : list JsString :=
  if existsb (String_eqb k) set then set else set ++ [k].

(** The outer loop of [unionObjectKeys], threading the [Set]. *)
Fixpoint unionObjectKeys_from (set : list JsString) (rs : list JsValue)
  : completion (list JsString) :=
  match rs with
  | [] => Normal set
  | r :: rest =>
      ks <- Object_keys r ;;
      unionObjectKeys_from (fold_left Set_add ks set) rest
  end.

Definition unionObjectKeys (rs : list JsValue) : completion (list JsString) :=
  unionObjectKeys_from [] rs.

Definition tryParseJsonArray (text : JsString) : option (list JsValue) :=
  match String_indexOf text 91 with
  | None => None
  | Some start =>
      match JSON_parse (String_slice text start) with
      | Normal (JArr parsed) => Some parsed
      | Normal _ => None
      | Throw _ => None
      end
  end.

(** The strings of an array already checked to hold only strings. *)
Definition as_strings (vs : list JsValue) : list JsString :=
  flat_map (fun v => match v with JStr s => [s] | _ => [] end) vs.

Definition tuple_length (r : JsValue) : nat :=
  match r with JArr items => List.length items | _ => 0 end.

Definition tuple_items (r : JsValue) : list JsValue :=
  match r with JArr items => items | _ => [] end.

Definition tuple_columns (maxLen : nat) : list JsString :=
  if Nat.eqb maxLen 2 then [str "label"; str "value"]
  else map (fun i => str "col_" ++ decimal (N.of_nat (i + 1))) (seq 0 maxLen).

Section Normaliser.
(** The number of arguments the engine accepts in one call. *)
Variable argument_limit : N.

(** [Math.max(...xs)] for the lengths [xs] of the elements of a non-empty
    array: every element of [xs] becomes an argument of the call, and a call
    with more arguments than the engine accepts throws a [RangeError]. *)
Definition Math_max_spread (xs : list nat) : completion nat :=
  if (N.of_nat (List.length xs) <=? argument_limit)%N then Normal (list_max xs)
  else Throw RangeError.

(** The body of [normalizeSqlResult]; [self] is the recursive call.  [direct]
    is the outcome of case 1, the inner [match] the cases 2 to 4 that follow
    when case 1 does not return. *)
Definition normalizeSqlResult_body
  (self : JsValue -> completion (option NormalizedTable)) (raw : JsValue)
  : completion (option NormalizedTable) :=
  if negb (truthy raw) then Normal None
  else
    let direct :=
      match raw with
      | JObj obj =>
          match obj_read obj (str "columns"), obj_read obj (str "rows") with
          | JArr cs, JArr rowsArray =>
              if forallb typeof_string cs then
                let columns := as_strings cs in
                let rows :=
                  map (fun r =>
                         let rowObj := match r with JObj o => o | _ => [] end in
                         Array_reduce
                           (fun acc c _ => obj_set acc c (obj_read rowObj c))
                           columns [])
                      rowsArray in
                Some {| columns := columns; rows := rows |}
              else None
          | _, _ => None
          end
      | _ => None
      end in
    match direct with
    | Some table => Normal (Some table)
    | None =>
        match raw with
        | JArr [] => Normal (Some {| columns := []; rows := [] |})
        | JArr ((JObj _ :: _) as items) =>
            columns <- unionObjectKeys items ;;
            Normal (Some {| columns := columns;
                            rows := map (fun r =>
                                           Array_reduce
                                             (fun acc c _ =>
                                                obj_set acc c (get_member r c))
                                             columns [])
                                        items |})
        | JArr ((JArr _ :: _) as items) =>
            maxLen <- Math_max_spread (map tuple_length items) ;;
            let columns := tuple_columns maxLen in
            Normal (Some {| columns := columns;
                            rows := map (fun r =>
                                           let arr := tuple_items r in
                                           Array_reduce
                                             (fun acc c idx =>
                                                obj_set acc c (nth idx arr JUndefined))
                                             columns [])
                                        items |})
        | JStr text =>
            match tryParseJsonArray text with
            | Some parsed => self (JArr parsed)
            | None => Normal None
            end
        | _ => Normal None
        end
    end.

(** The recursive call receives an array, which never recurses again, so two
    unfoldings of the body are the whole function ([normalizeSqlResult_unfold]
    below states the recursive equation). *)
Definition normalizeSqlResult (raw : JsValue) : completion (option NormalizedTable) :=
  normalizeSqlResult_body
    (normalizeSqlResult_body (fun _ => Normal None)) raw.
End Normaliser.

(* ================================================================== *)
(** ** Value classification and encoding selection *)

Definition isFiniteNumber (v : JsValue) : bool :=
  match v with JNum (Finite _) => true | _ => false end.

Record EncodingKeys : Type := {
  xKey : option JsString;
  yKey : option JsString
}.

(** [xs[0] ?? alt] for an array of strings. *)
Definition first_or {A : Type} (xs : list A) (alt : option A) : option A :=
  match xs with
  | x :: _ => Some x
  | [] => alt
  end.

(** vegaLiteFormatter.ts, [pickEncodingKeys]. *)
Definition pickEncodingKeys (columns : list JsString) (rows : list JsObject)
  : EncodingKeys :=
  if Nat.eqb (List.length columns) 0 || Nat.eqb (List.length rows) 0 then
    {| xKey := None; yKey := None |}
  else
    let numericCols :=
      filter (fun c => existsb (fun r => isFiniteNumber (obj_read r c)) rows) columns in
    let textCols :=
      filter (fun c => existsb (fun r => typeof_string (obj_read r c)) rows) columns in
    let yKey := first_or numericCols None in
    let xKey := first_or textCols (first_or columns None) in
    {| xKey := xKey; yKey := yKey |}.

(** [!k] for [k : string | null]: [null] and the empty string are falsy. *)
Definition key_falsy (k : option JsString) : bool :=
  match k with
  | None | Some [] => true
  | Some _ => false
  end.

(* ================================================================== *)
(** ** Sorting

    [Array.prototype.sort] is specified to be stable; on a consistent
    comparator its result is the one stable sorted arrangement, which the
    insertion below computes.  The comparator's number is read by its sign,
    [NaN] counting as zero; an exception of the comparator ends the sort. *)

Definition sort_order (n : JsNumber) : comparison :=
  match n with
  | Finite q => Qcompare q 0
  | PosInf => Gt
  | NegInf => Lt
  | NaN => Eq
  end.

Section ArraySort.
Context {A : Type} (compareFn : A -> A -> completion JsNumber).

Fixpoint sort_insert (x : A) (sorted : list A) : completion (list A) :=
  match sorted with
  | [] => Normal [x]
  | y :: rest =>
      c <- compareFn x y ;;
      match sort_order c with
      | Gt => rest' <- sort_insert x rest ;; Normal (y :: rest')
      | _ => Normal (x :: sorted)
      end
  end.

Fixpoint Array_sort (xs : list A) : completion (list A) :=
  match xs with
  | [] => Normal []
  | x :: rest => sorted <- Array_sort rest ;; sort_insert x sorted
  end.
End ArraySort.

(** [a - b].  On finite operands the exact difference stands for the rounded
    one: both have the same sign, and only the sign is read. *)
Definition Number_sub (a b : JsNumber) : JsNumber :=
  match a, b with
  | NaN, _ | _, NaN => NaN
  | Finite x, Finite y => Finite (x - y)
  | Finite _, PosInf => NegInf
  | Finite _, NegInf => PosInf
  | PosInf, PosInf => NaN
  | PosInf, _ => PosInf
  | NegInf, NegInf => NaN
  | NegInf, _ => NegInf
  end.

(** [xs.slice(0, end)]: [end] is truncated to an integer, a negative one
    counts from the end of the array. *)
Definition Array_slice0 {A : Type} (xs : list A) (end_ : JsNumber) : list A :=
  let len := Z.of_nat (List.length xs) in
  let rel :=
    match end_ with
    | NaN | NegInf => 0%Z
    | PosInf => len
    | Finite q =>
        let z := Z.quot (Qnum q) (Zpos (Qden q)) in
        if (z <? 0)%Z then Z.max (len + z) 0 else Z.min z len
    end in
  firstn (Z.to_nat rel) xs.

Inductive SortBy : Type := value_desc | value_asc | label_asc | label_desc.

Module Chart.
Record t : Type := {
  xKey : option JsString;
  yKey : option JsString;
  chartData : list JsObject
}.
End Chart.

Module Options.
Record t : Type := {
  chartType : JsString;
  xKey : option JsString;
  yKey : option JsString;
  limit : option JsNumber;
  width : option JsNumber;
  height : option JsNumber
}.
End Options.

Definition VEGA_LITE_SCHEMA : JsString :=
  str "https://vega.github.io/schema/vega-lite/v5.json".

(** [a ?? b]. *)
Definition nullish_or {A : Type} (a : option A) (b : A) : A :=
  match a with Some x => x | None => b end.

(** The code that depends on three built-ins left abstract: the decimal
    rendering of a finite number, the reading of a string as a number, and
    the locale-aware string comparison. *)
Section Coercions.
Variable Finite_toString : Q -> JsString.
Variable StringToNumber : JsString -> JsNumber.
Variable localeCompare : JsString -> JsString -> Z.

(** [String(v)].  An array is joined, its elements rendered in turn; an
    object is rendered by the [toString] it inherits unless it has a
    property of its own under that name, which is not callable and leaves
    the object without a primitive value. *)
Fixpoint ToString (v : JsValue) : completion JsString :=
  match v with
  | JUndefined => Normal (str "undefined")
  | JNull => Normal (str "null")
  | JBool true => Normal (str "true")
  | JBool false => Normal (str "false")
  | JNum (Finite q) => Normal (Finite_toString q)
  | JNum PosInf => Normal (str "Infinity")
  | JNum NegInf => Normal (str "-Infinity")
  | JNum NaN => Normal (str "NaN")
  | JStr s => Normal s
  | JArr items => Array_join ToString items
  | JObj props =>
      if obj_has props (str "toString") then Throw TypeError
      else Normal (str "[object Object]")
  end.

(** [Number(v)]: an array or an object is read through its string form. *)
Definition ToNumber (v : JsValue) : completion JsNumber :=
  match v with
  | JUndefined => Normal NaN
  | JNull => Normal (Finite 0)
  | JBool b => Normal (Finite (if b then 1 else 0))
  | JNum n => Normal n
  | JStr s => Normal (StringToNumber s)
  | JArr _ | JObj _ => s <- ToString v ;; Normal (StringToNumber s)
  end.

(** SqlResultVisualizer.tsx, [pickChart]. *)
Definition pickChart (columns : list JsString) (rows : list JsObject)
  : completion Chart.t :=
  if Nat.eqb (List.length columns) 0 || Nat.eqb (List.length rows) 0 then
    Normal {| Chart.xKey := None; Chart.yKey := None; Chart.chartData := [] |}
  else
    let numericCols :=
      filter (fun c => existsb (fun r => isFiniteNumber (obj_read r c)) rows) columns in
    let textCols :=
      filter (fun c => existsb (fun r => typeof_string (obj_read r c)) rows) columns in
    let yKey := first_or numericCols None in
    let xKey := first_or textCols (first_or columns None) in
    if key_falsy xKey || key_falsy yKey then
      Normal {| Chart.xKey := xKey; Chart.yKey := yKey; Chart.chartData := [] |}
    else
      match xKey, yKey with
      | Some x, Some y =>
          chartData <-
            Array_map
              (fun r =>
                 let category :=
                   match obj_read r x with
                   | JUndefined | JNull => JStr []
                   | v => v
                   end in
                 label <- ToString category ;;
                 value <- ToNumber (obj_read r y) ;;
                 Normal (obj_set (obj_set [] x (JStr label)) y (JNum value)))
              (firstn 30 rows) ;;
          Normal {| Chart.xKey := xKey; Chart.yKey := yKey;
                    Chart.chartData := chartData |}
      | _, _ =>
          Normal {| Chart.xKey := xKey; Chart.yKey := yKey; Chart.chartData := [] |}
      end.

Definition getVal (r : JsObject) : JsValue :=
  match find isFiniteNumber (obj_values r) with
  | Some v => v
  | None => num 0
  end.

Definition getLabel (r : JsObject) : JsValue :=
  match find typeof_string (obj_values r) with
  | Some v => v
  | None => JStr []
  end.

(** The comparator handed to [sort] by [sortRows]. *)
Definition compareRows (sortBy : SortBy) (a b : JsObject) : completion JsNumber :=
  va <- ToNumber (getVal a) ;;
  vb <- ToNumber (getVal b) ;;
  la <- ToString (getLabel a) ;;
  lb <- ToString (getLabel b) ;;
  Normal match sortBy with
         | value_asc => Number_sub va vb
         | label_asc => Finite (inject_Z (localeCompare la lb))
         | label_desc => Finite (inject_Z (localeCompare lb la))
         | value_desc => Number_sub vb va
         end.

(** SqlResultVisualizer.tsx, [sortRows]. *)
Definition sortRows (rows : list JsObject) (sortBy : SortBy)
  : completion (list JsObject) :=
  Array_sort (compareRows sortBy) rows.

(** The loop of [normalizeRow] over the columns, threading [out]. *)
Fixpoint normalizeRow_from (row : JsObject) (columns : list JsString)
  (out : JsObject) : completion JsObject :=
  match columns with
  | [] => Normal out
  | c :: rest =>
      let v := obj_read row c in
      cell <- match v with
              | JUndefined | JNull => Normal JNull
              | JNum (Finite _) => Normal v
              | JStr _ => Normal v
              | _ => s <- ToString v ;; Normal (JStr s)
              end ;;
      normalizeRow_from row rest (obj_set out c cell)
  end.

(** vegaLiteFormatter.ts, [normalizeRow]. *)
Definition normalizeRow (row : JsObject) (columns : list JsString)
  (xKey yKey : JsString) : completion JsObject :=
  normalizeRow_from row columns [].

(** vegaLiteFormatter.ts, [sqlTableToVegaLiteSpec]; [None] is [null]. *)
Definition sqlTableToVegaLiteSpec (table : NormalizedTable) (options : Options.t)
  : completion (option JsValue) :=
  let columns := table.(columns) in
  let rows := table.(rows) in
  let limit := nullish_or options.(Options.limit) (Finite 100) in
  let width := nullish_or options.(Options.width) (Finite 400) in
  let height := nullish_or options.(Options.height) (Finite 320) in
  if Nat.eqb (List.length columns) 0 || Nat.eqb (List.length rows) 0 then Normal None
  else
    let inferred := pickEncodingKeys columns rows in
    let xKey := match options.(Options.xKey) with
                | Some k => Some k
                | None => inferred.(xKey)
                end in
    let yKey := match options.(Options.yKey) with
                | Some k => Some k
                | None => inferred.(yKey)
                end in
    if key_falsy xKey || key_falsy yKey then Normal None
    else
      match xKey, yKey with
      | Some xKey, Some yKey =>
          let sliced := Array_slice0 rows limit in
          values <-
            Array_map (fun r => out <- normalizeRow r columns xKey yKey ;;
                                Normal (JObj out))
                      sliced ;;
          let base : JsObject :=
            [(str "$schema", JStr VEGA_LITE_SCHEMA);
             (str "data", JObj [(str "values", JArr values)]);
             (str "width", JNum width);
             (str "height", JNum height)] in
          let chartType := options.(Options.chartType) in
          if String_eqb chartType (str "bar") then
            Normal (Some (JObj (base ++
              [(str "mark", JStr (str "bar"));
               (str "encoding",
                 JObj [(str "y", JObj [(str "field", JStr xKey);
                                       (str "type", JStr (str "nominal"));
                                       (str "sort", JStr (str "-x"));
                                       (str "title", JStr xKey)]);
                       (str "x", JObj [(str "field", JStr yKey);
                                       (str "type", JStr (str "quantitative"));
                                       (str "title", JStr yKey)])])])))
          else if String_eqb chartType (str "column") then
            Normal (Some (JObj (base ++
              [(str "mark", JStr (str "bar"));
               (str "encoding",
                 JObj [(str "x", JObj [(str "field", JStr xKey);
                                       (str "type", JStr (str "nominal"));
                                       (str "axis", JObj [(str "labelAngle", num (-25))]);
                                       (str "title", JStr xKey)]);
                       (str "y", JObj [(str "field", JStr yKey);
                                       (str "type", JStr (str "quantitative"));
                                       (str "title", JStr yKey)])])])))
          else if String_eqb chartType (str "line")
                  || String_eqb chartType (str "point") then
            Normal (Some (JObj (base ++
              [(str "mark", JStr chartType);
               (str "encoding",
                 JObj [(str "x", JObj [(str "field", JStr xKey);
                                       (str "type", JStr (str "nominal"));
                                       (str "axis", JObj [(str "labelAngle", num (-25))]);
                                       (str "title", JStr xKey)]);
                       (str "y", JObj [(str "field", JStr yKey);
                                       (str "type", JStr (str "quantitative"));
                                       (str "title", JStr yKey)])])])))
          else if String_eqb chartType (str "area") then
            Normal (Some (JObj (base ++
              [(str "mark", JStr (str "area"));
               (str "encoding",
                 JObj [(str "x", JObj [(str "field", JStr xKey);
                                       (str "type", JStr (str "nominal"));
                                       (str "axis", JObj [(str "labelAngle", num (-25))]);
                                       (str "title", JStr xKey)]);
                       (str "y", JObj [(str "field", JStr yKey);
                                       (str "type", JStr (str "quantitative"));
                                       (str "title", JStr yKey)])])])))
          else if String_eqb chartType (str "arc") then
            Normal (Some (JObj (base ++
              [(str "mark", JObj [(str "type", JStr (str "arc"));
                                  (str "innerRadius", num 60)]);
               (str "encoding",
                 JObj [(str "theta", JObj [(str "field", JStr yKey);
                                           (str "type", JStr (str "quantitative"))]);
                       (str "color", JObj [(str "field", JStr xKey);
                                           (str "type", JStr (str "nominal"));
                                           (str "legend",
                                             JObj [(str "title", JStr xKey)])])])])))
          else
            Normal (Some (JObj (base ++
              [(str "mark", JStr (str "bar"));
               (str "encoding",
                 JObj [(str "x", JObj [(str "field", JStr xKey);
                                       (str "type", JStr (str "nominal"));
                                       (str "title", JStr xKey)]);
                       (str "y", JObj [(str "field", JStr yKey);
                                       (str "type", JStr (str "quantitative"));
                                       (str "title", JStr yKey)])])])))
      | _, _ => Normal None
      end.
End Coercions.

(** An instance of the abstract built-ins, for closed examples: integers are
    rendered in decimal, JSON number literals are read as numbers, and the
    collation is the order of code units. *)
Definition integer_toString (q : Q) : JsString :=
  let n := Z.quot (Qnum q) (Zpos (Qden q)) in
  (if (n <? 0)%Z then [45%N] else []) ++ decimal (Z.abs_N n).

Definition literal_toNumber (s : JsString) : JsNumber :=
  match s with
  | [] => Finite 0
  | _ => match number_token s with Some n => n | None => NaN end
  end.

Fixpoint codeunit_compare (a b : JsString) : Z :=
  match a, b with
  | [], [] => 0
  | [], _ :: _ => -1
  | _ :: _, [] => 1
  | x :: a', y :: b' =>
      match N.compare x y with
      | Lt => -1
      | Gt => 1
      | Eq => codeunit_compare a' b'
      end
  end.

(* ================================================================== *)
(** ** Specification-side definitions *)

(** The four accepted shapes of section 4.2, plus the empty array. *)
Inductive Shape : Type := DirectTable | RecordArray | TupleArray | EmptyArray.

Definition array_shape (items : list JsValue) : option (Shape * list JsValue) :=
  match items with
  | [] => Some (EmptyArray, [])
  | JObj _ :: _ => Some (RecordArray, items)
  | JArr _ :: _ => Some (TupleArray, items)
  | _ => None
  end.

(** The shape an input is accepted under, with its source rows. *)
Definition accepted_shape (raw : JsValue) : option (Shape * list JsValue) :=
  match raw with
  | JObj obj =>
      match obj_read obj (str "columns"), obj_read obj (str "rows") with
      | JArr cs, JArr rs =>
          if forallb typeof_string cs then Some (DirectTable, rs) else None
      | _, _ => None
      end
  | JArr items => array_shape items
  | JStr text =>
      match tryParseJsonArray text with
      | Some parsed => array_shape parsed
      | None => None
      end
  | _ => None
  end.

(** What a source row holds for the column named [c] at position [j]:
    [None] when the column is absent from it. *)
Definition source_cell (sh : Shape) (src : JsValue) (j : nat) (c : JsString)
  : option JsValue :=
  match sh with
  | DirectTable => match src with JObj o => obj_get o c | _ => None end
  | RecordArray => own_member src c
  | TupleArray => nth_error (tuple_items src) j
  | EmptyArray => None
  end.

Definition cell_or_undefined (sh : Shape) (src : JsValue) (j : nat) (c : JsString)
  : JsValue :=
  match source_cell sh src j c with
  | Some v => v
  | None => JUndefined
  end.

(** An element of a record array the normaliser reads by its own
    properties alone: an object, [null] or [undefined]. *)
Definition plain_record (r : JsValue) : bool :=
  match r with
  | JObj _ | JNull | JUndefined => true
  | _ => false
  end.

(** The elements of a record array, given as such or encoded in a string,
    are objects ([null] and [undefined] are let through: on them the
    normaliser throws). *)
Definition plain_records (raw : JsValue) : bool :=
  match accepted_shape raw with
  | Some (RecordArray, srcs) => forallb plain_record srcs
  | _ => true
  end.

(** No column bears a name that objects inherit. *)
Definition own_columns (columns : list JsString) : Prop :=
  Forall (fun c => inherited_name c = false) columns.

(** Every row of [t] has the columns of [t] as its keys and holds, under
    each column, the cell of its source row, [undefined] where the source
    row has none. *)
Definition rows_filled (t : NormalizedTable) (sh : Shape) (srcs : list JsValue)
  : Prop :=
  Forall2
    (fun src row =>
       (forall k, In k (obj_keys row) <-> In k t.(columns)) /\
       (forall j c, nth_error t.(columns) j = Some c ->
                    obj_get row c = Some (cell_or_undefined sh src j c)))
    srcs t.(rows).


(** Section 4.4: the first finite number among the row's values, else 0. *)
Definition representativeValue (r : JsObject) : Q :=
  match find isFiniteNumber (obj_values r) with
  | Some (JNum (Finite q)) => q
  | _ => 0%Q
  end.

(** Section 4.4: the first string among the row's values, else empty. *)
Definition representativeLabel (r : JsObject) : JsString :=
  match find typeof_string (obj_values r) with
  | Some (JStr s) => s
  | _ => []
  end.

(** Rows share a comparison key under [sortBy]. *)
Definition same_key (sortBy : SortBy) (a b : JsObject) : bool :=
  match sortBy with
  | value_desc | value_asc => Qeq_bool (representativeValue a) (representativeValue b)
  | label_asc | label_desc => String_eqb (representativeLabel a) (representativeLabel b)
  end.

(** Section 4.4 read to the letter: the first finite number met scanning
    the cells of the row in column order, else 0. *)
Definition representativeValue_by_column (columns : list JsString) (r : JsObject)
  : Q :=
  match find isFiniteNumber (map (obj_read r) columns) with
  | Some (JNum (Finite q)) => q
  | _ => 0%Q
  end.

(** What the comparator of [sortRows] returns on two rows, from their
    representative values and labels. *)
Definition compare_keys (localeCompare : JsString -> JsString -> Z)
  (sortBy : SortBy) (a b : JsObject) : JsNumber :=
  match sortBy with
  | value_asc =>
      Number_sub (Finite (representativeValue a)) (Finite (representativeValue b))
  | label_asc =>
      Finite (inject_Z (localeCompare (representativeLabel a) (representativeLabel b)))
  | label_desc =>
      Finite (inject_Z (localeCompare (representativeLabel b) (representativeLabel a)))
  | value_desc =>
      Number_sub (Finite (representativeValue b)) (Finite (representativeValue a))
  end.

(** The stable sorted arrangement of a list under a comparator that
    returns: each element is inserted before the first element it does not
    follow. *)
Section StableSort.
Context {A : Type} (compare : A -> A -> JsNumber).

Fixpoint stable_insert (x : A) (sorted : list A) : list A :=
  match sorted with
  | [] => [x]
  | y :: rest =>
      match sort_order (compare x y) with
      | Gt => y :: stable_insert x rest
      | _ => x :: sorted
      end
  end.

Fixpoint stable_sort (xs : list A) : list A :=
  match xs with
  | [] => []
  | x :: rest => stable_insert x (stable_sort rest)
  end.
End StableSort.

(** The conversions [String(v)] and [Number(v)] return on [v]: no object
    met while rendering [v] has a property of its own named [toString]. *)
Fixpoint coerces (v : JsValue) : bool :=
  match v with
  | JArr items => forallb coerces items
  | JObj props => negb (obj_has props (str "toString"))
  | _ => true
  end.

(** Every value held by the rows can be converted to a string and to a
    number. *)
Definition rows_coerce (rows : list JsObject) : Prop :=
  forall r v, In r rows -> In v (obj_values r) -> coerces v = true.

(** What [pickChart] plots for a row under the keys [x] and [y]. *)
Definition chart_entry (Finite_toString : Q -> JsString)
  (StringToNumber : JsString -> JsNumber) (x y : JsString) (r : JsObject)
  : completion JsObject :=
  let category :=
    match obj_read r x with
    | JUndefined | JNull => JStr []
    | v => v
    end in
  label <- ToString Finite_toString category ;;
  value <- ToNumber Finite_toString StringToNumber (obj_read r y) ;;
  Normal (obj_set (obj_set [] x (JStr label)) y (JNum value)).


(** A column is numeric (textual) when some row holds a finite number
    (a string) in it. *)
Definition numeric_column (rows : list JsObject) (c : JsString) : Prop :=
  exists r, In r rows /\ isFiniteNumber (obj_read r c) = true.

Definition textual_column (rows : list JsObject) (c : JsString) : Prop :=
  exists r, In r rows /\ typeof_string (obj_read r c) = true.

(** [c] is the first element of [xs] satisfying [P]. *)
Definition first_satisfying (P : JsString -> Prop) (xs : list JsString)
  (c : JsString) : Prop :=
  exists pre post, xs = pre ++ c :: post /\ P c /\ Forall (fun d => ~ P d) pre.

(** The chart kinds [sqlTableToVegaLiteSpec] has a case for. *)
Definition recognized_kinds : list JsString :=
  [str "bar"; str "column"; str "line"; str "point"; str "area"; str "arc"].

Definition with_kind (options : Options.t) (kind : JsString) : Options.t :=
  {| Options.chartType := kind;
     Options.xKey := options.(Options.xKey);
     Options.yKey := options.(Options.yKey);
     Options.limit := options.(Options.limit);
     Options.width := options.(Options.width);
     Options.height := options.(Options.height) |}.

(** The two keys of a chart-rendering descriptor. *)
Definition chart_keys (ch : Chart.t) : EncodingKeys :=
  {| xKey := ch.(Chart.xKey); yKey := ch.(Chart.yKey) |}.

(** A vertical-bar spec: mark [bar], the category on [x] as a nominal field
    (with the extra [axis] properties given), the value on [y]. *)
Definition vertical_bar (base : JsObject) (xKey : JsString) (axis : JsObject)
  (y : JsValue) : JsValue :=
  JObj (base ++
    [(str "mark", JStr (str "bar"));
     (str "encoding",
       JObj [(str "x", JObj ([(str "field", JStr xKey);
                              (str "type", JStr (str "nominal"))]
                             ++ axis ++ [(str "title", JStr xKey)]));
             (str "y", y)])]).


(* ================================================================== *)
(** ** Sample inputs *)

(** [{columns: ["a","b"], rows: [{a: 1}]}]. *)
Definition direct_sample : JsValue :=
  JObj [(str "columns", JArr [JStr (str "a"); JStr (str "b")]);
        (str "rows", JArr [JObj [(str "a", num 1)]])].

(** [{label: l, value: v}]. *)
Definition labelled (l : string) (v : Z) : JsObject :=
  [(str "label", JStr (str l)); (str "value", num v)].

(** Rows of representative values 1, 3, 2 and a fourth tied at 2. *)
Definition sort_sample : list JsObject :=
  [labelled "a" 1; labelled "b" 3; labelled "c" 2; labelled "d" 2].

(** The rows of [index_column_sample] once normalised: the column [0]
    is enumerated before the column [b]. *)
Definition index_column_table : NormalizedTable :=
  {| columns := [str "b"; str "0"];
     rows := [[(str "0", num 2); (str "b", num 1)];
              [(str "0", num 1); (str "b", num 2)]] |}.

(** A one-row table with a textual and a numeric column. *)
Definition chart_sample : NormalizedTable :=
  {| columns := [str "city"; str "total"];
     rows := [[(str "city", JStr (str "Hue")); (str "total", num 7)]] |}.

(** [[{k: {toString: 1}, v: 1}, {k: "s", v: 2}]]: a record array with a
    cell that has no string form. *)
Definition unprintable_sample : JsValue :=
  JArr [JObj [(str "k", JObj [(str "toString", num 1)]); (str "v", num 1)];
        JObj [(str "k", JStr (str "s")); (str "v", num 2)]].

(** The table [unprintable_sample] normalises to. *)
Definition unprintable_table : NormalizedTable :=
  {| columns := [str "k"; str "v"];
     rows := [[(str "k", JObj [(str "toString", num 1)]); (str "v", num 1)];
              [(str "k", JStr (str "s")); (str "v", num 2)]] |}.

(** Three cities with their totals, as a record array. *)
Definition cities_sample : JsValue :=
  JArr [JObj [(str "city", JStr (str "Hue")); (str "total", num 7)];
        JObj [(str "city", JStr (str "Ha Noi")); (str "total", num 9)];
        JObj [(str "city", JStr (str "Da Nang")); (str "total", num 8)]].

(** The table [cities_sample] normalises to. *)
Definition cities_table : NormalizedTable :=
  {| columns := [str "city"; str "total"];
     rows := [[(str "city", JStr (str "Hue")); (str "total", num 7)];
              [(str "city", JStr (str "Ha Noi")); (str "total", num 9)];
              [(str "city", JStr (str "Da Nang")); (str "total", num 8)]] |}.

(** The options [{chartType: kind}]. *)
Definition only_kind (kind : JsString) : Options.t :=
  {| Options.chartType := kind;
     Options.xKey := None; Options.yKey := None;
     Options.limit := None; Options.width := None; Options.height := None |}.

(** An engine that accepts 65535 arguments in one call. *)
Definition sample_argument_limit : N := 65535.


(** [{columns: ["b","0"], rows: [{b: 1, 0: 2}, {b: 2, 0: 1}]}]: a table
    with a column named like an array index. *)
Definition index_column_sample : JsValue :=
  JObj [(str "columns", JArr [JStr (str "b"); JStr (str "0")]);
        (str "rows", JArr [JObj [(str "b", num 1); (str "0", num 2)];
                           JObj [(str "b", num 2); (str "0", num 1)]])].

(** [[{a: 1}, null]]: a record array with a [null] element. *)
Definition null_record_sample : JsValue :=
  JArr [JObj [(str "a", num 1)]; JNull].

(* ================================================================== *)
(** ** SqlResultVisualizer.tsx: display helpers and the component

    A React element is kept by what it is and by the data it is given: the
    kind of chart, its rows, the keys it reads and its colours. *)

(** [truncate(text, max)], for an integer [max]; every call leaves [max] at
    its default, 24.  The ellipsis is the single unit U+2026. *)
Definition truncate (text : JsString) (max : Z) : JsString :=
  if (Z.of_nat (List.length text) <=? max)%Z then text
  else Array_slice0 text (Finite (inject_Z (max - 1))) ++ [8230%N].

(** A natural number as a JavaScript number. *)
Definition nat_number (n : nat) : JsNumber := Finite (inject_Z (Z.of_nat n)).

(** [n || alt] for numbers: [0] and [NaN] are falsy. *)
Definition number_or (n alt : JsNumber) : JsNumber :=
  if truthy (JNum n) then n else alt.

(** [a > b]. *)
Definition Number_gt (a b : JsNumber) : bool :=
  match a, b with
  | NaN, _ | _, NaN => false
  | Finite x, Finite y => negb (Qle_bool x y)
  | PosInf, PosInf => false
  | PosInf, _ => true
  | NegInf, _ => false
  | Finite _, NegInf => true
  | Finite _, PosInf => false
  end.

Module ChartType.
Inductive t : Type := bar | column | donut | treemap | table.
End ChartType.

Module Palette.
Inductive t : Type := indigo | emerald | slate.
End Palette.

Definition paletteMap (p : Palette.t) : list JsString :=
  match p with
  | Palette.indigo =>
      [str "#312e81"; str "#4338ca"; str "#6366f1"; str "#818cf8"; str "#c7d2fe"]
  | Palette.emerald =>
      [str "#064e3b"; str "#047857"; str "#10b981"; str "#34d399"; str "#a7f3d0"]
  | Palette.slate =>
      [str "#0f172a"; str "#1e293b"; str "#475569"; str "#94a3b8"; str "#cbd5e1"]
  end.

(** ChartControls.tsx, [ChartControlState]. *)
Module Controls.
Record t : Type := {
  chartType : ChartType.t;
  topN : JsNumber;
  sortBy : SortBy;
  showLabels : bool;
  palette : Palette.t;
  rowsToDisplay : JsNumber
}.
End Controls.

(** Bars over the two largest rows, one row in the data table. *)
Definition top_two_controls : Controls.t :=
  {| Controls.chartType := ChartType.bar; Controls.topN := Finite (inject_Z 2);
     Controls.sortBy := value_desc; Controls.showLabels := false;
     Controls.palette := Palette.indigo;
     Controls.rowsToDisplay := Finite (inject_Z 1) |}.

(** What [renderChart] returns: one of its two notices, a chart, or nothing
    ([NoChart], the [null] of the [default] case).  A bar chart is laid out
    with horizontal bars for [bar] ([layout="vertical"] in the charting
    library) and with vertical bars for [column]. *)
Inductive ChartView : Type :=
| NoNumericNotice
| TableModeNotice
| BarChartView (horizontalBars : bool) (data : list JsObject)
    (categoryKey valueKey : JsString) (fill : option JsString) (labels : bool)
| PieChartView (data : list JsObject) (dataKey nameKey : JsString)
    (cellFills : list (option JsString))
| TreemapView (data : list JsObject) (dataKey nameKey : JsString)
    (colors : list JsString)
| NoChart.

(** SqlResultVisualizer.tsx, [renderChart]. *)
Definition renderChart (chartType : ChartType.t) (xKey yKey : option JsString)
  (chartData : list JsObject) (colors : list JsString) (showLabels : bool)
  : ChartView :=
  let noNumeric := key_falsy yKey || Nat.eqb (List.length chartData) 0 in
  let isTable := match chartType with ChartType.table => true | _ => false end in
  if isTable || noNumeric then
    if noNumeric && negb isTable then NoNumericNotice else TableModeNotice
  else
    match chartType with
    | ChartType.bar =>
        BarChartView true chartData (nullish_or xKey []) (nullish_or yKey [])
                     (nth_error colors 2) showLabels
    | ChartType.column =>
        BarChartView false chartData (nullish_or xKey []) (nullish_or yKey [])
                     (nth_error colors 2) showLabels
    | ChartType.donut =>
        PieChartView chartData (nullish_or yKey []) (nullish_or xKey [])
                     (map (fun idx => nth_error colors (idx mod List.length colors))
                          (seq 0 (List.length chartData)))
    | ChartType.treemap =>
        TreemapView chartData (nullish_or yKey []) (nullish_or xKey []) colors
    | ChartType.table => NoChart
    end.

(** The data table of the component: its header, its cells, and the counts
    and the notice under it. *)
Record TableView : Type := {
  chart : ChartView;
  header : list JsString;
  body : list (list JsString);
  shown : nat;
  total : nat;
  moreNotice : bool
}.

Inductive VisualizerView : Type :=
| NoTabularData
| Visualized (view : TableView).

(** The chart sample: [sortedRows.slice(0, controls.topN || sortedRows.length)]. *)
Definition sampleRows (sortedRows : list JsObject) (topN : JsNumber) : list JsObject :=
  Array_slice0 sortedRows (number_or topN (nat_number (List.length sortedRows))).

(** The rows of the data table: [sortedRows.slice(0, controls.rowsToDisplay || 25)]. *)
Definition displayRows (sortedRows : list JsObject) (rowsToDisplay : JsNumber)
  : list JsObject :=
  Array_slice0 sortedRows (number_or rowsToDisplay (Finite 25)).

Section Visualizer.
Variable argument_limit : N.
Variable Finite_toString : Q -> JsString.
Variable StringToNumber : JsString -> JsNumber.
Variable localeCompare : JsString -> JsString -> Z.
(** [JSON.stringify] on an array or an object. *)
Variable JSON_stringify : JsValue -> completion JsString.

(** SqlResultVisualizer.tsx, [formatCell]. *)
Definition formatCell (value : JsValue) : completion JsString :=
  match value with
  | JNull => Normal (str "null")
  | JUndefined => Normal (str "-")
  | JStr s => Normal s
  | JNum _ => ToString Finite_toString value
  | JBool b => Normal (if b then str "true" else str "false")
  | JArr _ | JObj _ =>
      match JSON_stringify value with
      | Normal s => Normal s
      | Throw _ => ToString Finite_toString value
      end
  end.

(** SqlResultVisualizer.tsx, the component [SqlResultVisualizer]. *)
Definition SqlResultVisualizer (data : JsValue) (controls : Controls.t)
  : completion VisualizerView :=
  table <- normalizeSqlResult argument_limit data ;;
  match table with
  | None => Normal NoTabularData
  | Some table =>
      sortedRows <- sortRows Finite_toString StringToNumber localeCompare
                             table.(rows) controls.(Controls.sortBy) ;;
      let slicedRows := sampleRows sortedRows controls.(Controls.topN) in
      let columns := table.(columns) in
      picked <- pickChart Finite_toString StringToNumber columns slicedRows ;;
      let colors := paletteMap controls.(Controls.palette) in
      let rowsToDisplay := number_or controls.(Controls.rowsToDisplay) (Finite 25) in
      let displayedRows := displayRows sortedRows controls.(Controls.rowsToDisplay) in
      let chart := renderChart controls.(Controls.chartType)
                     picked.(Chart.xKey) picked.(Chart.yKey) picked.(Chart.chartData)
                     colors controls.(Controls.showLabels) in
      body <- Array_map
                (fun r => Array_map (fun c => formatCell (obj_read r c)) columns)
                displayedRows ;;
      Normal (Visualized
        {| chart := chart;
           header := columns;
           body := body;
           shown := List.length displayedRows;
           total := List.length sortedRows;
           moreNotice := Number_gt (nat_number (List.length sortedRows)) rowsToDisplay |})
  end.
End Visualizer.

(* ================================================================== *)
(** ** app/chat/page.tsx: what the page hands to the visualiser *)

(** The two fields of [GraphState] the page reads for the visualiser;
    [sql_result] is [JUndefined] when the field is missing. *)
Record GraphState : Type := {
  sql_result : JsValue;
  final_response : option JsString
}.

(** page.tsx, [pickDataForViz]. *)
Definition pickDataForViz (state : option GraphState) : JsValue :=
  match state with
  | None => JNull
  | Some st =>
      if truthy st.(sql_result) then st.(sql_result)
      else match st.(final_response) with
           | Some (c :: text) => JStr (c :: text)
           | _ => JNull
           end
  end.

(** page.tsx, [getRowCount]. *)
Definition getRowCount (data : JsValue) : nat :=
  match data with
  | JArr items => List.length items
  | JStr text =>
      match JSON_parse text with
      | Normal (JArr parsed) => List.length parsed
      | Normal _ => 0
      | Throw _ => 0
      end
  | _ => 0
  end.

(* ================================================================== *)
(** ** Specification-side definitions for the further properties *)

(** The elements of a list, each kept at its first occurrence. *)
Fixpoint first_occurrences (ks : list JsString) : list JsString :=
  match ks with
  | [] => []
  | k :: rest => k :: filter (fun k' => negb (String_eqb k k')) (first_occurrences rest)
  end.

(** A normalised table in the direct-table shape
    [{columns: [...], rows: [...]}]. *)
Definition table_value (t : NormalizedTable) : JsValue :=
  JObj [(str "columns", JArr (map JStr t.(columns)));
        (str "rows", JArr (map JObj t.(rows)))].

(** The value found in [v] along a path of property names. *)
Fixpoint json_path (v : JsValue) (path : list JsString) : option JsValue :=
  match path with
  | [] => Some v
  | k :: rest =>
      match v with
      | JObj props =>
          match obj_get props k with
          | Some v' => json_path v' rest
          | None => None
          end
      | _ => None
      end
  end.

(** The keys the spec generator works with: the ones given, else inferred. *)
Definition resolved_keys (table : NormalizedTable) (options : Options.t)
  : EncodingKeys :=
  let inferred := pickEncodingKeys table.(columns) table.(rows) in
  {| xKey := match options.(Options.xKey) with
             | Some k => Some k
             | None => inferred.(xKey)
             end;
     yKey := match options.(Options.yKey) with
             | Some k => Some k
             | None => inferred.(yKey)
             end |}.

(** The encoding channel that carries the category, and the one that
    carries the value, for each chart kind. *)
Definition category_channel (kind : JsString) : JsString :=
  if String_eqb kind (str "bar") then str "y"
  else if String_eqb kind (str "arc") then str "color"
  else str "x".

Definition value_channel (kind : JsString) : JsString :=
  if String_eqb kind (str "bar") then str "x"
  else if String_eqb kind (str "arc") then str "theta"
  else str "y".

(** Section 4.5, value coercion on emission: [null] and missing become
    [null], finite numbers and strings pass, anything else is rendered as a
    string. *)
Definition emitted (Finite_toString : Q -> JsString) (v : JsValue)
  : completion JsValue :=
  match v with
  | JUndefined | JNull => Normal JNull
  | JNum (Finite _) | JStr _ => Normal v
  | _ => s <- ToString Finite_toString v ;; Normal (JStr s)
  end.

(** The rows a spec embeds, once the generator is past its guards. *)
Definition embedded_rows (Finite_toString : Q -> JsString)
  (table : NormalizedTable) (options : Options.t)
  (x y : JsString) : completion (list JsValue) :=
  Array_map (fun r => out <- normalizeRow Finite_toString r table.(columns) x y ;;
                      Normal (JObj out))
            (Array_slice0 table.(rows) (nullish_or options.(Options.limit) (Finite 100))).

(** The row limit of the spec generator as a count: 100 when none is given. *)
Definition row_limit (n : option nat) : nat :=
  match n with Some k => k | None => 100 end.

(** A value a spec may carry in its data: [null], a finite number, a string. *)
Definition plain_value (v : JsValue) : bool :=
  match v with
  | JNull | JNum (Finite _) | JStr _ => true
  | _ => false
  end.

(** The order each [SortBy] asks for, on representative values and labels. *)
Definition in_order (localeCompare : JsString -> JsString -> Z)
  (sortBy : SortBy) (a b : JsObject) : Prop :=
  match sortBy with
  | value_desc => (representativeValue b <= representativeValue a)%Q
  | value_asc => (representativeValue a <= representativeValue b)%Q
  | label_asc =>
      (localeCompare (representativeLabel a) (representativeLabel b) <= 0)%Z
  | label_desc =>
      (localeCompare (representativeLabel b) (representativeLabel a) <= 0)%Z
  end.

(** A view that draws a chart, as opposed to one of the two notices. *)
Definition draws_chart (v : ChartView) : bool :=
  match v with
  | NoNumericNotice | TableModeNotice | NoChart => false
  | _ => true
  end.

(** The spec of [chart_sample] for the kind [arc]. *)
Definition arc_spec_sample : JsValue :=
  match sqlTableToVegaLiteSpec integer_toString chart_sample (only_kind (str "arc")) with
  | Normal (Some spec) => spec
  | _ => JNull
  end.

(** A table with the same column named twice. *)
Definition repeated_column_sample : JsValue :=
  JObj [(str "columns", JArr [JStr (str "a"); JStr (str "a")]);
        (str "rows", JArr [JObj [(str "a", num 1)]])].

(* ================================================================== *)
(** ** Strings and objects: basic facts *)

Lemma isPlainObject_iff (v : JsValue) :
  isPlainObject v = true <-> exists props, v = JObj props.
Proof.
  destruct v; simpl; split; try discriminate; eauto; intros [? ?]; discriminate.
Qed.

Lemma String_eqb_eq (a b : JsString) : String_eqb a b = true <-> a = b.
Proof.
  revert b; induction a as [|x a IH]; intros [|y b]; simpl; split; intro H;
    try reflexivity; try discriminate.
  - apply andb_true_iff in H as [Hx Hab].
    apply N.eqb_eq in Hx. apply IH in Hab. congruence.
  - injection H as -> ->. rewrite N.eqb_refl. simpl. now apply IH.
Qed.

Lemma String_eqb_refl (a : JsString) : String_eqb a a = true.
Proof. now apply String_eqb_eq. Qed.

Lemma String_eqb_neq (a b : JsString) : String_eqb a b = false <-> a <> b.
Proof.
  split.
  - intros H E. apply String_eqb_eq in E. congruence.
  - intro H. destruct (String_eqb a b) eqn:E; [|reflexivity].
    apply String_eqb_eq in E. contradiction.
Qed.

Lemma String_eqb_sym (a b : JsString) : String_eqb a b = String_eqb b a.
Proof.
  destruct (String_eqb b a) eqn:E.
  - apply String_eqb_eq in E. subst. apply String_eqb_refl.
  - apply String_eqb_neq in E. apply String_eqb_neq. congruence.
Qed.

Lemma obj_get_none (o : JsObject) (k : JsString) :
  obj_get o k = None <-> ~ In k (obj_keys o).
Proof.
  induction o as [|[k' v] o IH]; simpl.
  - tauto.
  - destruct (String_eqb k' k) eqn:E.
    + apply String_eqb_eq in E. split; [discriminate | intro H; exfalso; auto].
    + apply String_eqb_neq in E. rewrite IH. tauto.
Qed.

Lemma obj_get_some_in (o : JsObject) (k : JsString) (v : JsValue) :
  obj_get o k = Some v -> In k (obj_keys o).
Proof.
  intro H. destruct (in_dec (list_eq_dec N.eq_dec) k (obj_keys o)) as [Hin|Hn];
    [exact Hin|]. apply obj_get_none in Hn. congruence.
Qed.

Lemma obj_keys_replace (o : JsObject) (k : JsString) (v : JsValue) :
  obj_keys (obj_replace o k v) = obj_keys o.
Proof.
  induction o as [|[k' v'] o IH]; simpl; [reflexivity|].
  destruct (String_eqb k' k); simpl; [reflexivity | now rewrite IH].
Qed.

Lemma obj_get_replace (o : JsObject) (k k' : JsString) (v : JsValue) :
  obj_get (obj_replace o k v) k' =
  if String_eqb k k' then
    match obj_get o k with Some _ => Some v | None => None end
  else obj_get o k'.
Proof.
  induction o as [|[k0 v0] o IH]; simpl.
  - now destruct (String_eqb k k').
  - destruct (String_eqb k0 k) eqn:E0; simpl.
    + apply String_eqb_eq in E0; subst k0.
      destruct (String_eqb k k'); reflexivity.
    + destruct (String_eqb k0 k') eqn:E1.
      * apply String_eqb_eq in E1; subst k0.
        apply String_eqb_neq in E0.
        assert (String_eqb k k' = false) as -> by (apply String_eqb_neq; congruence).
        reflexivity.
      * exact IH.
Qed.

Lemma obj_keys_insert_index (o : JsObject) (i : N) (k k' : JsString) (v : JsValue) :
  In k' (obj_keys (obj_insert_index o i k v)) <-> k' = k \/ In k' (obj_keys o).
Proof.
  induction o as [|[k0 v0] o IH]; simpl.
  - intuition.
  - destruct (array_index k0) as [j|]; [destruct (j <? i)%N|]; simpl;
      try rewrite IH; intuition.
Qed.

Lemma obj_get_insert_index (o : JsObject) (i : N) (k k' : JsString) (v : JsValue) :
  obj_get o k = None ->
  obj_get (obj_insert_index o i k v) k' =
  if String_eqb k k' then Some v else obj_get o k'.
Proof.
  induction o as [|[k0 v0] o IH]; simpl; intro Hk.
  - reflexivity.
  - destruct (String_eqb k0 k) eqn:E0; [discriminate|].
    destruct (array_index k0) as [j|]; [destruct (j <? i)%N|]; simpl;
      try reflexivity.
    rewrite (IH Hk). destruct (String_eqb k0 k') eqn:E1; [|reflexivity].
    apply String_eqb_eq in E1; subst k0.
    now rewrite String_eqb_sym, E0.
Qed.

Lemma obj_get_app (o1 o2 : JsObject) (k : JsString) :
  obj_get (o1 ++ o2) k =
  match obj_get o1 k with Some v => Some v | None => obj_get o2 k end.
Proof.
  induction o1 as [|[k0 v0] o1 IH]; simpl; [reflexivity|].
  destruct (String_eqb k0 k); [reflexivity | exact IH].
Qed.

(** Reading after [o[k] = v]. *)
Lemma obj_get_set (o : JsObject) (k k' : JsString) (v : JsValue) :
  obj_get (obj_set o k v) k' = if String_eqb k k' then Some v else obj_get o k'.
Proof.
  unfold obj_set, obj_has. destruct (obj_get o k) eqn:Hk.
  - rewrite obj_get_replace, Hk. reflexivity.
  - destruct (array_index k) as [i|].
    + now apply obj_get_insert_index.
    + rewrite obj_get_app. simpl. destruct (String_eqb k k') eqn:E.
      * apply String_eqb_eq in E; subst k'. now rewrite Hk.
      * now destruct (obj_get o k').
Qed.

(** The own keys after [o[k] = v]. *)
Lemma obj_keys_set (o : JsObject) (k k' : JsString) (v : JsValue) :
  In k' (obj_keys (obj_set o k v)) <-> k' = k \/ In k' (obj_keys o).
Proof.
  unfold obj_set, obj_has. destruct (obj_get o k) eqn:Hk.
  - rewrite obj_keys_replace. apply obj_get_some_in in Hk.
    split; [auto | intros [->|H]; assumption].
  - destruct (array_index k) as [i|].
    + apply obj_keys_insert_index.
    + unfold obj_keys. rewrite map_app, in_app_iff. simpl. intuition.
Qed.

(* ================================================================== *)
(** ** Rows rebuilt by [reduce] *)

Section RowBuilding.
Variable cell : JsString -> nat -> JsValue.

Let step (acc : JsObject) (c : JsString) (idx : nat) : JsObject :=
  obj_set acc c (cell c idx).

Lemma reduce_keys (cols : list JsString) (idx : nat) (acc : JsObject) (k : JsString) :
  In k (obj_keys (Array_reduce_from step cols idx acc)) <->
  In k cols \/ In k (obj_keys acc).
Proof.
  revert idx acc; induction cols as [|c cols IH]; intros idx acc; simpl.
  - tauto.
  - rewrite IH. unfold step. rewrite obj_keys_set. intuition.
Qed.

Lemma reduce_get_absent (cols : list JsString) (idx : nat) (acc : JsObject)
  (k : JsString) :
  ~ In k cols ->
  obj_get (Array_reduce_from step cols idx acc) k = obj_get acc k.
Proof.
  revert idx acc; induction cols as [|c cols IH]; intros idx acc Hk; simpl.
  - reflexivity.
  - rewrite IH by (intro; apply Hk; now right).
    unfold step. rewrite obj_get_set.
    assert (String_eqb c k = false) as ->; [|reflexivity].
    apply String_eqb_neq. intro; apply Hk; now left.
Qed.

(** A column met once receives the cell of its position. *)
Lemma reduce_get_at (cols : list JsString) (idx : nat) (acc : JsObject)
  (j : nat) (c : JsString) :
  NoDup cols -> nth_error cols j = Some c ->
  obj_get (Array_reduce_from step cols idx acc) c = Some (cell c (idx + j)).
Proof.
  revert idx acc j; induction cols as [|d cols IH]; intros idx acc j Hnd Hj.
  - destruct j; discriminate.
  - inversion Hnd as [|? ? Hd Hnd']; subst. destruct j as [|j]; simpl in *.
    + injection Hj as ->. rewrite reduce_get_absent by assumption.
      unfold step. rewrite obj_get_set, String_eqb_refl.
      now rewrite Nat.add_0_r.
    + rewrite (IH _ _ j Hnd' Hj). f_equal. f_equal. lia.
Qed.

(** When the cell does not depend on the position, repeated columns agree. *)
Lemma reduce_get_named (value : JsString -> JsValue) (cols : list JsString)
  (idx : nat) (acc : JsObject) (c : JsString) :
  (forall d i, cell d i = value d) ->
  In c cols \/ obj_get acc c = Some (value c) ->
  obj_get (Array_reduce_from step cols idx acc) c = Some (value c).
Proof.
  intro Hcell. revert idx acc; induction cols as [|d cols IH]; intros idx acc H; simpl.
  - destruct H as [[]|H]; exact H.
  - apply IH. unfold step. rewrite obj_get_set, Hcell.
    destruct (String_eqb d c) eqn:E.
    + apply String_eqb_eq in E; subst d. now right.
    + apply String_eqb_neq in E. destruct H as [[H|H]|H]; auto. contradiction.
Qed.
End RowBuilding.

Lemma row_keys (cell : JsString -> nat -> JsValue) (cols : list JsString) (k : JsString) :
  In k (obj_keys (Array_reduce (fun acc c idx => obj_set acc c (cell c idx)) cols []))
  <-> In k cols.
Proof.
  unfold Array_reduce. rewrite reduce_keys. simpl. tauto.
Qed.

Lemma row_get_named (value : JsString -> JsValue) (cols : list JsString) (c : JsString) :
  In c cols ->
  obj_get (Array_reduce (fun acc c _ => obj_set acc c (value c)) cols []) c
  = Some (value c).
Proof.
  intro H. unfold Array_reduce.
  apply (@reduce_get_named (fun d _ => value d) value cols 0 [] c); auto.
Qed.

Lemma row_get_at (cell : nat -> JsValue) (cols : list JsString) (j : nat) (c : JsString) :
  NoDup cols -> nth_error cols j = Some c ->
  obj_get (Array_reduce (fun acc c idx => obj_set acc c (cell idx)) cols []) c
  = Some (cell j).
Proof.
  intros Hnd Hj. unfold Array_reduce.
  apply (@reduce_get_at (fun _ i => cell i) cols 0 [] j c Hnd Hj).
Qed.

(** Columns that are distinct and not array indices are laid down in
    their own order. *)
Lemma reduce_keys_in_order (cell : JsString -> nat -> JsValue)
  (cols : list JsString) (idx : nat) (acc : JsObject) :
  NoDup (obj_keys acc ++ cols) ->
  Forall (fun c => array_index c = None) cols ->
  obj_keys (Array_reduce_from (fun acc c i => obj_set acc c (cell c i)) cols idx acc)
  = obj_keys acc ++ cols.
Proof.
  revert idx acc; induction cols as [|c cols IH]; intros idx acc Hnd Hplain; simpl.
  - now rewrite app_nil_r.
  - inversion Hplain as [|? ? Hc Hplain']; subst.
    assert (obj_set acc c (cell c idx) = acc ++ [(c, cell c idx)]) as ->.
    { unfold obj_set, obj_has.
      assert (obj_get acc c = None) as ->.
      { apply obj_get_none. intro Hin. apply NoDup_remove_2 in Hnd.
        apply Hnd. apply in_or_app. now left. }
      now rewrite Hc. }
    rewrite IH; [| |assumption]; unfold obj_keys; rewrite map_app; simpl;
      rewrite <- app_assoc; [reflexivity | exact Hnd].
Qed.

Lemma row_keys_in_order (cell : JsString -> nat -> JsValue) (cols : list JsString) :
  NoDup cols ->
  Forall (fun c => array_index c = None) cols ->
  obj_keys (Array_reduce (fun acc c i => obj_set acc c (cell c i)) cols []) = cols.
Proof.
  intros Hnd Hplain. unfold Array_reduce.
  now rewrite reduce_keys_in_order.
Qed.

(* ================================================================== *)
(** ** The recursion of [normalizeSqlResult] *)

Lemma normalizeSqlResult_body_array (argument_limit : N)
  (f g : JsValue -> completion (option NormalizedTable)) (items : list JsValue) :
  normalizeSqlResult_body argument_limit f (JArr items) =
  normalizeSqlResult_body argument_limit g (JArr items).
Proof.
  unfold normalizeSqlResult_body. simpl.
  destruct items as [|[] ?]; reflexivity.
Qed.

Lemma normalizeSqlResult_body_ext (argument_limit : N)
  (f g : JsValue -> completion (option NormalizedTable)) (raw : JsValue) :
  (forall items, f (JArr items) = g (JArr items)) ->
  normalizeSqlResult_body argument_limit f raw =
  normalizeSqlResult_body argument_limit g raw.
Proof.
  intro H. unfold normalizeSqlResult_body.
  destruct raw; try reflexivity.
  destruct (negb (truthy (JStr s))); [reflexivity|]. cbv zeta.
  destruct (tryParseJsonArray s); [apply H | reflexivity].
Qed.

(** [normalizeSqlResult] satisfies the recursive equation the source states. *)
Lemma normalizeSqlResult_unfold (argument_limit : N) (raw : JsValue) :
  normalizeSqlResult argument_limit raw =
  normalizeSqlResult_body argument_limit (normalizeSqlResult argument_limit) raw.
Proof.
  unfold normalizeSqlResult at 1.
  apply normalizeSqlResult_body_ext. intro items.
  unfold normalizeSqlResult. apply normalizeSqlResult_body_array.
Qed.

Lemma normalizeSqlResult_string (argument_limit : N) (text : JsString) :
  normalizeSqlResult argument_limit (JStr text) =
  match tryParseJsonArray text with
  | Some parsed => normalizeSqlResult argument_limit (JArr parsed)
  | None => Normal None
  end.
Proof.
  rewrite normalizeSqlResult_unfold. unfold normalizeSqlResult_body.
  destruct text as [|c text]; simpl; reflexivity.
Qed.

Lemma normalizeSqlResult_array (argument_limit : N) (items : list JsValue) :
  normalizeSqlResult argument_limit (JArr items) =
  match items with
  | [] => Normal (Some {| columns := []; rows := [] |})
  | JObj _ :: _ =>
      columns <- unionObjectKeys items ;;
      Normal (Some {| columns := columns;
                      rows := map (fun r =>
                                     Array_reduce
                                       (fun acc c _ => obj_set acc c (get_member r c))
                                       columns [])
                                  items |})
  | JArr _ :: _ =>
      maxLen <- Math_max_spread argument_limit (map tuple_length items) ;;
      Normal (Some {| columns := tuple_columns maxLen;
                      rows := map (fun r =>
                                     Array_reduce
                                       (fun acc c idx =>
                                          obj_set acc c (nth idx (tuple_items r) JUndefined))
                                       (tuple_columns maxLen) [])
                                  items |})
  | _ => Normal None
  end.
Proof.
  unfold normalizeSqlResult, normalizeSqlResult_body.
  destruct items as [|[] ?]; reflexivity.
Qed.

Lemma normalizeSqlResult_object (argument_limit : N) (obj : JsObject) :
  normalizeSqlResult argument_limit (JObj obj) =
  match obj_read obj (str "columns"), obj_read obj (str "rows") with
  | JArr cs, JArr rowsArray =>
      if forallb typeof_string cs then
        Normal (Some {| columns := as_strings cs;
                        rows := map (fun r =>
                                       let rowObj := match r with JObj o => o | _ => [] end in
                                       Array_reduce
                                         (fun acc c _ => obj_set acc c (obj_read rowObj c))
                                         (as_strings cs) [])
                                    rowsArray |})
      else Normal None
  | _, _ => Normal None
  end.
Proof.
  unfold normalizeSqlResult, normalizeSqlResult_body. cbn [truthy negb].
  destruct (obj_read obj (str "columns")); try reflexivity.
  destruct (obj_read obj (str "rows")); try reflexivity.
  destruct (forallb typeof_string items); reflexivity.
Qed.

(** A value that is neither an array, an object nor a non-empty string
    normalises to [null]. *)
Lemma normalizeSqlResult_scalar (argument_limit : N) (raw : JsValue) :
  match raw with JStr _ | JArr _ | JObj _ => False | _ => True end ->
  normalizeSqlResult argument_limit raw = Normal None.
Proof.
  unfold normalizeSqlResult, normalizeSqlResult_body.
  destruct raw; try contradiction; intros _; try reflexivity.
  - destruct b; reflexivity.
  - destruct (negb (truthy (JNum n))); reflexivity.
Qed.

(** The spread call of the tuple branch. *)
Lemma Math_max_spread_fits (argument_limit : N) (xs : list nat) :
  (N.of_nat (List.length xs) <= argument_limit)%N ->
  Math_max_spread argument_limit xs = Normal (list_max xs).
Proof.
  intro H. unfold Math_max_spread. apply N.leb_le in H. now rewrite H.
Qed.

Lemma Math_max_spread_overflows (argument_limit : N) (xs : list nat) :
  (argument_limit < N.of_nat (List.length xs))%N ->
  Math_max_spread argument_limit xs = Throw RangeError.
Proof.
  intro H. unfold Math_max_spread. apply N.leb_gt in H. now rewrite H.
Qed.

Lemma Math_max_spread_cases (argument_limit : N) (xs : list nat) :
  (Math_max_spread argument_limit xs = Normal (list_max xs) /\
   (N.of_nat (List.length xs) <= argument_limit)%N) \/
  (Math_max_spread argument_limit xs = Throw RangeError /\
   (argument_limit < N.of_nat (List.length xs))%N).
Proof.
  destruct (N.le_gt_cases (N.of_nat (List.length xs)) argument_limit) as [H|H].
  - left. split; [now apply Math_max_spread_fits | exact H].
  - right. split; [now apply Math_max_spread_overflows | exact H].
Qed.

(* ================================================================== *)
(** ** Column names of tuple arrays *)

Lemma str_inj (a b : string) : str a = str b -> a = b.
Proof.
  revert b; induction a as [|x a IH]; intros [|y b] H; simpl in H;
    try discriminate; [reflexivity|].
  injection H as Hxy Hab. f_equal; [|now apply IH].
  rewrite <- (ascii_N_embedding x), <- (ascii_N_embedding y). now f_equal.
Qed.

Lemma decimal_inj (m n : N) : decimal m = decimal n -> m = n.
Proof.
  unfold decimal. intro H. apply str_inj in H.
  assert (Some (N.to_uint m) = Some (N.to_uint n)) as E
      by (rewrite <- !NilEmpty.usu; now f_equal).
  injection E as E.
  rewrite <- (DecimalN.Unsigned.of_to m), <- (DecimalN.Unsigned.of_to n).
  now f_equal.
Qed.

Lemma tuple_columns_NoDup (n : nat) : NoDup (tuple_columns n).
Proof.
  unfold tuple_columns. destruct (Nat.eqb n 2).
  - repeat constructor; simpl; intuition discriminate.
  - apply NoDup_map_NoDup_ForallPairs; [|apply seq_NoDup].
    intros i j _ _ H. apply app_inv_head in H. apply decimal_inj in H. lia.
Qed.



Lemma nth_or_undefined (l : list JsValue) (j : nat) :
  nth j l JUndefined = match nth_error l j with Some v => v | None => JUndefined end.
Proof.
  revert j; induction l as [|x l IH]; intros [|j]; simpl; auto.
Qed.

Lemma Forall2_map_right {A B : Type} (R : A -> B -> Prop) (f : A -> B) (l : list A) :
  (forall x, In x l -> R x (f x)) -> Forall2 R l (map f l).
Proof.
  induction l as [|x l IH]; intro H; simpl; constructor.
  - apply H. now left.
  - apply IH. intros y Hy. apply H. now right.
Qed.

(* ================================================================== *)
(** ** Rows of an accepted input *)

Lemma direct_rows_filled (cs rowsArray : list JsValue) :
  rows_filled
    {| columns := as_strings cs;
       rows := map (fun r =>
                      let rowObj := match r with JObj o => o | _ => [] end in
                      Array_reduce
                        (fun acc c _ => obj_set acc c (obj_read rowObj c))
                        (as_strings cs) [])
                   rowsArray |}
    DirectTable rowsArray.
Proof.
  unfold rows_filled. cbn [columns rows].
  apply Forall2_map_right. intros r _. split.
  - intro k. apply (row_keys (fun c _ => obj_read _ c)).
  - intros j c Hj. cbv zeta.
    rewrite (row_get_named (fun c => obj_read _ c))
      by (eapply nth_error_In; eauto).
    f_equal. unfold cell_or_undefined, source_cell, obj_read.
    destruct r; reflexivity.
Qed.

Lemma record_rows_filled (cols : list JsString) (items : list JsValue) :
  rows_filled
    {| columns := cols;
       rows := map (fun r =>
                      Array_reduce
                        (fun acc c _ => obj_set acc c (get_member r c)) cols [])
                   items |}
    RecordArray items.
Proof.
  unfold rows_filled. cbn [columns rows].
  apply Forall2_map_right. intros r _. split.
  - intro k. apply (row_keys (fun c _ => get_member r c)).
  - intros j c Hj.
    rewrite (row_get_named (fun c => get_member r c))
      by (eapply nth_error_In; eauto).
    reflexivity.
Qed.

Lemma tuple_rows_filled (n : nat) (items : list JsValue) :
  rows_filled
    {| columns := tuple_columns n;
       rows := map (fun r =>
                      Array_reduce
                        (fun acc c idx =>
                           obj_set acc c (nth idx (tuple_items r) JUndefined))
                        (tuple_columns n) [])
                   items |}
    TupleArray items.
Proof.
  unfold rows_filled. cbn [columns rows].
  apply Forall2_map_right. intros r _. split.
  - intro k. apply (row_keys (fun _ idx => nth idx (tuple_items r) JUndefined)).
  - intros j c Hj.
    rewrite (@row_get_at (fun idx => nth idx (tuple_items r) JUndefined)
               _ j c (tuple_columns_NoDup n) Hj).
    f_equal. apply nth_or_undefined.
Qed.

Lemma array_rows_filled (argument_limit : N) (items : list JsValue)
  (t : NormalizedTable) :
  normalizeSqlResult argument_limit (JArr items) = Normal (Some t) ->
  exists sh srcs, array_shape items = Some (sh, srcs) /\ rows_filled t sh srcs.
Proof.
  rewrite normalizeSqlResult_array. unfold array_shape.
  destruct items as [|first rest].
  - intro H. injection H as <-. exists EmptyArray, []. split; [reflexivity|].
    constructor.
  - destruct first; try discriminate.
    + destruct (Math_max_spread argument_limit _) as [maxLen|e]; simpl;
        [|discriminate].
      intro H. injection H as <-.
      eexists _, _. split; [reflexivity|]. apply tuple_rows_filled.
    + destruct (unionObjectKeys (JObj props :: rest)) as [cols|e]; simpl;
        [|discriminate].
      intro H. injection H as <-.
      eexists _, _. split; [reflexivity|]. apply record_rows_filled.
Qed.

(** Every accepted input fills its rows from its source rows. *)
Lemma accepted_rows_filled (argument_limit : N) (raw : JsValue)
  (t : NormalizedTable) :
  normalizeSqlResult argument_limit raw = Normal (Some t) ->
  exists sh srcs, accepted_shape raw = Some (sh, srcs) /\ rows_filled t sh srcs.
Proof.
  intro H. destruct raw as [| |b|n|s|items|props];
    try (rewrite normalizeSqlResult_scalar in H by exact I; discriminate).
  - rewrite normalizeSqlResult_string in H. unfold accepted_shape.
    destruct (tryParseJsonArray s) as [parsed|]; [|discriminate].
    now apply array_rows_filled in H.
  - now apply array_rows_filled in H.
  - rewrite normalizeSqlResult_object in H. unfold accepted_shape.
    destruct (obj_read props (str "columns")); try discriminate.
    destruct (obj_read props (str "rows")); try discriminate.
    destruct (forallb typeof_string items); [|discriminate].
    injection H as <-. eexists _, _. split; [reflexivity|].
    apply direct_rows_filled.
Qed.


(** [String.prototype.indexOf] returns the first position of the unit. *)
Lemma String_indexOf_none (text : JsString) (c : N) :
  ~ In c text -> String_indexOf text c = None.
Proof.
  induction text as [|x text IH]; simpl; intro H; [reflexivity|].
  destruct (N.eqb x c) eqn:E.
  - apply N.eqb_eq in E. exfalso. apply H. now left.
  - rewrite IH; [reflexivity|]. intro. apply H. now right.
Qed.

Lemma String_indexOf_first (text : JsString) (c : N) (start : nat) :
  nth_error text start = Some c ->
  (forall j, j < start -> nth_error text j <> Some c) ->
  String_indexOf text c = Some start.
Proof.
  revert start; induction text as [|x text IH]; intros start Hs Hfirst.
  - destruct start; discriminate.
  - simpl. destruct start as [|start]; simpl in Hs.
    + injection Hs as ->. now rewrite N.eqb_refl.
    + destruct (N.eqb x c) eqn:E.
      * apply N.eqb_eq in E. subst x.
        exfalso. apply (Hfirst 0); [lia | reflexivity].
      * rewrite (IH start Hs); [reflexivity|].
        intros j Hj. apply (Hfirst (S j)). lia.
Qed.

(* ================================================================== *)
(** ** Properties of the table normaliser *)

(** C1, with [undefined] where the specification says [null], for tables
    read by own properties: for every accepted input whose columns bear no
    name that objects inherit ([constructor], [__proto__], ...) and whose
    record-array elements are objects, every row of the normalised table
    has exactly the columns of the table as its keys, and holds under each
    column the cell of its source row, [undefined] where the source row has
    none; [{columns:["a","b"], rows:[{a:1}]}] normalises to the rows
    [[{a:1, b:undefined}]]. *)
Theorem normalized_rows_cover_columns :
  (forall argument_limit raw t,
      normalizeSqlResult argument_limit raw = Normal (Some t) ->
      own_columns t.(columns) ->
      plain_records raw = true ->
      Forall (fun row => forall k, In k (obj_keys row) <-> In k t.(columns)) t.(rows) /\
      exists sh srcs, accepted_shape raw = Some (sh, srcs) /\ rows_filled t sh srcs) /\
  (forall argument_limit,
      normalizeSqlResult argument_limit direct_sample =
      Normal (Some {| columns := [str "a"; str "b"];
                      rows := [[(str "a", num 1); (str "b", JUndefined)]] |})).
Proof.
  split; [|reflexivity].
  intros argument_limit raw t H _ _.
  apply accepted_rows_filled in H as Hfilled.
  split; [|exact Hfilled].
  destruct Hfilled as (sh & srcs & _ & Hrows). unfold rows_filled in Hrows.
  induction Hrows as [|src row srcs' rows' [Hkeys _] _ IH]; constructor; assumption.
Qed.

Lemma normalized_rows_cover_columns_witness :
  Forall (fun row => forall k, In k (obj_keys row) <-> In k [str "a"; str "b"])
         [[(str "a", num 1); (str "b", JUndefined)]] /\
  exists sh srcs,
    accepted_shape direct_sample = Some (sh, srcs) /\
    rows_filled {| columns := [str "a"; str "b"];
                   rows := [[(str "a", num 1); (str "b", JUndefined)]] |} sh srcs.
Proof.
  apply (proj1 normalized_rows_cover_columns sample_argument_limit direct_sample
               {| columns := [str "a"; str "b"];
                  rows := [[(str "a", num 1); (str "b", JUndefined)]] |}).
  - reflexivity.
  - repeat constructor.
  - reflexivity.
Defined.

(** C1 does not hold with [null]: the column [b], absent from the source
    row, is bound to [undefined], so the row is not [{a:1, b:null}]. *)
Lemma direct_sample_fills_undefined :
  normalizeSqlResult sample_argument_limit direct_sample =
  Normal (Some {| columns := [str "a"; str "b"];
                  rows := [[(str "a", num 1); (str "b", JUndefined)]] |}) /\
  normalizeSqlResult sample_argument_limit direct_sample <>
  Normal (Some {| columns := [str "a"; str "b"];
                  rows := [[(str "a", num 1); (str "b", JNull)]] |}).
Proof.
  split; [reflexivity | discriminate].
Qed.

(** C3: on the JSON value [[{a:1}, null]] the normaliser throws a
    [TypeError] ([Object.keys(null)] inside [unionObjectKeys]), whether the
    value arrives as such or encoded in a string. *)
Theorem normalize_throws_on_null_record (argument_limit : N) :
  normalizeSqlResult argument_limit null_record_sample = Throw TypeError /\
  normalizeSqlResult argument_limit (JStr (json_text "rows: [{'a':1}, null]"))
  = Throw TypeError.
Proof.
  split; reflexivity.
Qed.

(** C4: the empty array normalises to the valid empty table; [null], any
    number and any boolean normalise to [null]; the two results differ. *)
Theorem empty_array_is_not_unsupported (argument_limit : N) :
  normalizeSqlResult argument_limit (JArr []) =
    Normal (Some {| columns := []; rows := [] |}) /\
  normalizeSqlResult argument_limit JNull = Normal None /\
  (forall n, normalizeSqlResult argument_limit (JNum n) = Normal None) /\
  (forall b, normalizeSqlResult argument_limit (JBool b) = Normal None) /\
  normalizeSqlResult argument_limit (JArr []) <> normalizeSqlResult argument_limit JNull.
Proof.
  repeat split; try reflexivity; try discriminate.
  - intro n. now apply normalizeSqlResult_scalar.
  - intro b. now apply normalizeSqlResult_scalar.
Qed.




(** C8: a string without an opening bracket normalises to [null]; otherwise
    the text from the first bracket on is parsed; a parse that throws or that
    yields no array gives [null], and a parsed array is normalised in place
    of the string; ["prefix [1,2,3] suffix"] gives [null]. *)
Theorem encoded_string_rules (argument_limit : N) :
  (forall text, ~ In 91%N text ->
                normalizeSqlResult argument_limit (JStr text) = Normal None) /\
  (forall text start,
      nth_error text start = Some 91%N ->
      (forall j, j < start -> nth_error text j <> Some 91%N) ->
      match JSON_parse (skipn start text) with
      | Normal (JArr parsed) =>
          normalizeSqlResult argument_limit (JStr text) =
          normalizeSqlResult argument_limit (JArr parsed)
      | Normal _ | Throw _ => normalizeSqlResult argument_limit (JStr text) = Normal None
      end) /\
  normalizeSqlResult argument_limit (JStr (str "prefix [1,2,3] suffix")) = Normal None.
Proof.
  split; [|split].
  - intros text H. rewrite normalizeSqlResult_string. unfold tryParseJsonArray.
    now rewrite String_indexOf_none.
  - intros text start Hs Hfirst. rewrite normalizeSqlResult_string.
    unfold tryParseJsonArray. rewrite (String_indexOf_first _ Hs Hfirst).
    unfold String_slice.
    destruct (JSON_parse (skipn start text)) as [[]|]; reflexivity.
  - vm_compute. reflexivity.
Qed.

Lemma encoded_string_rules_witness :
  normalizeSqlResult sample_argument_limit (JStr (json_text "rows [['x',1],['y',2]]")) =
  normalizeSqlResult sample_argument_limit
    (JArr [JArr [JStr (str "x"); num 1]; JArr [JStr (str "y"); num 2]]).
Proof.
  exact (proj1 (proj2 (encoded_string_rules sample_argument_limit))
           (json_text "rows [['x',1],['y',2]]") 5 eq_refl
           (fun j Hj => ltac:(do 5 (destruct j as [|j]; [discriminate|]); lia))).
Defined.

(* ================================================================== *)
(** ** Conversions and callbacks that can throw *)

(** Induction on values through the elements of arrays. *)
Lemma JsValue_induction (P : JsValue -> Prop) :
  P JUndefined -> P JNull -> (forall b, P (JBool b)) -> (forall n, P (JNum n)) ->
  (forall s, P (JStr s)) ->
  (forall items, Forall P items -> P (JArr items)) ->
  (forall props, P (JObj props)) ->
  forall v, P v.
Proof.
  intros Hu Hn Hb Hnum Hs Harr Hobj. fix IH 1.
  intros [| |b|n|s|items|props];
    [exact Hu | exact Hn | apply Hb | apply Hnum | apply Hs | | apply Hobj].
  apply Harr. revert items. fix IHitems 1.
  intros [|x xs]; constructor; [apply IH | apply IHitems].
Qed.

Lemma Array_map_normal (A B : Type) (f : A -> completion B) (xs : list A)
  (ys : list B) :
  Array_map f xs = Normal ys <-> Forall2 (fun x y => f x = Normal y) xs ys.
Proof.
  revert ys; induction xs as [|x xs IH]; intro ys; simpl.
  - split.
    + intro H. injection H as <-. constructor.
    + intro H. now inversion H.
  - split.
    + destruct (f x) as [y|e] eqn:Ex; simpl; [|discriminate].
      destruct (Array_map f xs) as [ys'|e] eqn:Exs; simpl; [|discriminate].
      intro H. injection H as <-. constructor; [exact Ex | now apply IH].
    + intro H. inversion H as [|? y ? ys' Hy Hys]; subst.
      rewrite Hy. simpl. apply IH in Hys. rewrite Hys. reflexivity.
Qed.

Lemma Array_map_throw (A B : Type) (f : A -> completion B) (xs : list A)
  (e : JsError) :
  Array_map f xs = Throw e -> Exists (fun x => f x = Throw e) xs.
Proof.
  induction xs as [|x xs IH]; simpl; [discriminate|].
  destruct (f x) as [y|e'] eqn:Ex; simpl.
  - destruct (Array_map f xs) as [ys|e'] eqn:Exs; simpl; [discriminate|].
    intro H. injection H as ->. apply Exists_cons_tl. now apply IH.
  - intro H. injection H as ->. now apply Exists_cons_hd.
Qed.

Lemma Array_map_returns (A B : Type) (f : A -> completion B) (xs : list A) :
  Forall (fun x => exists y, f x = Normal y) xs ->
  exists ys, Array_map f xs = Normal ys.
Proof.
  induction 1 as [|x xs [y Hy] _ [ys Hys]]; simpl.
  - now exists [].
  - rewrite Hy, Hys. simpl. now eexists.
Qed.

Lemma Array_map_pure (A B : Type) (f : A -> completion B) (g : A -> B)
  (xs : list A) :
  (forall x, In x xs -> f x = Normal (g x)) ->
  Array_map f xs = Normal (map g xs).
Proof.
  induction xs as [|x xs IH]; intro H; simpl; [reflexivity|].
  rewrite (H x) by now left. simpl.
  rewrite IH by (intros y Hy; apply H; now right). reflexivity.
Qed.

Lemma Array_map_length (A B : Type) (f : A -> completion B) (xs : list A)
  (ys : list B) :
  Array_map f xs = Normal ys -> List.length ys = List.length xs.
Proof.
  intro H. apply Array_map_normal in H. symmetry. eapply Forall2_length; eauto.
Qed.

Lemma Array_map_fails (A B : Type) (f : A -> completion B) (xs : list A) :
  (forall x e, f x = Throw e -> e = TypeError) ->
  Exists (fun x => f x = Throw TypeError) xs ->
  Array_map f xs = Throw TypeError.
Proof.
  intros Honly H. induction H as [x xs Hx | x xs _ IH]; simpl.
  - now rewrite Hx.
  - destruct (f x) as [y|e] eqn:E; simpl.
    + now rewrite IH.
    + now rewrite (Honly x e E).
Qed.
Section ConversionFacts.
Variable Finite_toString : Q -> JsString.
Variable StringToNumber : JsString -> JsNumber.

Lemma Array_join_cases (render : JsValue -> completion JsString) (xs : list JsValue) :
  Forall (fun x => (coerces x = true /\ exists s, render x = Normal s) \/
                   (coerces x = false /\ render x = Throw TypeError)) xs ->
  (forallb coerces xs = true /\ exists s, Array_join render xs = Normal s) \/
  (forallb coerces xs = false /\ Array_join render xs = Throw TypeError).
Proof.
  induction 1 as [|x xs Hx _ IH]; [left; split; [reflexivity | now eexists]|].
  cbn [forallb Array_join].
  destruct Hx as [[Hc [s Hs]] | [Hc Ht]]; rewrite Hc; cbn [andb].
  - assert (exists piece,
               match x with
               | JUndefined | JNull => Normal []
               | _ => render x
               end = Normal piece) as [piece ->].
    { destruct x; rewrite ?Hs; eauto. }
    cbn [bind]. destruct xs as [|y ys].
    + left. split; [reflexivity | now eexists].
    + destruct IH as [[Hall [tail ->]] | [Hall ->]]; [left | right];
        (split; [exact Hall|]); [now eexists | reflexivity].
  - right. split; [reflexivity|].
    destruct x; try discriminate; now rewrite Ht.
Qed.

(** [String(v)] returns exactly on the values that [coerces] accepts, and
    throws a [TypeError] on the others. *)
Lemma ToString_cases (v : JsValue) :
  (coerces v = true /\ exists s, ToString Finite_toString v = Normal s) \/
  (coerces v = false /\ ToString Finite_toString v = Throw TypeError).
Proof.
  induction v as [| |b|n|s|items IH|props] using JsValue_induction;
    try (left; split; [reflexivity | now eexists]).
  - left. split; [reflexivity|]. destruct b; now eexists.
  - left. split; [reflexivity|]. destruct n; now eexists.
  - cbn [ToString coerces]. now apply Array_join_cases.
  - cbn [ToString coerces]. destruct (obj_has props (str "toString")).
    + right. split; reflexivity.
    + left. split; [reflexivity | now eexists].
Qed.

Lemma ToString_returns (v : JsValue) :
  coerces v = true -> exists s, ToString Finite_toString v = Normal s.
Proof.
  intro H. destruct (ToString_cases v) as [[_ Hs] | [Hc _]]; [exact Hs | congruence].
Qed.

Lemma ToString_throws (v : JsValue) (e : JsError) :
  ToString Finite_toString v = Throw e -> e = TypeError /\ coerces v = false.
Proof.
  intro H. destruct (ToString_cases v) as [[_ [s Hs]] | [Hc Ht]]; [congruence|].
  split; [congruence | exact Hc].
Qed.

Lemma ToNumber_returns (v : JsValue) :
  coerces v = true -> exists n, ToNumber Finite_toString StringToNumber v = Normal n.
Proof.
  intro H. destruct v; try (now eexists).
  - destruct (ToString_returns _ H) as [s Hs]. unfold ToNumber. rewrite Hs. now eexists.
  - destruct (ToString_returns _ H) as [s Hs]. unfold ToNumber. rewrite Hs. now eexists.
Qed.

Lemma ToNumber_throws (v : JsValue) (e : JsError) :
  ToNumber Finite_toString StringToNumber v = Throw e ->
  e = TypeError /\ coerces v = false.
Proof.
  destruct v; try discriminate; unfold ToNumber;
    destruct (ToString Finite_toString _) as [s|e'] eqn:E; try discriminate;
    intro H; injection H as ->; now apply ToString_throws in E.
Qed.

(** The category a row is plotted under: the cell, or the empty string in
    place of [null] and [undefined]. *)
Lemma chart_entry_throws (x y : JsString) (r : JsObject) (e : JsError) :
  chart_entry Finite_toString StringToNumber x y r = Throw e ->
  e = TypeError /\ (coerces (obj_read r x) = false \/ coerces (obj_read r y) = false).
Proof.
  unfold chart_entry. cbv zeta.
  destruct (ToString Finite_toString _) as [label|e'] eqn:El; simpl.
  - destruct (ToNumber Finite_toString StringToNumber _) as [n|e'] eqn:En; simpl;
      [discriminate|].
    intro H. injection H as ->. apply ToNumber_throws in En as [-> Hc]. auto.
  - intro H. injection H as ->. apply ToString_throws in El as [-> Hc].
    split; [reflexivity|]. left. destruct (obj_read r x); try discriminate; exact Hc.
Qed.

Lemma chart_entry_returns (x y : JsString) (r : JsObject) :
  coerces (obj_read r x) = true -> coerces (obj_read r y) = true ->
  exists e, chart_entry Finite_toString StringToNumber x y r = Normal e.
Proof.
  intros Hx Hy. unfold chart_entry. cbv zeta.
  assert (exists label,
             ToString Finite_toString
               match obj_read r x with
               | JUndefined | JNull => JStr []
               | v => v
               end = Normal label) as [label ->].
  { destruct (obj_read r x); try (now eexists); now apply ToString_returns. }
  destruct (ToNumber_returns _ Hy) as [n ->]. simpl. now eexists.
Qed.

(** [pickChart] through the selection of [pickEncodingKeys]: with a key
    missing or empty nothing is plotted, otherwise the first 30 rows are. *)
Lemma pickChart_unfold (columns : list JsString) (rows : list JsObject) :
  pickChart Finite_toString StringToNumber columns rows =
  let keys := pickEncodingKeys columns rows in
  match keys.(xKey), keys.(yKey) with
  | Some (c :: x), Some (d :: y) =>
      chartData <- Array_map (chart_entry Finite_toString StringToNumber (c :: x) (d :: y))
                             (firstn 30 rows) ;;
      Normal {| Chart.xKey := keys.(xKey); Chart.yKey := keys.(yKey);
                Chart.chartData := chartData |}
  | _, _ =>
      Normal {| Chart.xKey := keys.(xKey); Chart.yKey := keys.(yKey);
                Chart.chartData := [] |}
  end.
Proof.
  unfold pickChart, pickEncodingKeys.
  destruct (Nat.eqb (List.length columns) 0 || Nat.eqb (List.length rows) 0);
    [reflexivity|].
  cbv zeta. cbn [xKey yKey].
  destruct (first_or (filter _ columns) (first_or columns None)) as [[|c x]|];
    destruct (first_or (filter _ columns) None) as [[|d y]|];
    reflexivity.
Qed.

(** [pickChart] repeats the selection of [pickEncodingKeys]; it throws only
    a [TypeError], and only while plotting under two keys it has selected. *)
Lemma pickChart_selects (columns : list JsString) (rows : list JsObject) :
  match pickChart Finite_toString StringToNumber columns rows with
  | Normal ch => chart_keys ch = pickEncodingKeys columns rows
  | Throw e =>
      e = TypeError /\
      key_falsy (pickEncodingKeys columns rows).(xKey) = false /\
      key_falsy (pickEncodingKeys columns rows).(yKey) = false
  end.
Proof.
  rewrite pickChart_unfold. cbv zeta.
  destruct (pickEncodingKeys columns rows) as [[[|c x]|] [[|d y]|]];
    cbn [xKey yKey]; try reflexivity.
  destruct (Array_map _ (firstn 30 rows)) as [data|e] eqn:E; simpl; [reflexivity|].
  apply Array_map_throw, Exists_exists in E as (r & _ & Hr).
  apply chart_entry_throws in Hr as [-> _]. repeat split.
Qed.

Lemma pickChart_keys (columns : list JsString) (rows : list JsObject) (ch : Chart.t) :
  pickChart Finite_toString StringToNumber columns rows = Normal ch ->
  chart_keys ch = pickEncodingKeys columns rows.
Proof.
  intro H. pose proof (pickChart_selects columns rows) as Hsel.
  now rewrite H in Hsel.
Qed.
End ConversionFacts.

(* ================================================================== *)
(** ** Encoding selection *)

Lemma numeric_column_iff (rows : list JsObject) (c : JsString) :
  existsb (fun r => isFiniteNumber (obj_read r c)) rows = true <->
  numeric_column rows c.
Proof. apply existsb_exists. Qed.

Lemma textual_column_iff (rows : list JsObject) (c : JsString) :
  existsb (fun r => typeof_string (obj_read r c)) rows = true <->
  textual_column rows c.
Proof. apply existsb_exists. Qed.

(** The head of a filtered list is the first element passing the filter. *)
Lemma filter_head_first (p : JsString -> bool) (P : JsString -> Prop)
  (xs : list JsString) (c : JsString) :
  (forall d, p d = true <-> P d) ->
  first_or (filter p xs) None = Some c <-> first_satisfying P xs c.
Proof.
  intro HpP. unfold first_satisfying.
  induction xs as [|x xs IH]; simpl.
  - split; [discriminate|]. intros (pre & post & E & _). now destruct pre.
  - destruct (p x) eqn:Ex; simpl.
    + split.
      * intro H. injection H as <-. exists [], xs.
        repeat split; [now apply HpP | constructor].
      * intros (pre & post & E & Hc & Hpre). destruct pre as [|d pre].
        -- simpl in E. congruence.
        -- simpl in E. injection E as <- _.
           inversion Hpre as [|? ? Hd _]; subst. apply HpP in Ex. contradiction.
    + rewrite IH. split.
      * intros (pre & post & -> & Hc & Hpre). exists (x :: pre), post.
        repeat split; [assumption|]. constructor; [|assumption].
        intro Hx. apply HpP in Hx. congruence.
      * intros (pre & post & E & Hc & Hpre). destruct pre as [|d pre].
        -- simpl in E. injection E as <- _. apply HpP in Hc. congruence.
        -- simpl in E. injection E as <- ->. exists pre, post.
           inversion Hpre; subst. auto.
Qed.

Lemma filter_none_passing (p : JsString -> bool) (xs : list JsString) :
  (forall d, In d xs -> p d = false) -> filter p xs = [].
Proof.
  induction xs as [|x xs IH]; intro H; simpl; [reflexivity|].
  rewrite (H x) by now left. apply IH. intros d Hd. apply H. now right.
Qed.

Lemma length_zero_iff (A : Type) (l : list A) :
  Nat.eqb (List.length l) 0 = true <-> l = [].
Proof. destruct l; simpl; split; congruence. Qed.

Lemma pickEncodingKeys_empty (columns : list JsString) (rows : list JsObject) :
  columns = [] \/ rows = [] ->
  pickEncodingKeys columns rows = {| xKey := None; yKey := None |}.
Proof.
  intro H. unfold pickEncodingKeys.
  assert (Nat.eqb (List.length columns) 0 || Nat.eqb (List.length rows) 0 = true) as ->;
    [|reflexivity].
  apply orb_true_iff. destruct H as [-> | ->]; auto.
Qed.

Lemma pickEncodingKeys_nonempty (columns : list JsString) (rows : list JsObject) :
  columns <> [] -> rows <> [] ->
  pickEncodingKeys columns rows =
  {| xKey := first_or
               (filter (fun c => existsb (fun r => typeof_string (obj_read r c)) rows)
                       columns)
               (first_or columns None);
     yKey := first_or
               (filter (fun c => existsb (fun r => isFiniteNumber (obj_read r c)) rows)
                       columns)
               None |}.
Proof.
  intros Hc Hr. unfold pickEncodingKeys.
  destruct columns; [contradiction|]. destruct rows; [contradiction|]. reflexivity.
Qed.

Lemma first_or_some (A : Type) (xs : list A) (alt : option A) (c : A) :
  first_or xs None = Some c -> first_or xs alt = Some c.
Proof. destruct xs; simpl; [discriminate | auto]. Qed.

(** C2: the declarative generator's selection ([pickEncodingKeys]) and the
    descriptor generator's ([pickChart]) return the same category and value
    keys on every table, and each is a function of the table alone.  Where
    [pickChart] throws instead of returning, it does so after the
    selection, under two usable keys. *)
Theorem encoding_selection_agrees (Finite_toString : Q -> JsString)
  (StringToNumber : JsString -> JsNumber)
  (columns : list JsString) (rows : list JsObject) :
  match pickChart Finite_toString StringToNumber columns rows with
  | Normal ch =>
      ch.(Chart.xKey) = (pickEncodingKeys columns rows).(xKey) /\
      ch.(Chart.yKey) = (pickEncodingKeys columns rows).(yKey)
  | Throw e =>
      e = TypeError /\
      key_falsy (pickEncodingKeys columns rows).(xKey) = false /\
      key_falsy (pickEncodingKeys columns rows).(yKey) = false
  end /\
  (forall columns' rows',
      columns' = columns -> rows' = rows ->
      pickEncodingKeys columns' rows' = pickEncodingKeys columns rows /\
      pickChart Finite_toString StringToNumber columns' rows' =
      pickChart Finite_toString StringToNumber columns rows).
Proof.
  pose proof (pickChart_selects Finite_toString StringToNumber columns rows) as H.
  split.
  - destruct (pickChart Finite_toString StringToNumber columns rows) as [ch|e];
      [|exact H].
    rewrite <- H. split; reflexivity.
  - intros columns' rows' -> ->. split; reflexivity.
Qed.

Lemma encoding_selection_agrees_witness :
  pickEncodingKeys [str "city"; str "total"]
                   [[(str "city", JStr (str "Hue")); (str "total", num 7)]] =
  pickEncodingKeys [str "city"; str "total"]
                   [[(str "city", JStr (str "Hue")); (str "total", num 7)]] /\
  pickChart integer_toString literal_toNumber [str "city"; str "total"]
            [[(str "city", JStr (str "Hue")); (str "total", num 7)]] =
  pickChart integer_toString literal_toNumber [str "city"; str "total"]
            [[(str "city", JStr (str "Hue")); (str "total", num 7)]].
Proof.
  exact (proj2 (encoding_selection_agrees integer_toString literal_toNumber
                  [str "city"; str "total"]
                  [[(str "city", JStr (str "Hue")); (str "total", num 7)]])
           _ _ eq_refl eq_refl).
Defined.

(** C5: the value key is the first column, in column order, holding a finite
    number in some row; the category key is the first column holding a
    string in some row, and the first column when no column holds one (also
    when that column is the value column); both keys are [null] when the
    columns or the rows are empty.  The same holds of [pickChart]. *)
Theorem encoding_keys_by_first_match (Finite_toString : Q -> JsString)
  (StringToNumber : JsString -> JsNumber)
  (columns : list JsString) (rows : list JsObject) :
  let keys := pickEncodingKeys columns rows in
  (forall ch, pickChart Finite_toString StringToNumber columns rows = Normal ch ->
              chart_keys ch = keys) /\
  (columns = [] \/ rows = [] -> keys = {| xKey := None; yKey := None |}) /\
  (forall c, keys.(yKey) = Some c <->
             first_satisfying (numeric_column rows) columns c) /\
  (forall c, first_satisfying (textual_column rows) columns c ->
             keys.(xKey) = Some c) /\
  (rows <> [] ->
   (forall c, In c columns -> ~ textual_column rows c) ->
   keys.(xKey) = hd_error columns).
Proof.
  cbv zeta. split; [apply pickChart_keys|].
  split; [apply pickEncodingKeys_empty|].
  destruct columns as [|c0 columns'] eqn:Ec.
  { rewrite pickEncodingKeys_empty by now left. simpl. repeat split.
    - discriminate.
    - intros (pre & post & E & _). now destruct pre.
    - intros c (pre & post & E & _). now destruct pre. }
  destruct rows as [|r0 rows'] eqn:Er.
  { rewrite pickEncodingKeys_empty by now right. simpl. repeat split.
    - discriminate.
    - intros (pre & post & _ & (r & [] & _) & _).
    - intros c (pre & post & _ & (r & [] & _) & _).
    - congruence. }
  rewrite <- Ec, <- Er.
  rewrite pickEncodingKeys_nonempty by (subst; discriminate).
  cbn [xKey yKey]. split; [|split].
  - intro c. apply filter_head_first. intro d. apply numeric_column_iff.
  - intros c Hc. apply first_or_some.
    apply (filter_head_first _ (textual_column rows)); [|exact Hc].
    intro d. apply textual_column_iff.
  - intros _ Hnone. rewrite filter_none_passing.
    + subst columns. reflexivity.
    + intros d Hd. specialize (Hnone d Hd).
      destruct (existsb _ rows) eqn:E; [|reflexivity].
      apply textual_column_iff in E. contradiction.
Qed.

Lemma encoding_keys_by_first_match_witness :
  (pickEncodingKeys [str "n"] [[(str "n", num 4)]]).(xKey) = Some (str "n") /\
  (pickEncodingKeys [str "n"] [[(str "n", num 4)]]).(yKey) = Some (str "n").
Proof.
  pose proof (encoding_keys_by_first_match integer_toString literal_toNumber
                [str "n"] [[(str "n", num 4)]]) as H.
  cbv zeta in H. destruct H as (_ & _ & Hy & _ & Hx). split.
  - apply Hx; [discriminate|].
    intros c [<-|[]] (r & [<-|[]] & Hr). discriminate.
  - apply Hy. exists [], []. repeat split; [|constructor].
    exists [(str "n", num 4)]. split; [now left | reflexivity].
Defined.

(** C10: on non-empty columns and rows the category key is never [null],
    for either selection; the value key can be. *)
Theorem category_key_never_null :
  (forall Finite_toString StringToNumber columns rows,
      columns <> [] -> rows <> [] ->
      (pickEncodingKeys columns rows).(xKey) <> None /\
      (forall ch, pickChart Finite_toString StringToNumber columns rows = Normal ch ->
                  ch.(Chart.xKey) <> None)) /\
  (exists columns rows,
      columns <> [] /\ rows <> [] /\ (pickEncodingKeys columns rows).(yKey) = None).
Proof.
  split.
  - intros FT STN columns rows Hc Hr.
    assert ((pickEncodingKeys columns rows).(xKey) <> None) as Hx.
    { rewrite pickEncodingKeys_nonempty by assumption. cbn [xKey].
      destruct (filter _ columns); simpl; [|discriminate].
      destruct columns; [contradiction | discriminate]. }
    split; [exact Hx|].
    intros ch Hch. apply pickChart_keys in Hch. rewrite <- Hch in Hx. exact Hx.
  - exists [str "city"], [[(str "city", JStr (str "Hue"))]].
    repeat split; discriminate.
Qed.

Lemma category_key_never_null_witness :
  (pickEncodingKeys [str "n"] [[(str "n", num 4)]]).(xKey) <> None /\
  (forall ch, pickChart integer_toString literal_toNumber
                [str "n"] [[(str "n", num 4)]] = Normal ch ->
              ch.(Chart.xKey) <> None).
Proof.
  apply (proj1 category_key_never_null); discriminate.
Defined.

(* ================================================================== *)
(** ** Sorting *)

Section SortFacts.
Context {A : Type} (compare : A -> A -> JsNumber).

Lemma stable_insert_perm (x : A) (s : list A) :
  Permutation (x :: s) (stable_insert compare x s).
Proof.
  induction s as [|y s IH]; simpl; [reflexivity|].
  destruct (sort_order (compare x y)); try reflexivity.
  rewrite perm_swap. now constructor.
Qed.

Lemma stable_sort_perm (l : list A) : Permutation l (stable_sort compare l).
Proof.
  induction l as [|x l IH]; simpl; [constructor|].
  rewrite <- stable_insert_perm. now constructor.
Qed.

(** Inserting [x] moves it past no element that passes a filter [x] passes,
    as long as the comparator never puts [x] after such an element. *)
Lemma stable_insert_filter (p : A -> bool) (x : A) (s : list A) :
  (forall y, p x = true -> p y = true -> sort_order (compare x y) <> Gt) ->
  filter p (stable_insert compare x s) = filter p (x :: s).
Proof.
  intro Hties. induction s as [|y s IH]; [reflexivity|].
  cbn [stable_insert]. destruct (sort_order (compare x y)) eqn:E; try reflexivity.
  cbn [filter] in *. rewrite IH.
  destruct (p x) eqn:Ex; [|reflexivity].
  destruct (p y) eqn:Ey; [|reflexivity].
  exfalso. now apply (Hties y).
Qed.

Lemma stable_sort_stable (p : A -> bool) (l : list A) :
  (forall x y, p x = true -> p y = true -> sort_order (compare x y) <> Gt) ->
  filter p (stable_sort compare l) = filter p l.
Proof.
  intro Hties. induction l as [|x l IH]; [reflexivity|].
  cbn [stable_sort]. rewrite stable_insert_filter by (intro y; apply Hties).
  cbn [filter]. now rewrite IH.
Qed.

(** The sort of the code is the stable sort whenever its comparator
    returns. *)
Lemma sort_insert_returns (compareFn : A -> A -> completion JsNumber)
  (x : A) (s : list A) :
  (forall a b, compareFn a b = Normal (compare a b)) ->
  sort_insert compareFn x s = Normal (stable_insert compare x s).
Proof.
  intro H. induction s as [|y s IH]; simpl; [reflexivity|].
  rewrite H. cbn [bind]. destruct (sort_order (compare x y)); try reflexivity.
  now rewrite IH.
Qed.

Lemma Array_sort_returns (compareFn : A -> A -> completion JsNumber) (l : list A) :
  (forall a b, compareFn a b = Normal (compare a b)) ->
  Array_sort compareFn l = Normal (stable_sort compare l).
Proof.
  intro H. induction l as [|x l IH]; simpl; [reflexivity|].
  rewrite IH. cbn [bind]. now apply sort_insert_returns.
Qed.

Variable le : A -> A -> Prop.
Hypothesis le_trans : forall a b c, le a b -> le b c -> le a c.
Hypothesis before_le : forall a b, sort_order (compare a b) <> Gt -> le a b.
Hypothesis after_le : forall a b, sort_order (compare a b) = Gt -> le b a.

Lemma stable_insert_Forall (P : A -> Prop) (x : A) (s : list A) :
  P x -> Forall P s -> Forall P (stable_insert compare x s).
Proof.
  intros Hx Hs. induction Hs as [|y s Hy Hs IH]; simpl.
  - now constructor.
  - destruct (sort_order (compare x y)); repeat constructor; assumption.
Qed.

Lemma stable_insert_sorted (x : A) (s : list A) :
  StronglySorted le s -> StronglySorted le (stable_insert compare x s).
Proof.
  intro Hs. induction Hs as [|y s Hs IH Hy]; simpl.
  - repeat constructor.
  - destruct (sort_order (compare x y)) eqn:E.
    + assert (le x y) as Hxy by (apply before_le; congruence).
      constructor; [now constructor|]. constructor; [assumption|].
      revert Hy. apply Forall_impl. intros z. now apply le_trans.
    + assert (le x y) as Hxy by (apply before_le; congruence).
      constructor; [now constructor|]. constructor; [assumption|].
      revert Hy. apply Forall_impl. intros z. now apply le_trans.
    + constructor; [assumption|].
      apply stable_insert_Forall; [now apply after_le | assumption].
Qed.

Lemma stable_sort_sorted (l : list A) : StronglySorted le (stable_sort compare l).
Proof.
  induction l as [|x l IH]; simpl; [constructor | now apply stable_insert_sorted].
Qed.
End SortFacts.

Section SortRowsFacts.
Variable Finite_toString : Q -> JsString.
Variable StringToNumber : JsString -> JsNumber.
Variable localeCompare : JsString -> JsString -> Z.

Lemma ToNumber_getVal (r : JsObject) :
  ToNumber Finite_toString StringToNumber (getVal r)
  = Normal (Finite (representativeValue r)).
Proof.
  unfold getVal, representativeValue.
  destruct (find isFiniteNumber (obj_values r)) as [v|] eqn:E; [|reflexivity].
  apply find_some in E as [_ Hv].
  destruct v as [| | | [] | | |]; try discriminate. reflexivity.
Qed.

Lemma ToString_getLabel (r : JsObject) :
  ToString Finite_toString (getLabel r) = Normal (representativeLabel r).
Proof.
  unfold getLabel, representativeLabel.
  destruct (find typeof_string (obj_values r)) as [v|] eqn:E; [|reflexivity].
  apply find_some in E as [_ Hv].
  destruct v; try discriminate. reflexivity.
Qed.

(** The comparator of [sortRows] never throws: it converts a finite number
    and a string. *)
Lemma compareRows_returns (sortBy : SortBy) (a b : JsObject) :
  compareRows Finite_toString StringToNumber localeCompare sortBy a b
  = Normal (compare_keys localeCompare sortBy a b).
Proof.
  unfold compareRows. rewrite !ToNumber_getVal, !ToString_getLabel. cbn [bind].
  destruct sortBy; reflexivity.
Qed.

(** [sortRows] returns the stable sorted arrangement of the rows. *)
Lemma sortRows_returns (rows : list JsObject) (sortBy : SortBy) :
  sortRows Finite_toString StringToNumber localeCompare rows sortBy
  = Normal (stable_sort (compare_keys localeCompare sortBy) rows).
Proof.
  unfold sortRows. apply Array_sort_returns. intros a b. apply compareRows_returns.
Qed.
End SortRowsFacts.

Lemma sort_order_difference (x y : Q) :
  sort_order (Number_sub (Finite x) (Finite y)) = Qcompare x y.
Proof.
  unfold Number_sub, sort_order. destruct (Qcompare x y) eqn:E.
  - apply Qeq_alt in E. apply Qeq_alt. lra.
  - apply Qlt_alt in E. apply (proj1 (Qlt_alt _ _)). lra.
  - apply Qgt_alt in E. apply (proj1 (Qgt_alt _ _)). lra.
Qed.

(** Rows with the same key never compare as out of order. *)
Lemma compare_keys_ties (localeCompare : JsString -> JsString -> Z)
  (sortBy : SortBy) (k a b : JsObject) :
  (forall s, localeCompare s s = 0%Z) ->
  same_key sortBy k a = true -> same_key sortBy k b = true ->
  sort_order (compare_keys localeCompare sortBy a b) <> Gt.
Proof.
  intros Hrefl Ha Hb. unfold compare_keys.
  destruct sortBy; simpl in Ha, Hb.
  - apply Qeq_bool_iff in Ha, Hb. rewrite sort_order_difference.
    assert (representativeValue b == representativeValue a)%Q as E by lra.
    apply Qeq_alt in E. congruence.
  - apply Qeq_bool_iff in Ha, Hb. rewrite sort_order_difference.
    assert (representativeValue a == representativeValue b)%Q as E by lra.
    apply Qeq_alt in E. congruence.
  - apply String_eqb_eq in Ha, Hb. rewrite <- Ha, <- Hb, Hrefl. discriminate.
  - apply String_eqb_eq in Ha, Hb. rewrite <- Ha, <- Hb, Hrefl. discriminate.
Qed.

Lemma codeunit_compare_refl (s : JsString) : codeunit_compare s s = 0%Z.
Proof.
  induction s as [|c s IH]; simpl; [reflexivity|].
  now rewrite N.compare_refl.
Qed.

(** The values of a row whose keys are distinct are its cells in the order
    of its keys. *)
Lemma obj_values_by_key (r : JsObject) :
  NoDup (obj_keys r) -> obj_values r = map (obj_read r) (obj_keys r).
Proof.
  induction r as [|[k v] r IH]; intro Hnd; [reflexivity|].
  inversion Hnd as [|? ? Hk Hnd']; subst. cbn [obj_values obj_keys map fst snd].
  unfold obj_read at 1. cbn [obj_get]. rewrite String_eqb_refl. f_equal.
  unfold obj_values, obj_keys in IH. rewrite (IH Hnd'). rewrite !map_map.
  apply map_ext_in. intros [k' v'] Hin. cbn [fst].
  unfold obj_read. cbn [obj_get].
  assert (String_eqb k k' = false) as ->; [|reflexivity].
  apply String_eqb_neq. intros ->. apply Hk.
  apply in_map_iff. exists (k', v'). now split.
Qed.

(** C7, with the scan in the order of the row's own keys: under
    [value_desc] the rows come out as a rearrangement of the input in
    descending order of representative value, the first finite number among
    the values of the row as [Object.values] lists them; rows of values 1,
    3, 2, 2 come out as 3, 2, 2, 1 with the tied rows in their input order;
    under every order the rows sharing a comparison key keep their relative
    input order; and the scan is the scan in column order for a row that
    enumerates its keys as the columns. *)
Theorem sortRows_descending_and_stable (Finite_toString : Q -> JsString)
  (StringToNumber : JsString -> JsNumber)
  (localeCompare : JsString -> JsString -> Z) :
  (forall s, localeCompare s s = 0%Z) ->
  let sort := sortRows Finite_toString StringToNumber localeCompare in
  (forall rows,
      exists sorted,
        sort rows value_desc = Normal sorted /\
        Permutation rows sorted /\
        StronglySorted
          (fun a b => (representativeValue b <= representativeValue a)%Q) sorted) /\
  sort sort_sample value_desc =
    Normal [labelled "b" 3; labelled "c" 2; labelled "d" 2; labelled "a" 1] /\
  (forall sortBy rows k,
      exists sorted,
        sort rows sortBy = Normal sorted /\
        filter (same_key sortBy k) sorted = filter (same_key sortBy k) rows) /\
  (forall columns r,
      NoDup columns -> obj_keys r = columns ->
      representativeValue r = representativeValue_by_column columns r).
Proof.
  intros Hrefl sort. unfold sort. split; [|split; [|split]].
  - intro rows. eexists. split; [apply sortRows_returns|].
    split; [apply stable_sort_perm|].
    apply stable_sort_sorted.
    + intros a b c Hab Hbc. lra.
    + intros a b H. unfold compare_keys in H.
      rewrite sort_order_difference in H.
      apply Qle_alt. exact H.
    + intros a b H. unfold compare_keys in H.
      rewrite sort_order_difference in H.
      apply Qgt_alt in H. lra.
  - rewrite sortRows_returns. reflexivity.
  - intros sortBy rows k. eexists. split; [apply sortRows_returns|].
    apply stable_sort_stable.
    intros x y. now apply compare_keys_ties.
  - intros columns r Hnd <-.
    unfold representativeValue, representativeValue_by_column.
    now rewrite obj_values_by_key.
Qed.

Lemma sortRows_descending_and_stable_witness :
  exists sorted,
    sortRows integer_toString literal_toNumber codeunit_compare
             sort_sample value_desc = Normal sorted /\
    filter (same_key value_desc (labelled "c" 2)) sorted =
    filter (same_key value_desc (labelled "c" 2)) sort_sample.
Proof.
  exact (proj1 (proj2 (proj2 (sortRows_descending_and_stable
                                integer_toString literal_toNumber codeunit_compare
                                codeunit_compare_refl)))
           value_desc sort_sample (labelled "c" 2)).
Defined.

(** C7 does not hold with the scan in column order: the table of columns
    [b] and [0] keeps its two rows as they are under [value_desc], the
    values under [0], which the rows enumerate first, being 2 and 1; the
    first finite numbers in column order are 1 and 2, in ascending order. *)
Lemma index_named_column_breaks_column_order :
  normalizeSqlResult sample_argument_limit index_column_sample
  = Normal (Some index_column_table) /\
  sortRows integer_toString literal_toNumber codeunit_compare
           index_column_table.(rows) value_desc
  = Normal index_column_table.(rows) /\
  map representativeValue index_column_table.(rows) = [inject_Z 2; inject_Z 1] /\
  map (representativeValue_by_column index_column_table.(columns))
      index_column_table.(rows) = [inject_Z 1; inject_Z 2] /\
  ~ StronglySorted
      (fun a b => (representativeValue_by_column index_column_table.(columns) b <=
                   representativeValue_by_column index_column_table.(columns) a)%Q)
      index_column_table.(rows).
Proof.
  split; [reflexivity|]. split; [vm_compute; reflexivity|].
  split; [reflexivity|]. split; [reflexivity|].
  intro H. inversion H as [|a l _ Hall]; subst.
  inversion Hall as [|b l' Hle _]; subst.
  vm_compute in Hle. now apply Hle.
Qed.

(* ================================================================== *)
(** ** The declarative spec generator *)

Lemma unrecognized_kind_tests (kind : JsString) :
  ~ In kind recognized_kinds ->
  String_eqb kind (str "bar") = false /\
  String_eqb kind (str "column") = false /\
  String_eqb kind (str "line") = false /\
  String_eqb kind (str "point") = false /\
  String_eqb kind (str "area") = false /\
  String_eqb kind (str "arc") = false.
Proof.
  intro H. repeat split; apply String_eqb_neq; intro E; apply H; subst kind;
    unfold recognized_kinds; simpl; tauto.
Qed.

(** C9, up to the label angle of the x axis: for an unrecognized kind the
    generator returns [null] exactly when it does for [column], and throws
    exactly when it does for [column]; otherwise both specs are vertical
    bars over the same data, size, fields and titles, and differ by the
    axis label angle, which only the [column] spec sets. *)
Theorem unrecognized_kind_spec (Finite_toString : Q -> JsString)
  (table : NormalizedTable) (options : Options.t) (kind : JsString) :
  ~ In kind recognized_kinds ->
  match sqlTableToVegaLiteSpec Finite_toString table (with_kind options (str "column")),
        sqlTableToVegaLiteSpec Finite_toString table (with_kind options kind) with
  | Normal None, Normal None => True
  | Normal (Some column_spec), Normal (Some spec) =>
      exists base xKey y,
        column_spec =
          vertical_bar base xKey [(str "axis", JObj [(str "labelAngle", num (-25))])] y /\
        spec = vertical_bar base xKey [] y
  | Throw e, Throw e' => e = e'
  | _, _ => False
  end.
Proof.
  intro Hkind.
  destruct (unrecognized_kind_tests Hkind) as (Hbar & Hcol & Hline & Hpoint & Harea & Harc).
  unfold sqlTableToVegaLiteSpec, with_kind.
  cbn [Options.chartType Options.xKey Options.yKey
       Options.limit Options.width Options.height].
  destruct (Nat.eqb (List.length table.(columns)) 0
            || Nat.eqb (List.length table.(rows)) 0); [exact I|].
  cbv zeta.
  set (xk := match options.(Options.xKey) with Some k => Some k | None => _ end).
  set (yk := match options.(Options.yKey) with Some k => Some k | None => _ end).
  destruct (key_falsy xk || key_falsy yk); [exact I|].
  destruct xk as [x|]; [|exact I]. destruct yk as [y|]; [|exact I].
  destruct (Array_map _ _) as [values|e]; cbn [bind]; [|reflexivity].
  rewrite Hbar, Hcol, Hline, Hpoint, Harea, Harc.
  change (String_eqb (str "column") (str "bar")) with false.
  change (String_eqb (str "column") (str "column")) with true.
  cbv iota. cbn [orb].
  eexists _, x, _. split; reflexivity.
Qed.

Lemma unrecognized_kind_spec_witness :
  match sqlTableToVegaLiteSpec integer_toString chart_sample
          (with_kind (only_kind (str "pie")) (str "column")),
        sqlTableToVegaLiteSpec integer_toString chart_sample
          (with_kind (only_kind (str "pie")) (str "pie")) with
  | Normal None, Normal None => True
  | Normal (Some column_spec), Normal (Some spec) =>
      exists base xKey y,
        column_spec =
          vertical_bar base xKey [(str "axis", JObj [(str "labelAngle", num (-25))])] y /\
        spec = vertical_bar base xKey [] y
  | Throw e, Throw e' => e = e'
  | _, _ => False
  end.
Proof.
  apply (unrecognized_kind_spec integer_toString chart_sample
           (only_kind (str "pie")) (kind := str "pie")).
  unfold recognized_kinds. simpl. intuition discriminate.
Defined.

(** C9 does not hold with equality: for the kind [pie], which has no case,
    the spec is not the spec of [column]. *)
Lemma unrecognized_kind_differs_from_column :
  sqlTableToVegaLiteSpec integer_toString chart_sample (only_kind (str "pie")) <>
  sqlTableToVegaLiteSpec integer_toString chart_sample (only_kind (str "column")).
Proof.
  vm_compute. discriminate.
Qed.

(* ================================================================== *)
(** ** Further facts about the normaliser *)

Lemma unionObjectKeys_from_throw (set : list JsString) (rs : list JsValue)
  (e : JsError) :
  unionObjectKeys_from set rs = Throw e ->
  e = TypeError /\ Exists (fun r => r = JNull \/ r = JUndefined) rs.
Proof.
  revert set; induction rs as [|r rs IH]; intros set H; simpl in H.
  - discriminate.
  - destruct r; simpl in H;
      try (apply IH in H as [He Hex]; split; [exact He | now apply Exists_cons_tl]).
    + injection H as <-. split; [reflexivity|]. apply Exists_cons_hd. now right.
    + injection H as <-. split; [reflexivity|]. apply Exists_cons_hd. now left.
Qed.

Lemma unionObjectKeys_from_normal (set : list JsString) (rs : list JsValue) :
  Forall (fun r => r <> JNull /\ r <> JUndefined) rs ->
  exists ks, unionObjectKeys_from set rs = Normal ks.
Proof.
  intro H. revert set; induction H as [|r rs [Hn Hu] _ IH]; intro set; simpl.
  - now exists set.
  - destruct r; simpl; try apply IH; contradiction.
Qed.

Lemma unionObjectKeys_from_throws (set : list JsString) (rs : list JsValue) :
  Exists (fun r => r = JNull \/ r = JUndefined) rs ->
  unionObjectKeys_from set rs = Throw TypeError.
Proof.
  intro H. revert set. induction H as [r rs [-> | ->] | r rs _ IH]; intro set;
    try reflexivity.
  simpl. destruct (Object_keys r) as [ks|e] eqn:E; simpl; [apply IH|].
  destruct r; try discriminate; injection E as <-; reflexivity.
Qed.

(** The ways an array makes the normaliser throw. *)
Lemma normalizeSqlResult_array_throws (argument_limit : N) (items : list JsValue)
  (e : JsError) :
  normalizeSqlResult argument_limit (JArr items) = Throw e <->
  (e = TypeError /\
   exists first rest, items = JObj first :: rest /\
                      Exists (fun r => r = JNull \/ r = JUndefined) rest) \/
  (e = RangeError /\
   exists first rest, items = JArr first :: rest /\
                      (argument_limit < N.of_nat (List.length items))%N).
Proof.
  rewrite normalizeSqlResult_array. split.
  - destruct items as [|[| |b|n|s|first|first] rest]; try discriminate.
    + destruct (Math_max_spread_cases argument_limit
                  (map tuple_length (JArr first :: rest))) as [[-> _] | [-> Hover]];
        simpl; [discriminate|].
      intro H. injection H as <-. right. split; [reflexivity|].
      exists first, rest. split; [reflexivity|]. now rewrite length_map in Hover.
    + unfold unionObjectKeys. simpl.
      destruct (unionObjectKeys_from _ rest) as [ks|e'] eqn:E; simpl; [discriminate|].
      intro H. injection H as ->. apply unionObjectKeys_from_throw in E as [He Hex].
      left. split; [exact He|]. eauto.
  - intros [[-> (first & rest & -> & Hex)] | [-> (first & rest & -> & Hover)]].
    + unfold unionObjectKeys. simpl.
      now rewrite unionObjectKeys_from_throws.
    + rewrite Math_max_spread_overflows by (now rewrite length_map). reflexivity.
Qed.

(** X1: over record arrays of objects the normaliser throws in two ways
    only: a [TypeError] on a record array (given as such or encoded in a
    string) that holds [null] or [undefined] after its first element, and a
    [RangeError] on a tuple array longer than the engine accepts as the
    arguments of one call; and in both it does throw. *)
Theorem normalizer_throws_iff (argument_limit : N) (raw : JsValue) (e : JsError) :
  plain_records raw = true ->
  (normalizeSqlResult argument_limit raw = Throw e <->
   exists items,
     (raw = JArr items \/
      exists text, raw = JStr text /\ tryParseJsonArray text = Some items) /\
     ((e = TypeError /\
       exists first rest, items = JObj first :: rest /\
                          Exists (fun r => r = JNull \/ r = JUndefined) rest) \/
      (e = RangeError /\
       exists first rest, items = JArr first :: rest /\
                          (argument_limit < N.of_nat (List.length items))%N))).
Proof.
  intros _. split.
  - intro H. destruct raw as [| |b|n|s|items|props];
      try (rewrite normalizeSqlResult_scalar in H by exact I; discriminate).
    + rewrite normalizeSqlResult_string in H.
      destruct (tryParseJsonArray s) as [parsed|] eqn:E; [|discriminate].
      apply normalizeSqlResult_array_throws in H.
      exists parsed. split; [right; now exists s | exact H].
    + apply normalizeSqlResult_array_throws in H.
      exists items. split; [now left | exact H].
    + rewrite normalizeSqlResult_object in H.
      destruct (obj_read props (str "columns")); try discriminate.
      destruct (obj_read props (str "rows")); try discriminate.
      destruct (forallb typeof_string items); discriminate.
  - intros (items & [-> | (text & -> & Hparsed)] & H).
    + now apply normalizeSqlResult_array_throws.
    + rewrite normalizeSqlResult_string, Hparsed.
      now apply normalizeSqlResult_array_throws.
Qed.

Lemma normalizer_throws_iff_witness :
  exists items,
    (null_record_sample = JArr items \/
     exists text, null_record_sample = JStr text /\
                  tryParseJsonArray text = Some items) /\
    ((TypeError = TypeError /\
      exists first rest, items = JObj first :: rest /\
                         Exists (fun r => r = JNull \/ r = JUndefined) rest) \/
     (TypeError = RangeError /\
      exists first rest, items = JArr first :: rest /\
                         (sample_argument_limit < N.of_nat (List.length items))%N)).
Proof.
  exact (proj1 (@normalizer_throws_iff sample_argument_limit null_record_sample
                  TypeError eq_refl) eq_refl).
Defined.

(** Examples of section 8 of the specification. *)
Example record_array_union :
  normalizeSqlResult sample_argument_limit (JArr [JObj [(str "a", num 1)]; JObj [(str "b", num 2)]]) =
  Normal (Some {| columns := [str "a"; str "b"];
                  rows := [[(str "a", num 1); (str "b", JUndefined)];
                           [(str "a", JUndefined); (str "b", num 2)]] |}).
Proof. reflexivity. Qed.

Example tuple_pairs :
  normalizeSqlResult sample_argument_limit (JArr [JArr [JStr (str "x"); num 1]; JArr [JStr (str "y")]]) =
  Normal (Some {| columns := [str "label"; str "value"];
                  rows := [[(str "label", JStr (str "x")); (str "value", num 1)];
                           [(str "label", JStr (str "y")); (str "value", JUndefined)]] |}).
Proof. reflexivity. Qed.

Example tuple_triple :
  normalizeSqlResult sample_argument_limit (JArr [JArr [num 1; num 2]; JArr [num 3; num 4; num 5]]) =
  Normal (Some {| columns := [str "col_1"; str "col_2"; str "col_3"];
                  rows := [[(str "col_1", num 1); (str "col_2", num 2);
                            (str "col_3", JUndefined)];
                           [(str "col_1", num 3); (str "col_2", num 4);
                            (str "col_3", num 5)]] |}).
Proof. reflexivity. Qed.

(** On ["prefix [1,2,3] suffix"] the parse itself throws, on the text after
    the array; without that text the array is parsed and rejected for its
    elements, which are neither objects nor arrays. *)
Example trailing_text_fails_the_parse :
  tryParseJsonArray (str "prefix [1,2,3] suffix") = None /\
  JSON_parse (str "[1,2,3] suffix") = Throw SyntaxError /\
  tryParseJsonArray (str "prefix [1,2,3]") = Some [num 1; num 2; num 3] /\
  normalizeSqlResult sample_argument_limit (JStr (str "prefix [1,2,3]")) = Normal None.
Proof. repeat split; vm_compute; reflexivity. Qed.

(** A column named like an array index is enumerated first in the rebuilt
    row, whatever its place among the columns. *)
Example index_named_column_comes_first :
  normalizeSqlResult sample_argument_limit
    (JObj [(str "columns", JArr [JStr (str "b"); JStr (str "0")]);
           (str "rows", JArr [JObj [(str "b", num 1); (str "0", num 5)]])]) =
  Normal (Some {| columns := [str "b"; str "0"];
                  rows := [[(str "0", num 5); (str "b", num 1)]] |}).
Proof. reflexivity. Qed.

(* ================================================================== *)
(** ** Columns of array inputs *)

Lemma filter_filter (A : Type) (p q : A -> bool) (l : list A) :
  filter p (filter q l) = filter (fun x => q x && p x) l.
Proof.
  induction l as [|x l IH]; simpl; [reflexivity|].
  destruct (q x); simpl; [destruct (p x)|]; now rewrite IH.
Qed.

Lemma existsb_String_eqb (k : JsString) (set : list JsString) :
  existsb (String_eqb k) set = true <-> In k set.
Proof.
  rewrite existsb_exists. split.
  - intros (x & Hx & E). apply String_eqb_eq in E. now subst.
  - intro H. exists k. split; [assumption | apply String_eqb_refl].
Qed.

(** Adding keys to the [Set] one by one keeps the first occurrence of each. *)
Lemma fold_Set_add (ks set : list JsString) :
  fold_left Set_add ks set =
  set ++ filter (fun k => negb (existsb (String_eqb k) set)) (first_occurrences ks).
Proof.
  revert set; induction ks as [|k ks IH]; intro set; simpl.
  - now rewrite app_nil_r.
  - rewrite IH. unfold Set_add. rewrite filter_filter.
    destruct (existsb (String_eqb k) set) eqn:E; simpl.
    + f_equal. apply filter_ext. intro x.
      destruct (String_eqb k x) eqn:Ekx; simpl; [|reflexivity].
      apply String_eqb_eq in Ekx. subst x. now rewrite E.
    + rewrite <- app_assoc. simpl. do 2 f_equal. apply filter_ext. intro x.
      rewrite existsb_app. simpl. rewrite orb_false_r, negb_orb.
      rewrite (String_eqb_sym x k). apply andb_comm.
Qed.

Lemma first_occurrences_In (ks : list JsString) (k : JsString) :
  In k (first_occurrences ks) <-> In k ks.
Proof.
  induction ks as [|x ks IH]; simpl; [tauto|].
  rewrite filter_In, IH. destruct (String_eqb x k) eqn:E.
  - apply String_eqb_eq in E. subst. simpl. intuition discriminate.
  - apply String_eqb_neq in E. simpl. intuition congruence.
Qed.

Lemma first_occurrences_NoDup (ks : list JsString) : NoDup (first_occurrences ks).
Proof.
  induction ks as [|x ks IH]; simpl; constructor.
  - rewrite filter_In, String_eqb_refl. simpl. intros [_ H]. discriminate.
  - now apply NoDup_filter.
Qed.

Lemma unionObjectKeys_from_keys (set : list JsString) (rs : list JsValue)
  (ks : list JsString) :
  unionObjectKeys_from set rs = Normal ks ->
  exists keyss,
    Forall2 (fun r own => Object_keys r = Normal own) rs keyss /\
    ks = fold_left Set_add (List.concat keyss) set.
Proof.
  revert set; induction rs as [|r rs IH]; intros set H; simpl in H.
  - injection H as <-. exists []. split; [constructor | reflexivity].
  - destruct (Object_keys r) as [own|e] eqn:E; simpl in H; [|discriminate].
    apply IH in H as (keyss & Hall & ->). exists (own :: keyss).
    split; [now constructor|]. simpl. now rewrite fold_left_app.
Qed.

(** X3: the columns of a normalised record array are the keys of all its
    elements, each at its first occurrence, hence pairwise distinct. *)
Theorem record_columns_first_occurrence (argument_limit : N) (first : JsObject)
  (rest : list JsValue) (t : NormalizedTable) :
  normalizeSqlResult argument_limit (JArr (JObj first :: rest)) = Normal (Some t) ->
  exists keyss,
    Forall2 (fun r own => Object_keys r = Normal own) (JObj first :: rest) keyss /\
    t.(columns) = first_occurrences (List.concat keyss) /\
    NoDup t.(columns) /\
    (forall k, In k t.(columns) <-> exists own, In own keyss /\ In k own).
Proof.
  rewrite normalizeSqlResult_array. unfold unionObjectKeys.
  destruct (unionObjectKeys_from [] (JObj first :: rest)) as [ks|e] eqn:E;
    simpl; [|discriminate].
  intro H. injection H as <-. cbn [columns].
  apply unionObjectKeys_from_keys in E as (keyss & Hall & ->).
  exists keyss. rewrite fold_Set_add. simpl.
  assert (filter (fun _ : JsString => true) (first_occurrences (List.concat keyss))
          = first_occurrences (List.concat keyss)) as ->.
  { apply forallb_filter_id. now apply forallb_forall. }
  repeat split; try assumption.
  - apply first_occurrences_NoDup.
  - intro Hk. apply first_occurrences_In, in_concat in Hk. exact Hk.
  - intro Hk. apply first_occurrences_In, in_concat. exact Hk.
Qed.

Lemma record_columns_first_occurrence_witness :
  exists keyss,
    Forall2 (fun r own => Object_keys r = Normal own)
            [JObj [(str "a", num 1); (str "b", num 2)];
             JObj [(str "c", num 3); (str "a", num 4)]] keyss /\
    [str "a"; str "b"; str "c"] = first_occurrences (List.concat keyss) /\
    NoDup [str "a"; str "b"; str "c"] /\
    (forall k, In k [str "a"; str "b"; str "c"] <->
               exists own, In own keyss /\ In k own).
Proof.
  exact (@record_columns_first_occurrence sample_argument_limit
           [(str "a", num 1); (str "b", num 2)]
           [JObj [(str "c", num 3); (str "a", num 4)]] _ eq_refl).
Defined.

(** X4: the columns of a table normalised from an array (given as such or
    encoded in a string) are pairwise distinct; a direct table keeps a
    column it names twice. *)
Theorem array_columns_distinct (argument_limit : N) :
  (forall raw t sh srcs,
      normalizeSqlResult argument_limit raw = Normal (Some t) ->
      accepted_shape raw = Some (sh, srcs) ->
      sh <> DirectTable ->
      NoDup t.(columns)) /\
  normalizeSqlResult argument_limit repeated_column_sample =
  Normal (Some {| columns := [str "a"; str "a"]; rows := [[(str "a", num 1)]] |}).
Proof.
  split; [|reflexivity].
  assert (forall items t sh srcs,
             normalizeSqlResult argument_limit (JArr items) = Normal (Some t) ->
             array_shape items = Some (sh, srcs) ->
             NoDup t.(columns)) as Harr.
  { intros items t sh srcs H _. rewrite normalizeSqlResult_array in H.
    destruct items as [|[] rest]; try discriminate.
    - injection H as <-. constructor.
    - destruct (Math_max_spread argument_limit _) as [maxLen|e]; simpl in H;
        [|discriminate].
      injection H as <-. apply tuple_columns_NoDup.
    - unfold unionObjectKeys in H.
      destruct (unionObjectKeys_from [] (JObj props :: rest)) as [ks|e] eqn:E;
        simpl in H; [|discriminate].
      injection H as <-. cbn [columns].
      apply unionObjectKeys_from_keys in E as (keyss & _ & ->).
      rewrite fold_Set_add. simpl. apply NoDup_filter, first_occurrences_NoDup. }
  intros raw t sh srcs H Hshape Hsh.
  destruct raw as [| |b|n|s|items|props]; try discriminate.
  - rewrite normalizeSqlResult_string in H. unfold accepted_shape in Hshape.
    destruct (tryParseJsonArray s) as [parsed|]; [|discriminate]. eauto.
  - eauto.
  - unfold accepted_shape in Hshape.
    destruct (obj_read props (str "columns")); try discriminate.
    destruct (obj_read props (str "rows")); try discriminate.
    destruct (forallb typeof_string items); [|discriminate].
    injection Hshape as <- _. contradiction.
Qed.

Lemma array_columns_distinct_witness :
  NoDup [str "label"; str "value"].
Proof.
  apply (proj1 (array_columns_distinct sample_argument_limit)
           (JArr [JArr [JStr (str "x"); num 1]])
           {| columns := [str "label"; str "value"];
              rows := [[(str "label", JStr (str "x")); (str "value", num 1)]] |}
           TupleArray [JArr [JStr (str "x"); num 1]]);
    [reflexivity | reflexivity | discriminate].
Defined.

(* ================================================================== *)
(** ** Normalising a normalised table *)

Lemma reduce_ext (f g : JsString -> nat -> JsValue) (cols : list JsString)
  (idx : nat) (acc : JsObject) :
  (forall j c, nth_error cols j = Some c -> f c (idx + j) = g c (idx + j)) ->
  Array_reduce_from (fun acc c i => obj_set acc c (f c i)) cols idx acc =
  Array_reduce_from (fun acc c i => obj_set acc c (g c i)) cols idx acc.
Proof.
  revert idx acc; induction cols as [|c cols IH]; intros idx acc H; simpl.
  - reflexivity.
  - rewrite <- (Nat.add_0_r idx) at 2 4.
    rewrite (H 0 c eq_refl), Nat.add_0_r. apply IH.
    intros j d Hj. replace (S idx + j) with (idx + S j) by lia. now apply H.
Qed.

(** A row rebuilt from itself over its own columns is the same row. *)
Lemma rebuild_fixed (cell : JsString -> nat -> JsValue) (cols : list JsString) :
  (forall c i j, cell c i = cell c j) \/ NoDup cols ->
  Array_reduce
    (fun acc c _ =>
       obj_set acc c
         (obj_read (Array_reduce (fun acc c i => obj_set acc c (cell c i)) cols []) c))
    cols []
  = Array_reduce (fun acc c i => obj_set acc c (cell c i)) cols [].
Proof.
  intro H. unfold Array_reduce at 1 3.
  apply (reduce_ext (fun c _ => obj_read _ c) cell). intros j c Hj.
  unfold obj_read. destruct H as [Hnamed | Hnd].
  - unfold Array_reduce.
    rewrite (@reduce_get_named cell (fun c => cell c 0) cols 0 [] c).
    + apply Hnamed.
    + intros d i. apply Hnamed.
    + left. eapply nth_error_In; eauto.
  - unfold Array_reduce. now rewrite (@reduce_get_at cell cols 0 [] j c Hnd Hj).
Qed.

(** Every row of a normalised table is built over the columns of the table,
    from cells that ignore the position or over distinct columns. *)
Lemma normalized_rows_built (argument_limit : N) (raw : JsValue)
  (t : NormalizedTable) :
  normalizeSqlResult argument_limit raw = Normal (Some t) ->
  exists cells : list (JsString -> nat -> JsValue),
    t.(rows) = map (fun cell =>
                      Array_reduce (fun acc c i => obj_set acc c (cell c i))
                                   t.(columns) [])
                   cells /\
    ((forall cell, In cell cells -> forall c i j, cell c i = cell c j) \/
     NoDup t.(columns)).
Proof.
  assert (forall items,
             normalizeSqlResult argument_limit (JArr items) = Normal (Some t) ->
             exists cells : list (JsString -> nat -> JsValue),
               t.(rows) = map (fun cell =>
                                 Array_reduce (fun acc c i => obj_set acc c (cell c i))
                                              t.(columns) [])
                              cells /\
               ((forall cell, In cell cells -> forall c i j, cell c i = cell c j) \/
                NoDup t.(columns))) as Harr.
  { intros items H. rewrite normalizeSqlResult_array in H.
    destruct items as [|[] rest]; try discriminate.
    - injection H as <-. exists []. split; [reflexivity | right; constructor].
    - destruct (Math_max_spread argument_limit _) as [maxLen|e]; simpl in H;
        [|discriminate].
      injection H as <-. cbn [columns rows].
      exists (map (fun r _ i => nth i (tuple_items r) JUndefined) (JArr items :: rest)).
      split; [now rewrite map_map | right; apply tuple_columns_NoDup].
    - destruct (unionObjectKeys (JObj props :: rest)) as [ks|e]; simpl in H;
        [|discriminate].
      injection H as <-. cbn [columns rows].
      exists (map (fun r c _ => get_member r c) (JObj props :: rest)).
      split; [now rewrite map_map|]. left.
      intros cell Hin. apply in_map_iff in Hin as (r & <- & _). reflexivity. }
  intro H. destruct raw as [| |b|n|s|items|props];
    try (rewrite normalizeSqlResult_scalar in H by exact I; discriminate).
  - rewrite normalizeSqlResult_string in H.
    destruct (tryParseJsonArray s); [eauto | discriminate].
  - eauto.
  - rewrite normalizeSqlResult_object in H.
    destruct (obj_read props (str "columns")); try discriminate.
    destruct (obj_read props (str "rows")) as [| | | | |rs|]; try discriminate.
    destruct (forallb typeof_string items); [|discriminate].
    injection H as <-. cbn [columns rows].
    exists (map (fun r c (_ : nat) =>
                   obj_read (match r with JObj o => o | _ => [] end) c) rs).
    split; [now rewrite map_map|]. left.
    intros cell Hin. apply in_map_iff in Hin as (r & <- & _). reflexivity.
Qed.

Lemma as_strings_map_JStr (cols : list JsString) : as_strings (map JStr cols) = cols.
Proof.
  unfold as_strings. induction cols as [|c cols IH]; simpl; [reflexivity|].
  now rewrite IH.
Qed.

Lemma all_strings_map_JStr (cols : list JsString) :
  forallb typeof_string (map JStr cols) = true.
Proof. induction cols; simpl; auto. Qed.

(** X5: a table normalised by own properties (no column bears a name that
    objects inherit, the elements of a record array are objects), handed
    back in the direct-table shape [{columns, rows}], normalises to
    itself. *)
Theorem normalized_table_is_fixed (argument_limit : N) (raw : JsValue)
  (t : NormalizedTable) :
  normalizeSqlResult argument_limit raw = Normal (Some t) ->
  own_columns t.(columns) ->
  plain_records raw = true ->
  normalizeSqlResult argument_limit (table_value t) = Normal (Some t).
Proof.
  intros H _ _. apply normalized_rows_built in H as (cells & Hrows & Hcells).
  unfold table_value. rewrite normalizeSqlResult_object.
  change (obj_read [(str "columns", JArr (map JStr t.(columns)));
                    (str "rows", JArr (map JObj t.(rows)))] (str "columns"))
    with (JArr (map JStr t.(columns))).
  change (obj_read [(str "columns", JArr (map JStr t.(columns)));
                    (str "rows", JArr (map JObj t.(rows)))] (str "rows"))
    with (JArr (map JObj t.(rows))).
  cbv beta iota. rewrite all_strings_map_JStr, as_strings_map_JStr.
  destruct t as [cols rs]. cbn [columns rows] in *. do 3 f_equal.
  rewrite map_map. cbv zeta. subst rs. rewrite map_map.
  apply map_ext_in. intros cell Hin. apply rebuild_fixed.
  destruct Hcells as [Hnamed|Hnd]; [left; now apply Hnamed | now right].
Qed.

Lemma normalized_table_is_fixed_witness :
  normalizeSqlResult sample_argument_limit
    (table_value {| columns := [str "a"; str "b"];
                    rows := [[(str "a", num 1); (str "b", JUndefined)]] |}) =
  Normal (Some {| columns := [str "a"; str "b"];
                  rows := [[(str "a", num 1); (str "b", JUndefined)]] |}).
Proof.
  apply (@normalized_table_is_fixed sample_argument_limit direct_sample
           {| columns := [str "a"; str "b"];
              rows := [[(str "a", num 1); (str "b", JUndefined)]] |}).
  - reflexivity.
  - repeat constructor.
  - reflexivity.
Defined.

(** X2: when the columns of a normalised table are distinct, none of them
    an array index and none [__proto__], every row enumerates its keys in
    the order of the columns, whatever the shape of the input (a column
    named like an array index moves to the front of the row, see
    [index_named_column_comes_first]). *)
Theorem rows_in_column_order (argument_limit : N) (raw : JsValue)
  (t : NormalizedTable) :
  normalizeSqlResult argument_limit raw = Normal (Some t) ->
  NoDup t.(columns) ->
  Forall (fun c => array_index c = None) t.(columns) ->
  ~ In (str "__proto__") t.(columns) ->
  Forall (fun row => obj_keys row = t.(columns)) t.(rows).
Proof.
  intros H Hnd Hplain _.
  apply normalized_rows_built in H as (cells & -> & _).
  apply Forall_map. apply Forall_forall. intros cell _.
  now apply row_keys_in_order.
Qed.

Lemma rows_in_column_order_witness :
  Forall (fun row => obj_keys row = [str "a"; str "b"])
         [[(str "a", num 1); (str "b", JUndefined)]].
Proof.
  apply (@rows_in_column_order sample_argument_limit
           (JObj [(str "rows", JArr [JObj [(str "a", num 1)]]);
                  (str "columns", JArr [JStr (str "a"); JStr (str "b")])])
           {| columns := [str "a"; str "b"];
              rows := [[(str "a", num 1); (str "b", JUndefined)]] |}).
  - reflexivity.
  - repeat constructor; simpl; intuition discriminate.
  - repeat constructor.
  - simpl. intuition discriminate.
Defined.

(* ================================================================== *)
(** ** Sorting under every order *)

Lemma sort_order_integer (z : Z) :
  sort_order (Finite (inject_Z z)) = (z ?= 0)%Z.
Proof.
  unfold sort_order, Qcompare, inject_Z. cbn [Qnum Qden]. now rewrite Z.mul_1_r.
Qed.

(** The comparator of [sortRows] lets [a] stay before [b] exactly when the
    two are in the order asked for. *)
Lemma compare_keys_in_order (localeCompare : JsString -> JsString -> Z)
  (sortBy : SortBy) (a b : JsObject) :
  sort_order (compare_keys localeCompare sortBy a b) <> Gt
  <-> in_order localeCompare sortBy a b.
Proof.
  unfold compare_keys.
  destruct sortBy; unfold in_order.
  - rewrite sort_order_difference. symmetry. apply Qle_alt.
  - rewrite sort_order_difference. symmetry. apply Qle_alt.
  - rewrite sort_order_integer. apply Z.compare_le_iff.
  - rewrite sort_order_integer. apply Z.compare_le_iff.
Qed.

Lemma stable_sort_fixed (A : Type) (compare : A -> A -> JsNumber) (l : list A) :
  StronglySorted (fun a b => sort_order (compare a b) <> Gt) l ->
  stable_sort compare l = l.
Proof.
  induction 1 as [|x l Hl IH Hx]; simpl; [reflexivity|].
  rewrite IH. destruct l as [|y l']; [reflexivity|]. simpl.
  inversion Hx as [|? ? Hxy _]; subst.
  destruct (sort_order (compare x y)); [reflexivity | reflexivity | contradiction].
Qed.

Lemma StronglySorted_iff (A : Type) (R S : A -> A -> Prop) (l : list A) :
  (forall a b, R a b <-> S a b) -> StronglySorted R l -> StronglySorted S l.
Proof.
  intros HRS. induction 1 as [|x l Hl IH Hx]; constructor; [assumption|].
  revert Hx. apply Forall_impl. intro y. apply HRS.
Qed.

Lemma StronglySorted_all_related (A : Type) (R : A -> A -> Prop) (l : list A) :
  (forall a b, In a l -> In b l -> R a b) -> StronglySorted R l.
Proof.
  induction l as [|x l IH]; intro H; constructor.
  - apply IH. intros a b Ha Hb. apply H; now right.
  - apply Forall_forall. intros y Hy. apply H; [now left | now right].
Qed.

Section LocaleOrder.
Variable localeCompare : JsString -> JsString -> Z.
Hypothesis localeCompare_opposite :
  forall s u, (0 < localeCompare s u)%Z -> (localeCompare u s <= 0)%Z.
Hypothesis localeCompare_trans :
  forall s u v, (localeCompare s u <= 0)%Z -> (localeCompare u v <= 0)%Z ->
                (localeCompare s v <= 0)%Z.

Lemma in_order_trans (sortBy : SortBy) (a b c : JsObject) :
  in_order localeCompare sortBy a b -> in_order localeCompare sortBy b c ->
  in_order localeCompare sortBy a c.
Proof.
  destruct sortBy; unfold in_order; intros Hab Hbc.
  - lra.
  - lra.
  - eapply localeCompare_trans; eauto.
  - eapply localeCompare_trans; eauto.
Qed.

Lemma in_order_total (sortBy : SortBy) (a b : JsObject) :
  ~ in_order localeCompare sortBy a b -> in_order localeCompare sortBy b a.
Proof.
  destruct sortBy; unfold in_order; intro H.
  - apply Qnot_le_lt in H. lra.
  - apply Qnot_le_lt in H. lra.
  - apply localeCompare_opposite. lia.
  - apply localeCompare_opposite. lia.
Qed.

Lemma stable_sort_in_order (sortBy : SortBy) (rows : list JsObject) :
  StronglySorted (in_order localeCompare sortBy)
    (stable_sort (compare_keys localeCompare sortBy) rows).
Proof.
  apply stable_sort_sorted.
  - intros a b c. apply in_order_trans.
  - intros a b. apply compare_keys_in_order.
  - intros a b H. apply in_order_total. intro Hab.
    apply (proj2 (compare_keys_in_order localeCompare sortBy a b)) in Hab.
    contradiction.
Qed.
End LocaleOrder.

Lemma codeunit_compare_opposite (s u : JsString) :
  codeunit_compare u s = (- codeunit_compare s u)%Z.
Proof.
  revert u; induction s as [|x s IH]; intros [|y u]; simpl; try reflexivity.
  rewrite (N.compare_antisym x y).
  destruct (N.compare x y); simpl; [apply IH | reflexivity | reflexivity].
Qed.

Lemma codeunit_compare_trans (s u v : JsString) :
  (codeunit_compare s u <= 0)%Z -> (codeunit_compare u v <= 0)%Z ->
  (codeunit_compare s v <= 0)%Z.
Proof.
  revert u v; induction s as [|x s IH]; intros [|y u] [|z v]; simpl;
    try lia.
  destruct (N.compare_spec x y) as [->|Hxy|Hxy]; try lia;
    destruct (N.compare_spec y z) as [->|Hyz|Hyz]; try lia; intros H1 H2.
  all: try (now apply (IH u v)).
  all: match goal with
       | |- context [(?a ?= ?b)%N] =>
           assert ((a ?= b)%N = Lt) as -> by (apply N.compare_lt_iff; lia); lia
       end.
Qed.

(** X6: when the locale comparison is a consistent order, [sortRows]
    returns, for each of the four orders, a rearrangement of the rows in
    which every row stands before the rows that follow it in that order. *)
Theorem sortRows_sorted_every_order (Finite_toString : Q -> JsString)
  (StringToNumber : JsString -> JsNumber)
  (localeCompare : JsString -> JsString -> Z) :
  (forall s u, (0 < localeCompare s u)%Z -> (localeCompare u s <= 0)%Z) ->
  (forall s u v, (localeCompare s u <= 0)%Z -> (localeCompare u v <= 0)%Z ->
                 (localeCompare s v <= 0)%Z) ->
  forall sortBy rows,
    exists sorted,
      sortRows Finite_toString StringToNumber localeCompare rows sortBy
      = Normal sorted /\
      Permutation rows sorted /\
      StronglySorted (in_order localeCompare sortBy) sorted.
Proof.
  intros Hopp Htrans sortBy rows. eexists.
  split; [apply sortRows_returns|]. split.
  - apply stable_sort_perm.
  - now apply stable_sort_in_order.
Qed.

Lemma sortRows_sorted_every_order_witness :
  exists sorted,
    sortRows integer_toString literal_toNumber codeunit_compare sort_sample label_desc
    = Normal sorted /\
    Permutation sort_sample sorted /\
    StronglySorted (in_order codeunit_compare label_desc) sorted.
Proof.
  apply (@sortRows_sorted_every_order integer_toString literal_toNumber codeunit_compare).
  - intros s u H. rewrite codeunit_compare_opposite. lia.
  - apply codeunit_compare_trans.
Defined.

(** X7: rows already in the order asked for are returned as they are, with
    their ties untouched; so, for a consistent locale comparison, sorting a
    second time by the same order changes nothing. *)
Theorem sortRows_keeps_sorted_input (Finite_toString : Q -> JsString)
  (StringToNumber : JsString -> JsNumber)
  (localeCompare : JsString -> JsString -> Z) :
  (forall s u, (0 < localeCompare s u)%Z -> (localeCompare u s <= 0)%Z) ->
  (forall s u v, (localeCompare s u <= 0)%Z -> (localeCompare u v <= 0)%Z ->
                 (localeCompare s v <= 0)%Z) ->
  let sort := sortRows Finite_toString StringToNumber localeCompare in
  (forall sortBy rows,
      StronglySorted (in_order localeCompare sortBy) rows ->
      sort rows sortBy = Normal rows) /\
  (forall sortBy rows,
      exists sorted,
        sort rows sortBy = Normal sorted /\ sort sorted sortBy = Normal sorted).
Proof.
  intros Hopp Htrans sort.
  assert (forall sortBy rows,
             StronglySorted (in_order localeCompare sortBy) rows ->
             sort rows sortBy = Normal rows) as Hfixed.
  { intros sortBy rows H. unfold sort. rewrite sortRows_returns. f_equal.
    apply stable_sort_fixed.
    revert H. apply StronglySorted_iff. intros a b. symmetry.
    apply compare_keys_in_order. }
  split; [exact Hfixed|].
  intros sortBy rows. eexists. split; [apply sortRows_returns|].
  apply Hfixed. now apply stable_sort_in_order.
Qed.

Lemma sortRows_keeps_sorted_input_witness :
  exists sorted,
    sortRows integer_toString literal_toNumber codeunit_compare sort_sample value_asc
    = Normal sorted /\
    sortRows integer_toString literal_toNumber codeunit_compare sorted value_asc
    = Normal sorted.
Proof.
  apply (@sortRows_keeps_sorted_input integer_toString literal_toNumber codeunit_compare).
  - intros s u H. rewrite codeunit_compare_opposite. lia.
  - apply codeunit_compare_trans.
Defined.

(** X8: rows that all have the same representative value, such as the rows
    of a table without any finite number, come back from both value orders
    in their input order. *)
Theorem value_sort_keeps_tied_rows (Finite_toString : Q -> JsString)
  (StringToNumber : JsString -> JsNumber)
  (localeCompare : JsString -> JsString -> Z) (rows : list JsObject) :
  (forall a b, In a rows -> In b rows ->
               (representativeValue a == representativeValue b)%Q) ->
  sortRows Finite_toString StringToNumber localeCompare rows value_desc = Normal rows /\
  sortRows Finite_toString StringToNumber localeCompare rows value_asc = Normal rows.
Proof.
  intro Htied. split; rewrite sortRows_returns; f_equal;
    apply stable_sort_fixed; apply StronglySorted_all_related;
    intros a b Ha Hb; apply compare_keys_in_order; unfold in_order;
    specialize (Htied a b Ha Hb); lra.
Qed.

Lemma value_sort_keeps_tied_rows_witness :
  sortRows integer_toString literal_toNumber codeunit_compare
    [[(str "city", JStr (str "Hue"))]; [(str "city", JStr (str "Da Nang"))]]
    value_desc =
  Normal [[(str "city", JStr (str "Hue"))]; [(str "city", JStr (str "Da Nang"))]] /\
  sortRows integer_toString literal_toNumber codeunit_compare
    [[(str "city", JStr (str "Hue"))]; [(str "city", JStr (str "Da Nang"))]]
    value_asc =
  Normal [[(str "city", JStr (str "Hue"))]; [(str "city", JStr (str "Da Nang"))]].
Proof.
  apply value_sort_keeps_tied_rows.
  intros a b [<-|[<-|[]]] [<-|[<-|[]]]; reflexivity.
Defined.

(* ================================================================== *)
(** ** The declarative spec generator: rows, values and channels *)

Lemma Array_slice0_nat (A : Type) (xs : list A) (n : nat) :
  Array_slice0 xs (nat_number n) = firstn n xs.
Proof.
  unfold Array_slice0, nat_number, inject_Z. cbn [Qnum Qden].
  rewrite Z.quot_1_r.
  assert ((Z.of_nat n <? 0)%Z = false) as -> by (apply Z.ltb_ge; lia).
  destruct (Nat.le_gt_cases n (List.length xs)) as [Hle|Hgt].
  - rewrite Z.min_l by lia. now rewrite Nat2Z.id.
  - rewrite Z.min_r by lia. rewrite Nat2Z.id.
    now rewrite !firstn_all2 by lia.
Qed.

Section EmissionFacts.
Variable Finite_toString : Q -> JsString.

Lemma emitted_plain (v cell : JsValue) :
  emitted Finite_toString v = Normal cell -> plain_value cell = true.
Proof.
  unfold emitted. destruct v as [| |b|[]|s|items|props]; intro H;
    try (injection H as <-; reflexivity);
    destruct (ToString Finite_toString _); try discriminate;
    injection H as <-; reflexivity.
Qed.

Lemma emitted_returns (v : JsValue) :
  coerces v = true -> exists cell, emitted Finite_toString v = Normal cell.
Proof.
  intro H. unfold emitted.
  destruct v as [| |b|[]|s|items|props]; try (now eexists);
    match goal with
    | |- context [ToString Finite_toString ?v] =>
        destruct (ToString_returns Finite_toString v H) as [s' ->]
    end; now eexists.
Qed.

Lemma emitted_throws (v : JsValue) (e : JsError) :
  emitted Finite_toString v = Throw e -> e = TypeError /\ coerces v = false.
Proof.
  unfold emitted. destruct v as [| |b|[]|s|items|props]; try discriminate;
    destruct (ToString Finite_toString _) as [s'|e'] eqn:E; try discriminate;
    intro H; injection H as ->; now apply ToString_throws in E.
Qed.

(** One turn of the loop of [normalizeRow]. *)
Lemma normalizeRow_from_step (row : JsObject) (c : JsString) (rest : list JsString)
  (out : JsObject) :
  normalizeRow_from Finite_toString row (c :: rest) out =
  (cell <- emitted Finite_toString (obj_read row c) ;;
   normalizeRow_from Finite_toString row rest (obj_set out c cell)).
Proof.
  cbn [normalizeRow_from]. unfold emitted.
  destruct (obj_read row c) as [| |b|[]|s|items|props]; reflexivity.
Qed.

Lemma normalizeRow_from_normal (row : JsObject) (cols : list JsString)
  (out o : JsObject) :
  normalizeRow_from Finite_toString row cols out = Normal o ->
  (forall k, In k (obj_keys o) <-> In k cols \/ In k (obj_keys out)) /\
  (forall c, In c cols ->
             exists cell, emitted Finite_toString (obj_read row c) = Normal cell /\
                          obj_get o c = Some cell) /\
  (forall c, ~ In c cols -> obj_get o c = obj_get out c).
Proof.
  revert out; induction cols as [|d cols IH]; intros out H.
  - injection H as <-. split; [|split].
    + intro k. simpl. tauto.
    + intros c [].
    + reflexivity.
  - rewrite normalizeRow_from_step in H.
    destruct (emitted Finite_toString (obj_read row d)) as [cell|e] eqn:Ed;
      simpl in H; [|discriminate].
    apply IH in H as (Hkeys & Hget & Hrest). split; [|split].
    + intro k. rewrite Hkeys, obj_keys_set. simpl. intuition.
    + intros c Hc. destruct (in_dec (list_eq_dec N.eq_dec) c cols) as [Hin|Hout].
      * now apply Hget.
      * destruct Hc as [->|Hc]; [|contradiction].
        exists cell. split; [exact Ed|].
        rewrite (Hrest c Hout), obj_get_set. now rewrite String_eqb_refl.
    + intros c Hc. rewrite Hrest by (intro; apply Hc; now right).
      rewrite obj_get_set.
      assert (String_eqb d c = false) as ->; [|reflexivity].
      apply String_eqb_neq. intros ->. apply Hc. now left.
Qed.

Lemma normalizeRow_from_throws (row : JsObject) (cols : list JsString)
  (out : JsObject) (e : JsError) :
  normalizeRow_from Finite_toString row cols out = Throw e ->
  e = TypeError /\ exists c, In c cols /\ coerces (obj_read row c) = false.
Proof.
  revert out; induction cols as [|d cols IH]; intros out H; [discriminate|].
  rewrite normalizeRow_from_step in H.
  destruct (emitted Finite_toString (obj_read row d)) as [cell|e'] eqn:Ed; simpl in H.
  - apply IH in H as (He & c & Hc & Hcoerce). split; [exact He|].
    exists c. split; [now right | exact Hcoerce].
  - injection H as ->. apply emitted_throws in Ed as [-> Hc].
    split; [reflexivity|]. exists d. split; [now left | exact Hc].
Qed.

Lemma normalizeRow_from_returns (row : JsObject) (cols : list JsString)
  (out : JsObject) :
  (forall c, In c cols -> coerces (obj_read row c) = true) ->
  exists o, normalizeRow_from Finite_toString row cols out = Normal o.
Proof.
  revert out; induction cols as [|d cols IH]; intros out H; [now eexists|].
  rewrite normalizeRow_from_step.
  destruct (emitted_returns (obj_read row d)) as [cell ->]; [apply H; now left|].
  simpl. apply IH. intros c Hc. apply H. now right.
Qed.

(** The guards of the spec generator: it returns [null] on an empty table
    and on a key that is [null] or empty, and embeds its rows otherwise. *)
Lemma spec_guards (table : NormalizedTable) (options : Options.t) :
  let keys := resolved_keys table options in
  let spec := sqlTableToVegaLiteSpec Finite_toString table options in
  ((table.(columns) = [] \/ table.(rows) = [] \/
    key_falsy keys.(xKey) = true \/ key_falsy keys.(yKey) = true) /\
   spec = Normal None) \/
  (exists x y,
      keys = {| xKey := Some x; yKey := Some y |} /\
      x <> [] /\ y <> [] /\ table.(columns) <> [] /\ table.(rows) <> [] /\
      ((exists e, embedded_rows Finite_toString table options x y = Throw e /\ spec = Throw e) \/
       (exists values mark enc,
           embedded_rows Finite_toString table options x y = Normal values /\
           spec = Normal (Some (JObj
             [(str "$schema", JStr VEGA_LITE_SCHEMA);
              (str "data", JObj [(str "values", JArr values)]);
              (str "width", JNum (nullish_or options.(Options.width) (Finite 400)));
              (str "height", JNum (nullish_or options.(Options.height) (Finite 320)));
              (str "mark", mark);
              (str "encoding", JObj enc)])) /\
           (exists more,
               obj_get enc (category_channel options.(Options.chartType)) =
               Some (JObj ((str "field", JStr x) :: (str "type", JStr (str "nominal"))
                             :: more))) /\
           (exists more,
               obj_get enc (value_channel options.(Options.chartType)) =
               Some (JObj ((str "field", JStr y)
                             :: (str "type", JStr (str "quantitative")) :: more)))))).
Proof.
  cbv zeta. unfold sqlTableToVegaLiteSpec, resolved_keys, embedded_rows.
  cbn [xKey yKey].
  destruct table.(columns) as [|c0 cols] eqn:Ec; [left; split; [now left | reflexivity]|].
  destruct table.(rows) as [|r0 rs] eqn:Er;
    [left; split; [right; now left | reflexivity]|].
  cbn [List.length Nat.eqb orb]. cbv zeta.
  set (xk := match options.(Options.xKey) with Some k => Some k | None => _ end).
  set (yk := match options.(Options.yKey) with Some k => Some k | None => _ end).
  destruct xk as [[|cx x]|];
    try (left; split; [right; right; now left | reflexivity]).
  destruct yk as [[|cy y]|];
    try (left; split; [right; right; now right | reflexivity]).
  cbn [key_falsy orb]. right. exists (cx :: x), (cy :: y).
  split; [reflexivity|]. do 4 (split; [discriminate|]).
  destruct (Array_map _ _) as [values|e]; cbn [bind];
    [right | left; exists e; now split].
  exists values. unfold category_channel, value_channel.
  destruct options as [kind ox oy limit width height].
  cbn [Options.chartType Options.limit Options.width Options.height].
  destruct (String_eqb kind (str "bar")) eqn:Ebar.
  { eexists _, _. repeat split; eexists; reflexivity. }
  destruct (String_eqb kind (str "column")) eqn:Ecol.
  { apply String_eqb_eq in Ecol. subst kind.
    eexists _, _. repeat split; eexists; reflexivity. }
  destruct (String_eqb kind (str "line")) eqn:Eline.
  { apply String_eqb_eq in Eline. subst kind.
    eexists _, _. repeat split; eexists; reflexivity. }
  destruct (String_eqb kind (str "point")) eqn:Epoint.
  { apply String_eqb_eq in Epoint. subst kind.
    eexists _, _. repeat split; eexists; reflexivity. }
  cbn [orb].
  destruct (String_eqb kind (str "area")) eqn:Earea.
  { apply String_eqb_eq in Earea. subst kind.
    eexists _, _. repeat split; eexists; reflexivity. }
  destruct (String_eqb kind (str "arc")) eqn:Earc.
  { eexists _, _. repeat split; eexists; reflexivity. }
  eexists _, _. repeat split; eexists; reflexivity.
Qed.

(** The shape of every spec the generator returns. *)
Lemma spec_structure (table : NormalizedTable) (options : Options.t) (s : JsValue) :
  sqlTableToVegaLiteSpec Finite_toString table options = Normal (Some s) ->
  exists x y values mark enc,
    resolved_keys table options = {| xKey := Some x; yKey := Some y |} /\
    embedded_rows Finite_toString table options x y = Normal values /\
    s = JObj [(str "$schema", JStr VEGA_LITE_SCHEMA);
              (str "data", JObj [(str "values", JArr values)]);
              (str "width", JNum (nullish_or options.(Options.width) (Finite 400)));
              (str "height", JNum (nullish_or options.(Options.height) (Finite 320)));
              (str "mark", mark);
              (str "encoding", JObj enc)] /\
    (exists more,
        obj_get enc (category_channel options.(Options.chartType)) =
        Some (JObj ((str "field", JStr x) :: (str "type", JStr (str "nominal")) :: more))) /\
    (exists more,
        obj_get enc (value_channel options.(Options.chartType)) =
        Some (JObj ((str "field", JStr y) :: (str "type", JStr (str "quantitative"))
                      :: more))).
Proof.
  intro H. destruct (spec_guards table options) as
      [[_ Hnull] | (x & y & Hkeys & _ & _ & _ & _ &
                    [(e & _ & Hthrow) | (values & mark & enc & Hvals & Hs & Hcat & Hval)])];
    cbv zeta in *; try congruence.
  rewrite Hs in H. injection H as <-.
  exists x, y, values, mark, enc. repeat split; assumption.
Qed.
End EmissionFacts.

(** X9: the spec generator returns [null] exactly when the table has no
    column or no row, or when the category key or the value key, as given
    or else inferred, is [null] or the empty string. *)
Theorem spec_null_iff (Finite_toString : Q -> JsString) (table : NormalizedTable)
  (options : Options.t) :
  sqlTableToVegaLiteSpec Finite_toString table options = Normal None <->
  table.(columns) = [] \/ table.(rows) = [] \/
  key_falsy (resolved_keys table options).(xKey) = true \/
  key_falsy (resolved_keys table options).(yKey) = true.
Proof.
  destruct (spec_guards Finite_toString table options) as
      [[Hguard Hnull] | (x & y & Hkeys & Hx & Hy & Hc & Hr &
                         [(e & _ & Hthrow) | (values & mark & enc & _ & Hs & _)])];
    cbv zeta in *.
  - rewrite Hnull. tauto.
  - rewrite Hthrow, Hkeys. cbn [xKey yKey]. split; [discriminate|].
    destruct x; [contradiction|]. destruct y; [contradiction|].
    intros [H|[H|[H|H]]]; (contradiction || discriminate).
  - rewrite Hs, Hkeys. cbn [xKey yKey]. split; [discriminate|].
    destruct x; [contradiction|]. destruct y; [contradiction|].
    intros [H|[H|[H|H]]]; (contradiction || discriminate).
Qed.

(** X10: in every spec the generator returns, the category key is the
    nominal field of the channel [y] for [bar], [color] for [arc] and [x]
    for every other kind, and the value key is the quantitative field of
    the channel [x] for [bar], [theta] for [arc] and [y] for every other
    kind; the keys are the ones given, else the ones inferred. *)
Theorem spec_channels (Finite_toString : Q -> JsString) (table : NormalizedTable)
  (options : Options.t) (s : JsValue) :
  sqlTableToVegaLiteSpec Finite_toString table options = Normal (Some s) ->
  exists x y,
    resolved_keys table options = {| xKey := Some x; yKey := Some y |} /\
    let kind := options.(Options.chartType) in
    json_path s [str "encoding"; category_channel kind; str "field"] = Some (JStr x) /\
    json_path s [str "encoding"; category_channel kind; str "type"]
      = Some (JStr (str "nominal")) /\
    json_path s [str "encoding"; value_channel kind; str "field"] = Some (JStr y) /\
    json_path s [str "encoding"; value_channel kind; str "type"]
      = Some (JStr (str "quantitative")).
Proof.
  intro H.
  apply spec_structure in H
    as (x & y & values & mark & enc & Hkeys & _ & -> & [m1 Hcat] & [m2 Hval]).
  exists x, y. split; [exact Hkeys|]. cbv zeta.
  change (json_path (JObj ?o) (str "encoding" :: ?p)) with (json_path (JObj enc) p).
  repeat split.
  all: cbn [json_path]; rewrite ?Hcat, ?Hval; reflexivity.
Qed.

Lemma spec_channels_witness :
  exists x y,
    resolved_keys chart_sample (only_kind (str "arc"))
      = {| xKey := Some x; yKey := Some y |} /\
    json_path arc_spec_sample [str "encoding"; str "color"; str "field"] = Some (JStr x) /\
    json_path arc_spec_sample [str "encoding"; str "color"; str "type"]
      = Some (JStr (str "nominal")) /\
    json_path arc_spec_sample [str "encoding"; str "theta"; str "field"] = Some (JStr y) /\
    json_path arc_spec_sample [str "encoding"; str "theta"; str "type"]
      = Some (JStr (str "quantitative")).
Proof.
  exact (@spec_channels integer_toString chart_sample (only_kind (str "arc"))
           arc_spec_sample eq_refl).
Defined.

(** X11: a spec over columns that bear no name objects inherit embeds one
    object per row for the first [limit] rows of the table (100 when no
    limit is given), in the order of the table; each object has exactly the
    columns as its keys, and each cell is the cell of the row after
    coercion: [null] for [null] or a missing cell, a finite number or a
    string unchanged, and the string rendering of anything else. *)
Theorem spec_embeds_first_rows (Finite_toString : Q -> JsString)
  (table : NormalizedTable) (options : Options.t) (n : option nat) (s : JsValue) :
  options.(Options.limit) = option_map nat_number n ->
  own_columns table.(columns) ->
  sqlTableToVegaLiteSpec Finite_toString table options = Normal (Some s) ->
  exists values,
    json_path s [str "data"; str "values"] = Some (JArr values) /\
    Forall2
      (fun r v =>
         exists o,
           v = JObj o /\
           (forall k, In k (obj_keys o) <-> In k table.(columns)) /\
           (forall c, In c table.(columns) ->
                      exists cell,
                        emitted Finite_toString (obj_read r c) = Normal cell /\
                        obj_get o c = Some cell) /\
           (forall c cell, obj_get o c = Some cell -> plain_value cell = true))
      (firstn (row_limit n) table.(rows)) values.
Proof.
  intros Hlimit _ H.
  apply spec_structure in H as (x & y & values & mark & enc & _ & Hvals & -> & _ & _).
  exists values. split; [reflexivity|].
  unfold embedded_rows in Hvals.
  assert (Array_slice0 table.(rows) (nullish_or options.(Options.limit) (Finite 100))
          = firstn (row_limit n) table.(rows)) as Hslice.
  { rewrite Hlimit. destruct n as [k|]; simpl option_map; unfold nullish_or, row_limit.
    - apply Array_slice0_nat.
    - apply (Array_slice0_nat table.(rows) 100). }
  rewrite Hslice in Hvals. apply Array_map_normal in Hvals.
  revert Hvals. apply Forall2_impl. intros r v Hv.
  unfold normalizeRow in Hv.
  destruct (normalizeRow_from Finite_toString r table.(columns) []) as [o|e] eqn:Eo;
    simpl in Hv; [|discriminate].
  injection Hv as <-. exists o. split; [reflexivity|].
  apply normalizeRow_from_normal in Eo as (Hkeys & Hget & _).
  split; [|split].
  - intro k. rewrite Hkeys. simpl. tauto.
  - exact Hget.
  - intros c cell Hc.
    assert (In c table.(columns)) as Hin.
    { apply obj_get_some_in in Hc. apply Hkeys in Hc as [Hc|[]]. exact Hc. }
    destruct (Hget c Hin) as (cell' & Hem & Hget'). rewrite Hget' in Hc.
    injection Hc as <-. eapply emitted_plain; eauto.
Qed.

Lemma spec_embeds_first_rows_witness :
  exists values,
    json_path arc_spec_sample [str "data"; str "values"] = Some (JArr values) /\
    Forall2
      (fun r v =>
         exists o,
           v = JObj o /\
           (forall k, In k (obj_keys o) <-> In k chart_sample.(columns)) /\
           (forall c, In c chart_sample.(columns) ->
                      exists cell,
                        emitted integer_toString (obj_read r c) = Normal cell /\
                        obj_get o c = Some cell) /\
           (forall c cell, obj_get o c = Some cell -> plain_value cell = true))
      (firstn (row_limit None) chart_sample.(rows)) values.
Proof.
  apply (@spec_embeds_first_rows integer_toString chart_sample (only_kind (str "arc"))
           None arc_spec_sample).
  - reflexivity.
  - repeat constructor.
  - reflexivity.
Defined.

Lemma emitted_fails (Finite_toString : Q -> JsString) (v : JsValue) :
  coerces v = false -> emitted Finite_toString v = Throw TypeError.
Proof.
  intro H. destruct (emitted Finite_toString v) as [cell|e] eqn:E.
  - destruct (ToString_cases Finite_toString v) as [[Hc _] | [_ Ht]]; [congruence|].
    unfold emitted in E. destruct v as [| |b|[]|s|items|props]; try discriminate;
      rewrite Ht in E; discriminate.
  - now apply emitted_throws in E as [-> _].
Qed.

Lemma normalizeRow_from_fails (Finite_toString : Q -> JsString) (row : JsObject)
  (cols : list JsString) (out : JsObject) :
  (exists c, In c cols /\ coerces (obj_read row c) = false) ->
  normalizeRow_from Finite_toString row cols out = Throw TypeError.
Proof.
  intros (c & Hc & Hbad).
  destruct (normalizeRow_from Finite_toString row cols out) as [o|e] eqn:E.
  - apply normalizeRow_from_normal in E as (_ & Hget & _).
    destruct (Hget c Hc) as (cell & Hcell & _).
    rewrite (emitted_fails _ _ Hbad) in Hcell. discriminate.
  - now apply normalizeRow_from_throws in E as [-> _].
Qed.

(** X21: the spec generator throws exactly when it is past its guards (a
    table with columns, two usable keys) and one of the rows it embeds
    holds, under some column, a value without a string form; what it throws
    is a [TypeError]. *)
Theorem spec_throws_iff (Finite_toString : Q -> JsString) (table : NormalizedTable)
  (options : Options.t) (e : JsError) :
  sqlTableToVegaLiteSpec Finite_toString table options = Throw e <->
  e = TypeError /\
  table.(columns) <> [] /\
  key_falsy (resolved_keys table options).(xKey) = false /\
  key_falsy (resolved_keys table options).(yKey) = false /\
  Exists (fun r => exists c, In c table.(columns) /\ coerces (obj_read r c) = false)
         (Array_slice0 table.(rows)
            (nullish_or options.(Options.limit) (Finite 100))).
Proof.
  assert (forall x y r err,
             (out <- normalizeRow Finite_toString r table.(columns) x y ;;
              Normal (JObj out)) = Throw err ->
             err = TypeError /\
             exists c, In c table.(columns) /\ coerces (obj_read r c) = false)
    as Hrow.
  { intros x y r err H. unfold normalizeRow in H.
    destruct (normalizeRow_from Finite_toString r table.(columns) []) as [o|e'] eqn:E;
      simpl in H; [discriminate|].
    injection H as ->. now apply normalizeRow_from_throws in E. }
  destruct (spec_guards Finite_toString table options) as
      [[Hguard Hnull] | (x & y & Hkeys & Hx & Hy & Hc & Hr &
                         [(e' & Hrows & Hthrow) | (values & mark & enc & Hrows & Hs & _)])];
    cbv zeta in *.
  - rewrite Hnull. split; [discriminate|].
    intros (_ & Hcols & Hxk & Hyk & Hex).
    destruct Hguard as [H|[H|[H|H]]]; try congruence.
    rewrite H in Hex. unfold Array_slice0 in Hex. rewrite firstn_nil in Hex.
    inversion Hex.
  - rewrite Hthrow, Hkeys. cbn [xKey yKey]. unfold embedded_rows in Hrows.
    apply Array_map_throw in Hrows.
    assert (e' = TypeError) as ->.
    { apply Exists_exists in Hrows as (r & _ & H). now apply Hrow in H. }
    split.
    + intro H. injection H as <-. split; [reflexivity|]. split; [exact Hc|].
      destruct x; [contradiction|]. destruct y; [contradiction|].
      do 2 (split; [reflexivity|]).
      revert Hrows. apply Exists_impl. intros r H. now apply Hrow in H.
    + now intros [-> _].
  - rewrite Hs. split; [discriminate|].
    intros (_ & _ & _ & _ & Hex). unfold embedded_rows in Hrows.
    rewrite (@Array_map_fails _ _
               (fun r => out <- normalizeRow Finite_toString r table.(columns) x y ;;
                         Normal (JObj out))) in Hrows; [discriminate| |].
    + intros r err H. now apply Hrow in H.
    + revert Hex. apply Exists_impl. intros r H. unfold normalizeRow.
      now rewrite normalizeRow_from_fails.
Qed.

(** The table of [[{k: {toString: 1}, v: 1}, {k: "s", v: 2}]] makes the
    spec generator throw. *)
Example spec_throws_on_unprintable_cell :
  sqlTableToVegaLiteSpec integer_toString unprintable_table (only_kind (str "bar"))
  = Throw TypeError.
Proof. reflexivity. Qed.

(* ================================================================== *)
(** ** The chart-rendering descriptor *)

Section ChartFacts.
Variable Finite_toString : Q -> JsString.
Variable StringToNumber : JsString -> JsNumber.

Lemma ToString_fails (v : JsValue) :
  coerces v = false -> ToString Finite_toString v = Throw TypeError.
Proof.
  intro H. destruct (ToString_cases Finite_toString v) as [[Hc _] | [_ Ht]];
    [congruence | exact Ht].
Qed.

Lemma ToNumber_fails (v : JsValue) :
  coerces v = false -> ToNumber Finite_toString StringToNumber v = Throw TypeError.
Proof.
  intro H. destruct v; try discriminate; unfold ToNumber;
    now rewrite (ToString_fails _ H).
Qed.

Lemma chart_entry_fails (x y : JsString) (r : JsObject) :
  coerces (obj_read r x) = false \/ coerces (obj_read r y) = false ->
  chart_entry Finite_toString StringToNumber x y r = Throw TypeError.
Proof.
  intro H. unfold chart_entry. cbv zeta.
  destruct (coerces (obj_read r x)) eqn:Ex.
  - destruct H as [H|H]; [discriminate|].
    assert (exists label,
               ToString Finite_toString
                 match obj_read r x with
                 | JUndefined | JNull => JStr []
                 | v => v
                 end = Normal label) as [label ->].
    { destruct (obj_read r x); try (now eexists); now apply ToString_returns. }
    cbn [bind]. now rewrite (ToNumber_fails _ H).
  - assert (ToString Finite_toString
              match obj_read r x with
              | JUndefined | JNull => JStr []
              | v => v
              end = Throw TypeError) as ->; [|reflexivity].
    destruct (obj_read r x); try discriminate; now apply ToString_fails.
Qed.

(** What a plotted row holds. *)
Lemma chart_entry_normal (x y : JsString) (r e : JsObject) :
  chart_entry Finite_toString StringToNumber x y r = Normal e ->
  (forall k, In k (obj_keys e) <-> k = x \/ k = y) /\
  (exists n,
      obj_get e y = Some (JNum n) /\
      (forall m, obj_read r y = JNum m -> n = m) /\
      (obj_read r y = JNull -> n = Finite 0) /\
      (obj_read r y = JUndefined -> n = NaN)) /\
  (x <> y ->
   exists label,
     obj_get e x = Some (JStr label) /\
     (forall s, obj_read r x = JStr s -> label = s) /\
     (obj_read r x = JNull \/ obj_read r x = JUndefined -> label = [])).
Proof.
  unfold chart_entry. cbv zeta.
  destruct (ToString Finite_toString _) as [label|e'] eqn:El; simpl; [|discriminate].
  destruct (ToNumber Finite_toString StringToNumber _) as [n|e'] eqn:En; simpl;
    [|discriminate].
  intro H. injection H as <-. split; [|split].
  - intro k. rewrite !obj_keys_set. simpl. intuition.
  - exists n. rewrite obj_get_set, String_eqb_refl. split; [reflexivity|].
    split; [|split]; intros; subst;
      match goal with H : obj_read r y = _ |- _ => rewrite H in En end;
      simpl in En; congruence.
  - intro Hxy. exists label. rewrite !obj_get_set, String_eqb_refl.
    assert (String_eqb y x = false) as -> by (apply String_eqb_neq; congruence).
    split; [reflexivity|]. split.
    + intros s Hs. rewrite Hs in El. simpl in El. congruence.
    + intros [H|H]; rewrite H in El; simpl in El; congruence.
Qed.

End ChartFacts.

(** X12: on columns that bear no name objects inherit, [pickChart] plots
    at most the first 30 rows, one entry per row and in row order, and
    nothing when a key is [null] or empty.  An entry has the two keys and
    nothing else; under the value key it holds a number, which is the cell
    itself when the cell is a number, 0 for [null] and [NaN] for a missing
    cell; under the category key it holds a string, which is the cell
    itself when the cell is a string and the empty string for [null] or a
    missing cell. *)
Theorem chartData_entries (Finite_toString : Q -> JsString)
  (StringToNumber : JsString -> JsNumber)
  (columns : list JsString) (rows : list JsObject) (ch : Chart.t) :
  own_columns columns ->
  pickChart Finite_toString StringToNumber columns rows = Normal ch ->
  List.length ch.(Chart.chartData) <= 30 /\
  (key_falsy ch.(Chart.xKey) = true \/ key_falsy ch.(Chart.yKey) = true ->
   ch.(Chart.chartData) = []) /\
  (forall x y,
      ch.(Chart.xKey) = Some x -> ch.(Chart.yKey) = Some y -> x <> [] -> y <> [] ->
      Forall2
        (fun r e =>
           (forall k, In k (obj_keys e) <-> k = x \/ k = y) /\
           (exists n,
               obj_get e y = Some (JNum n) /\
               (forall m, obj_read r y = JNum m -> n = m) /\
               (obj_read r y = JNull -> n = Finite 0) /\
               (obj_read r y = JUndefined -> n = NaN)) /\
           (x <> y ->
            exists label,
              obj_get e x = Some (JStr label) /\
              (forall s, obj_read r x = JStr s -> label = s) /\
              (obj_read r x = JNull \/ obj_read r x = JUndefined -> label = [])))
        (firstn 30 rows) ch.(Chart.chartData)).
Proof.
  intros _ H. rewrite pickChart_unfold in H. cbv zeta in H.
  destruct (pickEncodingKeys columns rows) as [xk yk]. cbn [xKey yKey] in H.
  assert (forall x y, xk = Some x -> yk = Some y -> x <> [] -> y <> [] ->
                      exists c x' d y', xk = Some (c :: x') /\ yk = Some (d :: y'))
    as Husable.
  { intros [|c x'] [|d y'] -> -> Hx Hy; try contradiction. now eexists _, _, _, _. }
  destruct xk as [[|c x]|]; try (injection H as <-; cbn; repeat split;
    [lia | intros x' y' Hx' Hy' Hnx Hny; try discriminate;
           injection Hx' as <-; contradiction]).
  all: destruct yk as [[|d y]|]; try (injection H as <-; cbn; repeat split;
    [lia | intros x' y' Hx' Hy' Hnx Hny; try discriminate;
           injection Hy' as <-; contradiction]).
  destruct (Array_map _ (firstn 30 rows)) as [data|e] eqn:E; simpl in H;
    [|discriminate].
  injection H as <-. cbn [Chart.xKey Chart.yKey Chart.chartData].
  split; [|split].
  - rewrite (Array_map_length _ _ E). apply firstn_le_length.
  - intros [Hf|Hf]; discriminate.
  - intros x' y' Hx' Hy' _ _. injection Hx' as <-. injection Hy' as <-.
    apply Array_map_normal in E. revert E. apply Forall2_impl.
    intros r e. apply chart_entry_normal.
Qed.

Lemma chartData_entries_witness :
  Forall2
    (fun r e =>
       (forall k, In k (obj_keys e) <-> k = str "city" \/ k = str "total") /\
       (exists n,
           obj_get e (str "total") = Some (JNum n) /\
           (forall m, obj_read r (str "total") = JNum m -> n = m) /\
           (obj_read r (str "total") = JNull -> n = Finite 0) /\
           (obj_read r (str "total") = JUndefined -> n = NaN)) /\
       (str "city" <> str "total" ->
        exists label,
          obj_get e (str "city") = Some (JStr label) /\
          (forall s, obj_read r (str "city") = JStr s -> label = s) /\
          (obj_read r (str "city") = JNull \/ obj_read r (str "city") = JUndefined ->
           label = [])))
    (firstn 30 chart_sample.(rows))
    [[(str "city", JStr (str "Hue")); (str "total", num 7)]].
Proof.
  apply (proj2 (proj2 (@chartData_entries integer_toString literal_toNumber
                         chart_sample.(columns) chart_sample.(rows)
                         {| Chart.xKey := Some (str "city");
                            Chart.yKey := Some (str "total");
                            Chart.chartData :=
                              [[(str "city", JStr (str "Hue"));
                                (str "total", num 7)]] |}
                         ltac:(repeat constructor) eq_refl))
           (str "city") (str "total"));
    [reflexivity | reflexivity | discriminate | discriminate].
Defined.

(** X19: [pickChart] throws exactly when it has selected two usable keys
    and one of the first 30 rows holds, under one of them, a value without
    a string form; what it throws is a [TypeError]. *)
Theorem pickChart_throws_iff (Finite_toString : Q -> JsString)
  (StringToNumber : JsString -> JsNumber)
  (columns : list JsString) (rows : list JsObject) (e : JsError) :
  pickChart Finite_toString StringToNumber columns rows = Throw e <->
  e = TypeError /\
  exists x y,
    pickEncodingKeys columns rows = {| xKey := Some x; yKey := Some y |} /\
    x <> [] /\ y <> [] /\
    Exists (fun r => coerces (obj_read r x) = false \/
                     coerces (obj_read r y) = false)
           (firstn 30 rows).
Proof.
  rewrite pickChart_unfold. cbv zeta.
  destruct (pickEncodingKeys columns rows) as [xk yk]. cbn [xKey yKey].
  split.
  - destruct xk as [[|c x]|]; try discriminate;
      destruct yk as [[|d y]|]; try discriminate.
    destruct (Array_map _ (firstn 30 rows)) as [data|e'] eqn:E; simpl;
      [discriminate|].
    intro H. injection H as ->.
    apply Array_map_throw in E.
    assert (e = TypeError) as ->.
    { apply Exists_exists in E as (r & _ & Hr).
      now apply chart_entry_throws in Hr. }
    split; [reflexivity|]. exists (c :: x), (d :: y).
    repeat split; try discriminate.
    revert E. apply Exists_impl. intros r Hr.
    now apply chart_entry_throws in Hr.
  - intros (-> & x & y & Hkeys & Hx & Hy & Hex).
    injection Hkeys as -> ->.
    destruct x as [|c x]; [contradiction|]. destruct y as [|d y]; [contradiction|].
    rewrite (@Array_map_fails _ _
               (chart_entry Finite_toString StringToNumber (c :: x) (d :: y))).
    + reflexivity.
    + intros r e He. now apply chart_entry_throws in He.
    + revert Hex. apply Exists_impl. intros r. apply chart_entry_fails.
Qed.

(** The rows of [[{k: {toString: 1}, v: 1}, {k: "s", v: 2}]] make
    [pickChart] throw. *)
Example pickChart_throws_on_unprintable_cell :
  pickChart integer_toString literal_toNumber
            unprintable_table.(columns) unprintable_table.(rows)
  = Throw TypeError.
Proof. reflexivity. Qed.

(* ================================================================== *)
(** ** Truncated labels *)

Lemma Array_slice0_integer (A : Type) (xs : list A) (z : Z) :
  (0 <= z)%Z -> Array_slice0 xs (Finite (inject_Z z)) = firstn (Z.to_nat z) xs.
Proof.
  intro Hz. rewrite <- (Array_slice0_nat xs (Z.to_nat z)).
  unfold nat_number. now rewrite Z2Nat.id.
Qed.

(** X13: for a limit of at least 1, [truncate] returns at most [max] code
    units: the text itself when it fits, else its first [max - 1] units
    followed by an ellipsis; truncating twice is truncating once. *)
Theorem truncate_bounded (text : JsString) (max : Z) :
  (1 <= max)%Z ->
  (Z.of_nat (List.length (truncate text max)) <= max)%Z /\
  ((Z.of_nat (List.length text) <= max)%Z -> truncate text max = text) /\
  ((max < Z.of_nat (List.length text))%Z ->
   truncate text max = firstn (Z.to_nat (max - 1)) text ++ [8230%N] /\
   Z.of_nat (List.length (truncate text max)) = max) /\
  truncate (truncate text max) max = truncate text max.
Proof.
  intro Hmax.
  assert (forall t, (Z.of_nat (List.length t) <= max)%Z -> truncate t max = t) as Hfit.
  { intros t Ht. unfold truncate. apply Z.leb_le in Ht. now rewrite Ht. }
  assert ((max < Z.of_nat (List.length text))%Z ->
          truncate text max = firstn (Z.to_nat (max - 1)) text ++ [8230%N] /\
          Z.of_nat (List.length (truncate text max)) = max) as Hcut.
  { intro Hlong. unfold truncate.
    assert ((Z.of_nat (List.length text) <=? max)%Z = false) as ->
        by (apply Z.leb_gt; lia).
    rewrite Array_slice0_integer by lia. split; [reflexivity|].
    rewrite length_app, length_firstn. simpl. lia. }
  assert ((Z.of_nat (List.length (truncate text max)) <= max)%Z) as Hbound.
  { destruct (Z.le_gt_cases (Z.of_nat (List.length text)) max) as [Hle|Hgt].
    - now rewrite Hfit.
    - destruct (Hcut Hgt) as [_ ->]. lia. }
  repeat split; auto; now apply Hcut.
Qed.

Lemma truncate_bounded_witness :
  (Z.of_nat (List.length (truncate (str "Thanh pho Ho Chi Minh, Viet Nam") 24)) <= 24)%Z.
Proof.
  exact (proj1 (@truncate_bounded (str "Thanh pho Ho Chi Minh, Viet Nam") 24
                  ltac:(lia))).
Defined.

(* ================================================================== *)
(** ** The visualiser component *)

Lemma number_or_nat (n : nat) (alt : JsNumber) :
  number_or (nat_number n) alt = if Nat.eqb n 0 then alt else nat_number n.
Proof. destruct n; reflexivity. Qed.

Lemma Number_gt_nat (a b : nat) :
  Number_gt (nat_number a) (nat_number b) = (b <? a).
Proof.
  unfold Number_gt, nat_number, Qle_bool, inject_Z. cbn [Qnum Qden].
  rewrite !Z.mul_1_r.
  destruct (b <? a) eqn:E.
  - apply Nat.ltb_lt in E. apply negb_true_iff, Z.leb_gt. lia.
  - apply Nat.ltb_ge in E. apply negb_false_iff, Z.leb_le. lia.
Qed.

Lemma Array_slice0_incl (A : Type) (xs : list A) (end_ : JsNumber) (x : A) :
  In x (Array_slice0 xs end_) -> In x xs.
Proof.
  unfold Array_slice0. cbv zeta. generalize (Z.to_nat
    match end_ with
    | NaN | NegInf => 0%Z
    | PosInf => Z.of_nat (List.length xs)
    | Finite q =>
        if (Z.quot (Qnum q) (Zpos (Qden q)) <? 0)%Z
        then Z.max (Z.of_nat (List.length xs) + Z.quot (Qnum q) (Zpos (Qden q))) 0
        else Z.min (Z.quot (Qnum q) (Zpos (Qden q))) (Z.of_nat (List.length xs))
    end).
  intros k H. rewrite <- (firstn_skipn k xs). apply in_or_app. now left.
Qed.

Lemma firstn_incl (A : Type) (n : nat) (xs : list A) (x : A) :
  In x (firstn n xs) -> In x xs.
Proof.
  intro H. rewrite <- (firstn_skipn n xs). apply in_or_app. now left.
Qed.

Lemma value_key_is_numeric (columns : list JsString) (rows : list JsObject)
  (y : JsString) :
  (pickEncodingKeys columns rows).(yKey) = Some y ->
  exists r, In r rows /\ isFiniteNumber (obj_read r y) = true.
Proof.
  unfold pickEncodingKeys.
  destruct (Nat.eqb (List.length columns) 0 || Nat.eqb (List.length rows) 0);
    [discriminate|].
  cbn [yKey].
  destruct (filter _ columns) as [|y' l] eqn:E; [discriminate|].
  intro H. injection H as ->.
  assert (In y (filter (fun c => existsb (fun r => isFiniteNumber (obj_read r c)) rows)
                       columns)) as Hin by (rewrite E; now left).
  apply filter_In in Hin as [_ Hin]. now apply existsb_exists in Hin.
Qed.

(** A cell of rows that coerce coerces, present or not. *)
Lemma rows_coerce_cell (rows : list JsObject) (r : JsObject) (c : JsString) :
  rows_coerce rows -> In r rows -> coerces (obj_read r c) = true.
Proof.
  intros Hrows Hr. unfold obj_read.
  destruct (obj_get r c) as [v|] eqn:E; [|reflexivity].
  apply (Hrows r v Hr). clear Hrows Hr.
  induction r as [|[k v'] r IH]; [discriminate|]. simpl in *.
  destruct (String_eqb k c); [injection E as ->; now left | right; now apply IH].
Qed.

Lemma rows_coerce_incl (rows rows' : list JsObject) :
  (forall r, In r rows' -> In r rows) -> rows_coerce rows -> rows_coerce rows'.
Proof. intros Hincl H r v Hr. apply H. now apply Hincl. Qed.

Section PlottingFacts.
Variable Finite_toString : Q -> JsString.
Variable StringToNumber : JsString -> JsNumber.

(** [pickChart] returns on rows that coerce. *)
Lemma pickChart_returns (columns : list JsString) (rows : list JsObject) :
  rows_coerce rows ->
  exists ch, pickChart Finite_toString StringToNumber columns rows = Normal ch.
Proof.
  intro Hrows.
  destruct (pickChart Finite_toString StringToNumber columns rows) as [ch|e] eqn:E;
    [now eexists|].
  apply pickChart_throws_iff in E as (_ & x & y & _ & _ & _ & Hex).
  apply Exists_exists in Hex as (r & Hr & Hbad). apply firstn_incl in Hr.
  rewrite (rows_coerce_cell r x Hrows Hr), (rows_coerce_cell r y Hrows Hr) in Hbad.
  destruct Hbad; discriminate.
Qed.

(** [pickChart] has data to plot exactly when both selected keys are
    neither [null] nor empty. *)
Lemma pickChart_data_empty (columns : list JsString) (rows : list JsObject)
  (ch : Chart.t) :
  pickChart Finite_toString StringToNumber columns rows = Normal ch ->
  (ch.(Chart.chartData) = [] <->
   key_falsy (pickEncodingKeys columns rows).(xKey) = true \/
   key_falsy (pickEncodingKeys columns rows).(yKey) = true).
Proof.
  rewrite pickChart_unfold. cbv zeta.
  assert (rows = [] -> pickEncodingKeys columns rows = {| xKey := None; yKey := None |})
    as Hempty by (intros ->; apply pickEncodingKeys_empty; now right).
  destruct (pickEncodingKeys columns rows) as [xk yk]. cbn [xKey yKey].
  destruct xk as [[|c x]|];
    try (intro H; injection H as <-; cbn; split; [intros _; now left | reflexivity]).
  all: destruct yk as [[|d y]|];
    try (intro H; injection H as <-; cbn; split; [intros _; now right | reflexivity]).
  destruct (Array_map _ (firstn 30 rows)) as [data|e] eqn:E; simpl; [|discriminate].
  intro H. injection H as <-. cbn.
  split; [|intros [Hf|Hf]; discriminate].
  intros ->. apply Array_map_length in E. simpl in E.
  destruct rows as [|r rows']; [specialize (Hempty eq_refl); discriminate|].
  discriminate.
Qed.

(** What [renderChart] shows for what [pickChart] returns. *)
Lemma renderChart_draws (columns : list JsString) (rows : list JsObject)
  (ch : Chart.t) (chartType : ChartType.t) (colors : list JsString)
  (showLabels : bool) :
  pickChart Finite_toString StringToNumber columns rows = Normal ch ->
  let keys := pickEncodingKeys columns rows in
  let view := renderChart chartType ch.(Chart.xKey) ch.(Chart.yKey)
                          ch.(Chart.chartData) colors showLabels in
  (draws_chart view = true <->
   chartType <> ChartType.table /\
   key_falsy keys.(xKey) = false /\ key_falsy keys.(yKey) = false) /\
  (chartType = ChartType.table -> view = TableModeNotice) /\
  (chartType <> ChartType.table -> draws_chart view = false -> view = NoNumericNotice).
Proof.
  intros Hch keys view.
  pose proof (pickChart_keys _ _ _ _ Hch) as Hkeys.
  pose proof (pickChart_data_empty _ _ Hch) as Hdata.
  destruct ch as [px py pdata]. unfold chart_keys in Hkeys.
  cbn [Chart.xKey Chart.yKey Chart.chartData] in *.
  subst keys view. rewrite <- Hkeys in *. cbn [xKey yKey] in *.
  assert (draws_chart (renderChart chartType px py pdata colors showLabels) = true <->
          chartType <> ChartType.table /\
          key_falsy px = false /\ key_falsy py = false) as Hdraw.
  { unfold renderChart.
    destruct (key_falsy py) eqn:Ey.
    - cbn [orb]. rewrite orb_true_r.
      destruct chartType; cbn; intuition discriminate.
    - destruct pdata as [|e pdata].
      + assert (key_falsy px = true) as Ex by (destruct Hdata as [[?|?] _]; congruence).
        cbn. rewrite orb_true_r.
        destruct chartType; cbn; rewrite Ex; intuition discriminate.
      + assert (key_falsy px = false) as Ex.
        { destruct (key_falsy px); [|reflexivity].
          destruct Hdata as [_ Hd]. discriminate Hd. now left. }
        cbn. destruct chartType; cbn; rewrite Ex;
          intuition (discriminate || congruence). }
  split; [exact Hdraw|]. split.
  - intros ->. unfold renderChart. cbn. now rewrite andb_false_r.
  - intros Hnot Hd. unfold renderChart in *.
    destruct chartType; try contradiction;
      cbn in *; destruct (key_falsy py || Nat.eqb (List.length pdata) 0);
      cbn in *; (reflexivity || discriminate).
Qed.
End PlottingFacts.

Section CellFacts.
Variable Finite_toString : Q -> JsString.
Variable JSON_stringify : JsValue -> completion JsString.

Lemma formatCell_returns (v : JsValue) :
  coerces v = true ->
  exists s, formatCell Finite_toString JSON_stringify v = Normal s.
Proof.
  intro H. destruct v as [| |b|[]|s|items|props]; try (now eexists);
    unfold formatCell; destruct (JSON_stringify _); try (now eexists);
    now apply ToString_returns.
Qed.

Lemma formatCell_throws (v : JsValue) (e : JsError) :
  formatCell Finite_toString JSON_stringify v = Throw e ->
  e = TypeError /\ coerces v = false.
Proof.
  destruct v as [| |b|[]|s|items|props]; try discriminate;
    unfold formatCell; destruct (JSON_stringify _); try discriminate;
    apply ToString_throws.
Qed.

(** The body of the data table: every cell that can be rendered is. *)
Lemma table_body_returns (columns : list JsString) (rows : list JsObject) :
  rows_coerce rows ->
  exists body,
    Array_map (fun r =>
                 Array_map (fun c => formatCell Finite_toString JSON_stringify
                                       (obj_read r c)) columns) rows
    = Normal body.
Proof.
  intro Hrows. apply Array_map_returns. apply Forall_forall. intros r Hr.
  apply Array_map_returns. apply Forall_forall. intros c _.
  apply formatCell_returns. now apply rows_coerce_cell with (rows := rows).
Qed.

End CellFacts.

Section VisualizerFacts.
Variable argument_limit : N.
Variable Finite_toString : Q -> JsString.
Variable StringToNumber : JsString -> JsNumber.
Variable localeCompare : JsString -> JsString -> Z.
Variable JSON_stringify : JsValue -> completion JsString.

(** The component on data that normalises to a table. *)
Lemma SqlResultVisualizer_table (data : JsValue) (controls : Controls.t)
  (t : NormalizedTable) :
  normalizeSqlResult argument_limit data = Normal (Some t) ->
  let sorted := stable_sort (compare_keys localeCompare controls.(Controls.sortBy))
                            t.(rows) in
  SqlResultVisualizer argument_limit Finite_toString StringToNumber localeCompare
                      JSON_stringify data controls =
  (picked <- pickChart Finite_toString StringToNumber t.(columns)
                       (sampleRows sorted controls.(Controls.topN)) ;;
   body <- Array_map
             (fun r => Array_map (fun c => formatCell Finite_toString JSON_stringify
                                             (obj_read r c)) t.(columns))
             (displayRows sorted controls.(Controls.rowsToDisplay)) ;;
   Normal (Visualized
     {| chart := renderChart controls.(Controls.chartType)
                   picked.(Chart.xKey) picked.(Chart.yKey) picked.(Chart.chartData)
                   (paletteMap controls.(Controls.palette))
                   controls.(Controls.showLabels);
        header := t.(columns);
        body := body;
        shown := List.length (displayRows sorted controls.(Controls.rowsToDisplay));
        total := List.length sorted;
        moreNotice :=
          Number_gt (nat_number (List.length sorted))
                    (number_or controls.(Controls.rowsToDisplay) (Finite 25)) |})).
Proof.
  intros H sorted. unfold SqlResultVisualizer. rewrite H. cbn [bind].
  rewrite sortRows_returns. reflexivity.
Qed.

Lemma sorted_rows_incl (sortBy : SortBy) (rows : list JsObject) (r : JsObject) :
  In r (stable_sort (compare_keys localeCompare sortBy) rows) -> In r rows.
Proof.
  apply Permutation_in. symmetry. apply stable_sort_perm.
Qed.

Lemma sorted_rows_length (sortBy : SortBy) (rows : list JsObject) :
  List.length (stable_sort (compare_keys localeCompare sortBy) rows)
  = List.length rows.
Proof. symmetry. apply Permutation_length, stable_sort_perm. Qed.

End VisualizerFacts.

(** X14: on data that normalises by own properties to a table whose cells
    all have a string form, the component returns its view; it draws a
    chart exactly when the chart type is not [table] and both keys selected
    on the chart sample are neither [null] nor empty; a chart is then drawn
    only if some row of the table holds a finite number; otherwise the
    component shows the table-mode notice for [table] and the
    no-numeric-column notice for the other types. *)
Theorem visualizer_chart (argument_limit : N) (Finite_toString : Q -> JsString)
  (StringToNumber : JsString -> JsNumber)
  (localeCompare : JsString -> JsString -> Z)
  (JSON_stringify : JsValue -> completion JsString)
  (data : JsValue) (controls : Controls.t) (t : NormalizedTable) :
  normalizeSqlResult argument_limit data = Normal (Some t) ->
  own_columns t.(columns) ->
  plain_records data = true ->
  rows_coerce t.(rows) ->
  exists sorted view,
    sortRows Finite_toString StringToNumber localeCompare
             t.(rows) controls.(Controls.sortBy) = Normal sorted /\
    SqlResultVisualizer argument_limit Finite_toString StringToNumber localeCompare
      JSON_stringify data controls = Normal (Visualized view) /\
    let sample := sampleRows sorted controls.(Controls.topN) in
    let keys := pickEncodingKeys t.(columns) sample in
    (draws_chart view.(chart) = true <->
     controls.(Controls.chartType) <> ChartType.table /\
     key_falsy keys.(xKey) = false /\ key_falsy keys.(yKey) = false) /\
    (draws_chart view.(chart) = true ->
     exists y r, keys.(yKey) = Some y /\ In r t.(rows) /\
                 isFiniteNumber (obj_read r y) = true) /\
    (controls.(Controls.chartType) = ChartType.table ->
     view.(chart) = TableModeNotice) /\
    (controls.(Controls.chartType) <> ChartType.table ->
     draws_chart view.(chart) = false -> view.(chart) = NoNumericNotice).
Proof.
  intros H _ _ Hrows.
  set (sorted := stable_sort (compare_keys localeCompare controls.(Controls.sortBy))
                             t.(rows)).
  assert (rows_coerce sorted) as Hsorted.
  { eapply rows_coerce_incl; [|exact Hrows]. intros r. apply sorted_rows_incl. }
  destruct (@pickChart_returns Finite_toString StringToNumber t.(columns)
              (sampleRows sorted controls.(Controls.topN))) as [picked Hpicked].
  { eapply rows_coerce_incl; [|exact Hsorted]. intros r. apply Array_slice0_incl. }
  destruct (@table_body_returns Finite_toString JSON_stringify t.(columns)
              (displayRows sorted controls.(Controls.rowsToDisplay))) as [cells Hcells].
  { eapply rows_coerce_incl; [|exact Hsorted]. intros r. apply Array_slice0_incl. }
  eexists sorted, _. split; [apply sortRows_returns|].
  split.
  { rewrite (@SqlResultVisualizer_table argument_limit Finite_toString StringToNumber
               localeCompare JSON_stringify data controls t H). cbv zeta. fold sorted.
    rewrite Hpicked. cbn [bind]. rewrite Hcells. reflexivity. }
  cbn [chart]. cbv zeta.
  destruct (@renderChart_draws Finite_toString StringToNumber _ _ picked
              controls.(Controls.chartType) (paletteMap controls.(Controls.palette))
              controls.(Controls.showLabels) Hpicked) as (Hdraw & Htable & Hnotice).
  split; [exact Hdraw|]. split; [|split; assumption].
  intro Hd. apply Hdraw in Hd as (_ & _ & Hy).
  destruct (yKey (pickEncodingKeys t.(columns)
                    (sampleRows sorted controls.(Controls.topN)))) as [y|] eqn:Ey;
    [|discriminate].
  apply value_key_is_numeric in Ey as (r & Hr & Hnum).
  exists y, r. split; [reflexivity|]. split; [|exact Hnum].
  apply Array_slice0_incl in Hr. now apply sorted_rows_incl in Hr.
Qed.

Lemma visualizer_chart_witness :
  exists sorted view,
    sortRows integer_toString literal_toNumber codeunit_compare
             cities_table.(rows) value_desc = Normal sorted /\
    SqlResultVisualizer sample_argument_limit integer_toString literal_toNumber
      codeunit_compare (fun _ => Throw TypeError) cities_sample top_two_controls
    = Normal (Visualized view) /\
    (draws_chart view.(chart) = true <->
     ChartType.bar <> ChartType.table /\
     key_falsy (pickEncodingKeys cities_table.(columns)
                  (sampleRows sorted (Finite (inject_Z 2)))).(xKey) = false /\
     key_falsy (pickEncodingKeys cities_table.(columns)
                  (sampleRows sorted (Finite (inject_Z 2)))).(yKey) = false) /\
    (draws_chart view.(chart) = true ->
     exists y r,
       (pickEncodingKeys cities_table.(columns)
          (sampleRows sorted (Finite (inject_Z 2)))).(yKey) = Some y /\
       In r cities_table.(rows) /\ isFiniteNumber (obj_read r y) = true) /\
    (ChartType.bar = ChartType.table -> view.(chart) = TableModeNotice) /\
    (ChartType.bar <> ChartType.table ->
     draws_chart view.(chart) = false -> view.(chart) = NoNumericNotice).
Proof.
  apply (@visualizer_chart sample_argument_limit integer_toString literal_toNumber
           codeunit_compare (fun _ => Throw TypeError) cities_sample top_two_controls
           cities_table).
  - reflexivity.
  - repeat constructor.
  - reflexivity.
  - intros r v Hr Hv. simpl in Hr.
    repeat (destruct Hr as [<- | Hr]; [simpl in Hv; intuition (subst; reflexivity)|]).
    contradiction.
Defined.

(** X15: with a top-N of [n] and a rows-to-display of [m], both counts, the
    component sorts the rows once and takes both windows from the start of
    the sorted rows: the chart is drawn from the first [n] of them (from all
    of them when [n] is 0), the data table shows the first [m] (the first 25
    when [m] is 0), cell by cell as [formatCell] renders them, reports the
    number shown and the total, and raises its notice exactly when rows are
    left out.  The data is normalised by own properties and its cells all
    have a string form. *)
Theorem visualizer_windows (argument_limit : N) (Finite_toString : Q -> JsString)
  (StringToNumber : JsString -> JsNumber)
  (localeCompare : JsString -> JsString -> Z)
  (JSON_stringify : JsValue -> completion JsString)
  (data : JsValue) (controls : Controls.t) (t : NormalizedTable) (n m : nat) :
  normalizeSqlResult argument_limit data = Normal (Some t) ->
  own_columns t.(columns) ->
  plain_records data = true ->
  rows_coerce t.(rows) ->
  controls.(Controls.topN) = nat_number n ->
  controls.(Controls.rowsToDisplay) = nat_number m ->
  let limit := if Nat.eqb m 0 then 25 else m in
  let sample := if Nat.eqb n 0 then List.length t.(rows) else n in
  exists sorted picked view,
    sortRows Finite_toString StringToNumber localeCompare
             t.(rows) controls.(Controls.sortBy) = Normal sorted /\
    pickChart Finite_toString StringToNumber t.(columns) (firstn sample sorted)
    = Normal picked /\
    SqlResultVisualizer argument_limit Finite_toString StringToNumber localeCompare
      JSON_stringify data controls = Normal (Visualized view) /\
    view.(chart) =
      renderChart controls.(Controls.chartType)
        picked.(Chart.xKey) picked.(Chart.yKey) picked.(Chart.chartData)
        (paletteMap controls.(Controls.palette)) controls.(Controls.showLabels) /\
    view.(header) = t.(columns) /\
    Forall2
      (fun r cells =>
         Forall2 (fun c cell =>
                    formatCell Finite_toString JSON_stringify (obj_read r c)
                    = Normal cell)
                 t.(columns) cells)
      (firstn limit sorted) view.(body) /\
    view.(shown) = Nat.min limit (List.length t.(rows)) /\
    view.(total) = List.length t.(rows) /\
    view.(moreNotice) = (limit <? List.length t.(rows)).
Proof.
  intros H _ _ Hrows HtopN Hdisplay limit sample.
  set (sorted := stable_sort (compare_keys localeCompare controls.(Controls.sortBy))
                             t.(rows)).
  assert (rows_coerce sorted) as Hsorted.
  { eapply rows_coerce_incl; [|exact Hrows]. intros r. apply sorted_rows_incl. }
  assert (List.length sorted = List.length t.(rows)) as Hlen
      by apply sorted_rows_length.
  assert (sampleRows sorted controls.(Controls.topN) = firstn sample sorted) as Hsample.
  { unfold sampleRows, sample. rewrite HtopN, number_or_nat, Hlen.
    destruct (Nat.eqb n 0); apply Array_slice0_nat. }
  assert (number_or controls.(Controls.rowsToDisplay) (Finite 25) = nat_number limit)
    as Hlimit.
  { unfold limit. rewrite Hdisplay, number_or_nat. now destruct (Nat.eqb m 0). }
  assert (displayRows sorted controls.(Controls.rowsToDisplay) = firstn limit sorted)
    as Hshown.
  { unfold displayRows. rewrite Hlimit. apply Array_slice0_nat. }
  destruct (@pickChart_returns Finite_toString StringToNumber t.(columns)
              (firstn sample sorted)) as [picked Hpicked].
  { eapply rows_coerce_incl; [|exact Hsorted]. intros r. apply firstn_incl. }
  destruct (@table_body_returns Finite_toString JSON_stringify t.(columns)
              (firstn limit sorted)) as [cells Hcells].
  { eapply rows_coerce_incl; [|exact Hsorted]. intros r. apply firstn_incl. }
  exists sorted, picked. eexists. split; [apply sortRows_returns|].
  split; [exact Hpicked|]. split.
  { rewrite (@SqlResultVisualizer_table argument_limit Finite_toString StringToNumber
               localeCompare JSON_stringify data controls t H). cbv zeta. fold sorted.
    rewrite Hsample, Hshown, Hpicked. cbn [bind]. rewrite Hcells. reflexivity. }
  cbn [chart header body shown total moreNotice].
  rewrite Hlimit, Number_gt_nat, length_firstn, !Hlen.
  split; [reflexivity|]. split; [reflexivity|]. split; [|repeat split].
  apply Array_map_normal in Hcells. revert Hcells. apply Forall2_impl.
  intros r cs Hcs. now apply Array_map_normal in Hcs.
Qed.

Lemma visualizer_windows_witness :
  exists sorted picked view,
    sortRows integer_toString literal_toNumber codeunit_compare
             cities_table.(rows) value_desc = Normal sorted /\
    pickChart integer_toString literal_toNumber cities_table.(columns)
              (firstn 2 sorted) = Normal picked /\
    SqlResultVisualizer sample_argument_limit integer_toString literal_toNumber
      codeunit_compare (fun _ => Throw TypeError) cities_sample top_two_controls
    = Normal (Visualized view) /\
    view.(chart) =
      renderChart ChartType.bar
        picked.(Chart.xKey) picked.(Chart.yKey) picked.(Chart.chartData)
        (paletteMap Palette.indigo) false /\
    view.(header) = cities_table.(columns) /\
    Forall2
      (fun r cells =>
         Forall2 (fun c cell =>
                    formatCell integer_toString (fun _ => Throw TypeError)
                               (obj_read r c) = Normal cell)
                 cities_table.(columns) cells)
      (firstn 1 sorted) view.(body) /\
    view.(shown) = Nat.min 1 3 /\
    view.(total) = 3 /\
    view.(moreNotice) = (1 <? 3).
Proof.
  apply (@visualizer_windows sample_argument_limit integer_toString literal_toNumber
           codeunit_compare (fun _ => Throw TypeError) cities_sample top_two_controls
           cities_table 2 1).
  - reflexivity.
  - repeat constructor.
  - reflexivity.
  - intros r v Hr Hv. simpl in Hr.
    repeat (destruct Hr as [<- | Hr]; [simpl in Hv; intuition (subst; reflexivity)|]).
    contradiction.
  - reflexivity.
  - reflexivity.
Defined.

(** The view of the three cities: bars over the two largest totals, the
    data table showing the largest only. *)
Example visualizer_top_two :
  SqlResultVisualizer sample_argument_limit integer_toString literal_toNumber
    codeunit_compare (fun _ => Throw TypeError) cities_sample top_two_controls
  = Normal (Visualized
      {| chart := BarChartView true
                    [[(str "city", JStr (str "Ha Noi")); (str "total", num 9)];
                     [(str "city", JStr (str "Da Nang")); (str "total", num 8)]]
                    (str "city") (str "total") (Some (str "#6366f1")) false;
         header := [str "city"; str "total"];
         body := [[str "Ha Noi"; str "9"]];
         shown := 1; total := 3; moreNotice := true |}).
Proof. vm_compute. reflexivity. Qed.

(** X20: on data that normalises by own properties to a table, the
    component can only throw a [TypeError], and does so only when some
    value of the table has no string form, as in the record array
    [[{k: {toString: 1}, v: 1}, {k: "s", v: 2}]]. *)
Theorem visualizer_throws (argument_limit : N) (Finite_toString : Q -> JsString)
  (StringToNumber : JsString -> JsNumber)
  (localeCompare : JsString -> JsString -> Z)
  (JSON_stringify : JsValue -> completion JsString)
  (data : JsValue) (controls : Controls.t) (t : NormalizedTable) (e : JsError) :
  normalizeSqlResult argument_limit data = Normal (Some t) ->
  own_columns t.(columns) ->
  plain_records data = true ->
  SqlResultVisualizer argument_limit Finite_toString StringToNumber localeCompare
    JSON_stringify data controls = Throw e ->
  e = TypeError /\
  exists r v, In r t.(rows) /\ In v (obj_values r) /\ coerces v = false.
Proof.
  intros H _ _ Hthrow.
  rewrite (@SqlResultVisualizer_table argument_limit Finite_toString StringToNumber
               localeCompare JSON_stringify data controls t H) in Hthrow. cbv zeta in Hthrow.
  set (sorted := stable_sort (compare_keys localeCompare controls.(Controls.sortBy))
                             t.(rows)) in *.
  assert (forall r c, In r sorted -> coerces (obj_read r c) = false ->
                      exists r v, In r t.(rows) /\ In v (obj_values r) /\
                                  coerces v = false) as Hcell.
  { intros r c Hr Hc. apply sorted_rows_incl in Hr. unfold obj_read in Hc.
    destruct (obj_get r c) as [v|] eqn:E; [|discriminate].
    exists r, v. split; [exact Hr|]. split; [|exact Hc]. clear Hr Hc.
    induction r as [|[k v'] r IH]; [discriminate|]. simpl in *.
    destruct (String_eqb k c); [injection E as ->; now left | right; now apply IH]. }
  destruct (pickChart Finite_toString StringToNumber t.(columns) _) as [picked|e']
    eqn:Epicked; cbn [bind] in Hthrow.
  - destruct (Array_map _ (displayRows sorted _)) as [cells|e'] eqn:Ecells;
      cbn [bind] in Hthrow; [discriminate|].
    injection Hthrow as ->.
    apply Array_map_throw, Exists_exists in Ecells as (r & Hr & Hrow).
    apply Array_map_throw, Exists_exists in Hrow as (c & _ & Hc).
    apply formatCell_throws in Hc as [-> Hc]. split; [reflexivity|].
    apply Array_slice0_incl in Hr. eauto.
  - injection Hthrow as ->.
    apply pickChart_throws_iff in Epicked as (-> & x & y & _ & _ & _ & Hex).
    split; [reflexivity|].
    apply Exists_exists in Hex as (r & Hr & Hbad).
    apply firstn_incl, Array_slice0_incl in Hr.
    destruct Hbad as [Hbad|Hbad]; eauto.
Qed.

Lemma visualizer_throws_witness :
  TypeError = TypeError /\
  exists r v, In r unprintable_table.(rows) /\ In v (obj_values r) /\
              coerces v = false.
Proof.
  apply (@visualizer_throws sample_argument_limit integer_toString literal_toNumber
           codeunit_compare (fun _ => Throw TypeError) unprintable_sample
           top_two_controls unprintable_table TypeError);
    try reflexivity.
  repeat constructor.
Defined.

(** X16: in the data table of data normalised by own properties, a cell
    whose column is missing from the source row reads ["-"], a cell that is
    [null] in the source row reads ["null"], and a string cell reads as the
    string itself. *)
Theorem missing_cells_read_dash (argument_limit : N)
  (Finite_toString : Q -> JsString)
  (JSON_stringify : JsValue -> completion JsString)
  (raw : JsValue) (t : NormalizedTable) :
  normalizeSqlResult argument_limit raw = Normal (Some t) ->
  own_columns t.(columns) ->
  plain_records raw = true ->
  exists sh srcs,
    accepted_shape raw = Some (sh, srcs) /\
    Forall2
      (fun src row =>
         forall j c, nth_error t.(columns) j = Some c ->
           let shown := formatCell Finite_toString JSON_stringify (obj_read row c) in
           (source_cell sh src j c = None -> shown = Normal (str "-")) /\
           (source_cell sh src j c = Some JNull -> shown = Normal (str "null")) /\
           (forall s, source_cell sh src j c = Some (JStr s) -> shown = Normal s))
      srcs t.(rows).
Proof.
  intros H _ _. apply accepted_rows_filled in H as (sh & srcs & Hshape & Hfilled).
  exists sh, srcs. split; [exact Hshape|].
  revert Hfilled. unfold rows_filled. apply Forall2_impl.
  intros src row [_ Hget] j c Hc. cbv zeta. unfold obj_read.
  rewrite (Hget j c Hc). unfold cell_or_undefined.
  repeat split; intros; subst;
    match goal with H : source_cell _ _ _ _ = _ |- _ => rewrite H end; reflexivity.
Qed.

Lemma missing_cells_read_dash_witness :
  exists sh srcs,
    accepted_shape direct_sample = Some (sh, srcs) /\
    Forall2
      (fun src row =>
         forall j c, nth_error [str "a"; str "b"] j = Some c ->
           let shown :=
             formatCell integer_toString (fun _ => Throw TypeError) (obj_read row c) in
           (source_cell sh src j c = None -> shown = Normal (str "-")) /\
           (source_cell sh src j c = Some JNull -> shown = Normal (str "null")) /\
           (forall s, source_cell sh src j c = Some (JStr s) -> shown = Normal s))
      srcs [[(str "a", num 1); (str "b", JUndefined)]].
Proof.
  apply (@missing_cells_read_dash sample_argument_limit integer_toString
           (fun _ => Throw TypeError) direct_sample
           {| columns := [str "a"; str "b"];
              rows := [[(str "a", num 1); (str "b", JUndefined)]] |}).
  - reflexivity.
  - repeat constructor.
  - reflexivity.
Defined.

(* ================================================================== *)
(** ** The page: choosing and counting the data *)

Lemma normalized_is_truthy (argument_limit : N) (raw : JsValue) :
  normalizeSqlResult argument_limit raw <> Normal None -> truthy raw = true.
Proof.
  unfold normalizeSqlResult, normalizeSqlResult_body.
  destruct (truthy raw); [reflexivity | contradiction].
Qed.

(** X17: whenever the [sql_result] of a state normalises to a table (or
    makes the normaliser throw), the page hands that [sql_result] to the
    visualiser and leaves [final_response] aside; [final_response] is used,
    when it is a non-empty string, only under a falsy [sql_result]. *)
Theorem sql_result_comes_first (argument_limit : N) (st : GraphState) :
  (normalizeSqlResult argument_limit st.(sql_result) <> Normal None ->
   pickDataForViz (Some st) = st.(sql_result)) /\
  (forall text,
      pickDataForViz (Some st) = JStr text ->
      st.(sql_result) = JStr text \/
      (truthy st.(sql_result) = false /\ st.(final_response) = Some text)) /\
  normalizeSqlResult argument_limit (pickDataForViz None) = Normal None.
Proof.
  split; [|split].
  - intro H. apply normalized_is_truthy in H. unfold pickDataForViz. now rewrite H.
  - intros text. unfold pickDataForViz.
    destruct (truthy st.(sql_result)) eqn:E.
    + intro H. now left.
    + destruct st.(final_response) as [[|c s]|]; try discriminate.
      intro H. injection H as <-. right. now split.
  - reflexivity.
Qed.

Lemma sql_result_comes_first_witness :
  pickDataForViz
    (Some {| sql_result := direct_sample; final_response := Some (str "[[1,2]]") |})
  = direct_sample.
Proof.
  apply (proj1 (sql_result_comes_first sample_argument_limit
                  {| sql_result := direct_sample;
                     final_response := Some (str "[[1,2]]") |})).
  discriminate.
Defined.

(** X18: the row count the page reports equals the number of rows of the
    normalised table when the data is an array, or a string that begins
    with the opening bracket; for a direct table it is 0, whatever the
    number of rows. *)
Theorem row_count_matches_table (argument_limit : N) (data : JsValue)
  (t : NormalizedTable) :
  normalizeSqlResult argument_limit data = Normal (Some t) ->
  ((exists items, data = JArr items) \/
   (exists text, data = JStr (91%N :: text)) ->
   getRowCount data = List.length t.(rows)) /\
  ((exists props, data = JObj props) -> getRowCount data = 0).
Proof.
  intro H. split.
  - assert (forall items,
               normalizeSqlResult argument_limit (JArr items) = Normal (Some t) ->
               List.length items = List.length t.(rows)) as Harr.
    { intros items Hn. apply array_rows_filled in Hn as (sh & srcs & Hshape & Hfilled).
      apply Forall2_length in Hfilled. rewrite <- Hfilled.
      unfold array_shape in Hshape.
      destruct items as [|[] rest]; try discriminate;
        injection Hshape as _ <-; reflexivity. }
    intros [[items ->] | [text ->]].
    + now apply Harr.
    + rewrite normalizeSqlResult_string in H.
      unfold tryParseJsonArray in H. cbn [String_indexOf N.eqb Pos.eqb] in H.
      unfold String_slice in H. cbn [skipn] in H.
      unfold getRowCount.
      destruct (JSON_parse (91%N :: text)) as [[]|]; try discriminate.
      now apply Harr.
  - intros [props ->]. reflexivity.
Qed.

Lemma row_count_matches_table_witness :
  getRowCount (JStr (json_text "[['x',1],['y',2]]")) = 2.
Proof.
  apply (proj1 (@row_count_matches_table sample_argument_limit
                  (JStr (json_text "[['x',1],['y',2]]"))
                  {| columns := [str "label"; str "value"];
                     rows := [[(str "label", JStr (str "x")); (str "value", num 1)];
                              [(str "label", JStr (str "y")); (str "value", num 2)]] |}
                  eq_refl)).
  right. eexists. reflexivity.
Defined.

